(** * Game2048: the rules engine of script.js, embedded in Rocq

    The class [Game2048] of [src/script.js] keeps a 4x4 grid of numbers, a
    score, a one-slot undo snapshot and a sticky "won" flag.  Every method
    that writes one of these fields is embedded below as a function on an
    explicit record of the fields.  Tile values and the score are JavaScript
    numbers that only ever hold integers; they are embedded as [Z].  The two
    calls of [Math.random()] made when a tile is spawned are arguments of the
    embedding, as rationals of the unit interval.  The DOM and the writes to
    [localStorage] touch none of the modelled fields; of the DOM effects only
    the overlay a move schedules is kept, as part of the result of [move]. *)

From Stdlib Require Import ZArith QArith Qround Qabs String Lia.
From stdpp Require Import list.

Local Open Scope Z_scope.

(** ** Data *)

(** [this.grid]: an array of rows, each an array of numbers. *)
Abbreviation matrix := (list (list Z)).

(** The objects [{row: i, col: j}] built in [addRandomTile] and [move]. *)
Record cell := Cell { row : nat; col : nat }.

(** [this.previousState], when it is not [null]. *)
Record snapshot := Snapshot { snap_grid : matrix; snap_score : Z }.

(** The fields of a [Game2048] object that the engine reads and writes. *)
Record Game2048 := Game {
  grid : matrix;
  score : Z;
  previousState : option snapshot;
  autoSave : bool;
  hasWon : bool
}.

(** The overlay whose display a move schedules with [setTimeout]. *)
Inductive overlay := WinOverlay | GameOverOverlay.

(** Reads [g[i]] and [g[i][j]].  On the 4x4 grids the engine builds every
    index used below is in range; out of range the embedding reads an empty
    row and the value 0 (JavaScript reads [undefined]). *)
Definition row_at (g : matrix) (i : nat) : list Z := default [] (g !! i).
Definition at_ (r : list Z) (j : nat) : Z := default 0 (r !! j).
Definition cell_at (g : matrix) (i j : nat) : Z := at_ (row_at g i) j.

(** The indices 0, 1, 2, 3 of [for (let i = 0; i < 4; i++)]. *)
Definition idx4 : list nat := seq 0 4.

(** ** [initGrid] (script.js 26-28) *)
Definition initGrid : matrix := replicate 4 (replicate 4 0).

(** ** [slideAndMergeRow] (script.js 186-204) *)

(** The result object [{ row: newRow, merged }], with the value of
    [this.score] after the call. *)
Record slid := Slid { slid_row : list Z; slid_merged : list nat; slid_score : Z }.

(** The [for] loop of lines 190-197.  [newRow.length] is read again at each
    test, after the [splice] of the previous turn.  Each turn increases
    [i] by one, so [length newRow - i] turns suffice and [fuel] counts
    them. *)
Fixpoint merge_loop (fuel : nat) (i : nat) (newRow : list Z) (merged : list nat)
    (score : Z) : slid :=
  match fuel with
  | O => Slid newRow merged score
  | S fuel' =>
      if (Z.of_nat i <? Z.of_nat (length newRow) - 1)
      then
        if (at_ newRow i =? at_ newRow (i + 1))
        then
          let newRow1 := <[i := at_ newRow i * 2]> newRow in   (* newRow[i] *= 2 *)
          let score1 := score + at_ newRow1 i in               (* this.score += newRow[i] *)
          let newRow2 := delete (i + 1)%nat newRow1 in         (* newRow.splice(i + 1, 1) *)
          merge_loop fuel' (i + 1) newRow2 (merged ++ [i]) score1
        else merge_loop fuel' (i + 1) newRow merged score
      else Slid newRow merged score
  end.

(** The [while] loop of lines 199-201; at most four zeros are pushed. *)
Fixpoint pad_loop (fuel : nat) (newRow : list Z) : list Z :=
  match fuel with
  | O => newRow
  | S fuel' =>
      if (length newRow <? 4)%nat then pad_loop fuel' (newRow ++ [0]) else newRow
  end.

Definition slideAndMergeRow (r : list Z) (score : Z) : slid :=
  let newRow := List.filter (fun val => negb (val =? 0)) r in
  let s := merge_loop (length newRow) 0 newRow [] score in
  Slid (pad_loop 4 (slid_row s)) (slid_merged s) (slid_score s).


(** ** [addRandomTile] (script.js 77-91) *)

(** [grid[i][j] = v] *)
Definition set_cell (g : matrix) (i j : nat) (v : Z) : matrix :=
  <[i := <[j := v]> (row_at g i)]> g.

(** The two nested loops of lines 79-85. *)
Definition emptyCells (g : matrix) : list cell :=
  flat_map (fun i =>
    flat_map (fun j => if cell_at g i j =? 0 then [Cell i j] else []) idx4) idx4.

(** [Math.floor(Math.random() * n)] for a draw [rnd] of [Math.random()]. *)
Definition random_index (rnd : Q) (n : nat) : Z :=
  Qfloor (rnd * inject_Z (Z.of_nat n)).

(** [Math.random() < 0.9 ? 2 : 4] *)
Definition random_value (rnd : Q) : Z :=
  if Qle_bool (9 # 10) rnd then 4 else 2.

(** [Math.random()] returns a number of the interval from 0 (included) to 1
    (excluded). *)
Definition unit_draw (rnd : Q) : Prop := (0 <= rnd)%Q /\ (rnd < 1)%Q.

(** [rnd1] and [rnd2] are the results of the two calls of [Math.random()],
    in the order of the calls.  For draws of the unit interval the index is
    in range ([random_index_in_range] below); the embedding leaves the grid
    as it is otherwise. *)
Definition addRandomTile (rnd1 rnd2 : Q) (this : Game2048) : Game2048 :=
  let cells := emptyCells (grid this) in
  if (0 <? length cells)%nat then
    let k := random_index rnd1 (length cells) in
    match (if k <? 0 then None else cells !! Z.to_nat k) with
    | Some randomCell =>
        Game (set_cell (grid this) (row randomCell) (col randomCell) (random_value rnd2))
             (score this) (previousState this) (autoSave this) (hasWon this)
    | None => this
    end
  else this.

(** ** [newGame] (script.js 63-72) *)
Definition newGame (rnd1 rnd2 rnd3 rnd4 : Q) (this : Game2048) : Game2048 :=
  addRandomTile rnd3 rnd4
    (addRandomTile rnd1 rnd2 (Game initGrid 0 None (autoSave this) false)).

(** ** [checkWin] (script.js 210-219) and [isGameOver] (script.js 225-249) *)
Definition checkWin (this : Game2048) : bool :=
  existsb (fun i => existsb (fun j => cell_at (grid this) i j =? 2048) idx4) idx4.

Definition isGameOver (this : Game2048) : bool :=
  if existsb (fun i => existsb (fun j => cell_at (grid this) i j =? 0) idx4) idx4
  then false
  else
    if existsb (fun i => existsb (fun j =>
          let current := cell_at (grid this) i j in
          ((i <? 3)%nat && (cell_at (grid this) (i + 1) j =? current))
          || ((j <? 3)%nat && (cell_at (grid this) i (j + 1) =? current))) idx4) idx4
    then false
    else true.

(** ** [saveState] (script.js 254-259) and [undo] (script.js 264-272) *)

(** The snapshot holds a copy of the rows, so later writes to the grid do
    not reach it. *)
Definition saveState (this : Game2048) : Game2048 :=
  Game (grid this) (score this) (Some (Snapshot (grid this) (score this)))
       (autoSave this) (hasWon this).

Definition undo (this : Game2048) : Game2048 :=
  match previousState this with
  | Some prev => Game (snap_grid prev) (snap_score prev) None (autoSave this) (hasWon this)
  | None => this
  end.

(** ** [move] (script.js 97-179) *)

(** The local variables [newGrid], [moved] and [mergedCells] of [move], with
    [this.score], which [slideAndMergeRow] advances while the lines are
    processed. *)
Record sweep := Sweep {
  newGrid : matrix;
  moved : bool;
  mergedCells : list cell;
  sweep_score : Z
}.

(** [JSON.stringify(a) !== JSON.stringify(b)] on two arrays of integers. *)
Definition differ (a b : list Z) : bool := negb (bool_decide (a = b)).

(** Body of the loop of lines 105-112. *)
Definition left_body (st : sweep) (i : nat) : sweep :=
  let r := slideAndMergeRow (row_at (newGrid st) i) (sweep_score st) in
  Sweep (<[i := slid_row r]> (newGrid st))
        (if differ (slid_row r) (row_at (newGrid st) i) then true else moved st)
        (mergedCells st ++ map (fun col => Cell i col) (slid_merged r))
        (slid_score r).

(** Body of the loop of lines 114-122.  [Array.prototype.reverse] reverses
    the array it is called on, in place, and returns that same array:
    [row.row] is reversed a first time by the call in the test of line 117
    and a second time by the call of line 120, whose result is stored. *)
Definition right_body (st : sweep) (i : nat) : sweep :=
  let reversed := reverse (row_at (newGrid st) i) in
  let r := slideAndMergeRow reversed (sweep_score st) in
  let row_117 := reverse (slid_row r) in
  let row_120 := reverse row_117 in
  Sweep (<[i := row_120]> (newGrid st))
        (if differ row_117 (row_at (newGrid st) i) then true else moved st)
        (mergedCells st ++ map (fun col => Cell i (3 - col)) (slid_merged r))
        (slid_score r).

(** Body of the loop of lines 124-134. *)
Definition up_body (st : sweep) (j : nat) : sweep :=
  let g := newGrid st in
  let column := [cell_at g 0 j; cell_at g 1 j; cell_at g 2 j; cell_at g 3 j] in
  let r := slideAndMergeRow column (sweep_score st) in
  let rr := slid_row r in
  Sweep (foldl (fun g' i => set_cell g' i j (at_ rr i)) g idx4)
        (if differ [at_ rr 0; at_ rr 1; at_ rr 2; at_ rr 3] column then true else moved st)
        (mergedCells st ++ map (fun rowIdx => Cell rowIdx j) (slid_merged r))
        (slid_score r).

(** Body of the loop of lines 136-146. *)
Definition down_body (st : sweep) (j : nat) : sweep :=
  let g := newGrid st in
  let column := [cell_at g 3 j; cell_at g 2 j; cell_at g 1 j; cell_at g 0 j] in
  let r := slideAndMergeRow column (sweep_score st) in
  let rr := slid_row r in
  Sweep (foldl (fun g' i => set_cell g' (3 - i) j (at_ rr i)) g idx4)
        (if differ [at_ rr 3; at_ rr 2; at_ rr 1; at_ rr 0]
                   [cell_at g 0 j; cell_at g 1 j; cell_at g 2 j; cell_at g 3 j]
         then true else moved st)
        (mergedCells st ++ map (fun rowIdx => Cell (3 - rowIdx) j) (slid_merged r))
        (slid_score r).

(** Lines 98-147: the snapshot is taken, then the four lines are processed
    on a copy of the grid.  A direction that is none of the four strings
    enters no branch. *)
Definition sweep_lines (direction : string) (this : Game2048) : sweep :=
  let st := Sweep (grid this) false [] (score this) in
  if (direction =? "left")%string then foldl left_body st idx4
  else if (direction =? "right")%string then foldl right_body st idx4
  else if (direction =? "up")%string then foldl up_body st idx4
  else if (direction =? "down")%string then foldl down_body st idx4
  else st.

(** What a call of [move] leaves behind: the object, the final values of
    [moved] and [mergedCells], and the overlay scheduled for display. *)
Record MoveResult := Moved {
  after : Game2048;
  didMove : bool;
  mergedPositions : list cell;
  shown : option overlay
}.

Definition move (direction : string) (rnd1 rnd2 : Q) (this : Game2048) : MoveResult :=
  let this1 := saveState this in
  let st := sweep_lines direction this1 in
  let this2 := Game (grid this1) (sweep_score st) (previousState this1)
                    (autoSave this1) (hasWon this1) in
  if moved st then
    let this3 := Game (newGrid st) (score this2) (previousState this2)
                      (autoSave this2) (hasWon this2) in
    let this4 := addRandomTile rnd1 rnd2 this3 in
    if checkWin this4 && negb (hasWon this4) then
      Moved (Game (grid this4) (score this4) (previousState this4) (autoSave this4) true)
            true (mergedCells st) (Some WinOverlay)
    else if isGameOver this4 then
      Moved this4 true (mergedCells st) (Some GameOverOverlay)
    else Moved this4 true (mergedCells st) None
  else Moved this2 false (mergedCells st) None.

(** A grid holding only its first row. *)
Definition top_row (r : list Z) : matrix := [r; [0;0;0;0]; [0;0;0;0]; [0;0;0;0]].
Definition game_of (g : matrix) (sc : Z) : Game2048 := Game g sc None true false.

(** ** [loadGame] (script.js 33-45) *)

(** JavaScript values, as far as [JSON.parse] can return them, plus
    [undefined], which reading a missing property yields. *)
#[local] Unset Elimination Schemes.
Inductive js_value :=
| JSUndefined
| JSNull
| JSBool (b : bool)
| JSNumber (q : Q)
| JSString (s : string)
| JSArray (items : list js_value)
| JSObject (props : list (string * js_value)).
#[local] Set Elimination Schemes.

Inductive js_error := SyntaxError | TypeError.

(** What [localStorage.getItem('2048-game-state')] returns: [null], or the
    stored string.  [JSON.parse] is the platform's; a stored string comes
    with what [JSON.parse] does on it, a parsed value or a raised
    [SyntaxError]. *)
Inductive stored_item :=
| NoItem
| Item (text : string) (parsed : js_value + js_error).

(** [if (savedGame)]: [null] and the empty string are falsy. *)
Definition item_truthy (it : stored_item) : bool :=
  match it with
  | NoItem => false
  | Item text _ => negb (text =? "")%string
  end.

(** [v.name] for one of the names [grid], [score], [hasWon], which no
    prototype defines: reading a property of [null] or [undefined] raises a
    [TypeError], a missing property reads [undefined]. *)
Fixpoint lookup_prop (name : string) (props : list (string * js_value)) : js_value :=
  match props with
  | [] => JSUndefined
  | (k, v) :: rest => if (k =? name)%string then v else lookup_prop name rest
  end.

Definition get_prop (v : js_value) (name : string) : js_value + js_error :=
  match v with
  | JSUndefined | JSNull => inr TypeError
  | JSObject props => inl (lookup_prop name props)
  | _ => inl JSUndefined
  end.

Definition js_truthy (v : js_value) : bool :=
  match v with
  | JSUndefined | JSNull => false
  | JSBool b => b
  | JSNumber q => negb (Qeq_bool q 0)
  | JSString s => negb (s =? "")%string
  | JSArray _ | JSObject _ => true
  end.

(** [a || b] *)
Definition js_or (a b : js_value) : js_value := if js_truthy a then a else b.

(** How a call of [loadGame] ends: [newGame] ran; or lines 38-40 stored the
    three properties of the parsed value as they are; or an error was
    raised, which nothing in the class catches. *)
Inductive load_outcome :=
| Started (this : Game2048)
| Installed (grid_v score_v hasWon_v : js_value)
| Raised (e : js_error).

Definition loadGame (it : stored_item) (rnd1 rnd2 rnd3 rnd4 : Q) (this : Game2048)
    : load_outcome :=
  if autoSave this && item_truthy it then
    match it with
    | Item _ (inl gameState) =>
        match get_prop gameState "grid" with
        | inr e => Raised e
        | inl g =>
            match get_prop gameState "score", get_prop gameState "hasWon" with
            | inl sc, inl w => Installed g sc (js_or w (JSBool false))
            | inr e, _ | _, inr e => Raised e
            end
        end
    | Item _ (inr e) => Raised e
    | NoItem => Started (newGame rnd1 rnd2 rnd3 rnd4 this)
    end
  else Started (newGame rnd1 rnd2 rnd3 rnd4 this).

(** ** The line reduction in the words of the specification

    Compaction removes the zeros.  The scan then goes left to right over the
    compacted line: two equal neighbours become one cell of double the value
    and the scan resumes after the pair, so that the doubled cell meets no
    further neighbour.  The line is padded with zeros to length 4. *)
Definition compact (line : list Z) : list Z :=
  List.filter (fun v => negb (v =? 0)) line.

Fixpoint merge_once (l : list Z) : list Z :=
  match l with
  | [] => []
  | a :: rest =>
      match rest with
      | [] => [a]
      | b :: t => if a =? b then 2 * a :: merge_once t else a :: merge_once rest
      end
  end.

(** The sum of the doubled values the scan creates. *)
Fixpoint merge_gain (l : list Z) : Z :=
  match l with
  | [] => 0
  | a :: rest =>
      match rest with
      | [] => 0
      | b :: t => if a =? b then 2 * a + merge_gain t else merge_gain rest
      end
  end.

(** The positions, in the reduced line, of the cells the scan creates, for
    a scan whose first cell lands at position [i]. *)
Fixpoint merge_at (i : nat) (l : list Z) : list nat :=
  match l with
  | [] => []
  | a :: rest =>
      match rest with
      | [] => []
      | b :: t => if a =? b then i :: merge_at (S i) t else merge_at (S i) rest
      end
  end.

Definition pad4 (l : list Z) : list Z := l ++ replicate (4 - length l) 0.

Definition slideAndMergeLine (line : list Z) : list Z := pad4 (merge_once (compact line)).

(** ** The lines of a move, in the words of the specification

    For each of the four lines perpendicular to the direction, the cells of
    the line in the order in which the move direction points toward index
    0: rows for left, rows read backwards for right, columns read downwards
    for up and upwards for down. *)
Definition column_at (g : matrix) (j : nat) : list Z :=
  [cell_at g 0 j; cell_at g 1 j; cell_at g 2 j; cell_at g 3 j].

Definition lines_toward (direction : string) (g : matrix) : list (list Z) :=
  if (direction =? "left")%string then map (fun i => row_at g i) idx4
  else if (direction =? "right")%string then map (fun i => reverse (row_at g i)) idx4
  else if (direction =? "up")%string then map (fun j => column_at g j) idx4
  else if (direction =? "down")%string then map (fun j => reverse (column_at g j)) idx4
  else [].

Definition sum_Z (l : list Z) : Z := foldr Z.add 0 l.

(** The sum of the doubled values that the merges of a move create. *)
Definition move_gain (direction : string) (g : matrix) : Z :=
  sum_Z (map (fun line => merge_gain (compact line)) (lines_toward direction g)).

(** A cell of the reduced line is made of one tile of the compacted line,
    or of two equal neighbours. *)
Definition tile_group (gr : list Z) : Prop := exists a, gr = [a] \/ gr = [a; a].

(** ** Games

    A game starts with [newGame], called on any object, and goes on with
    moves and undos; [addRandomTile] is also a step of its own.  The draws
    are those [Math.random()] can return. *)
Inductive reachable : Game2048 -> Prop :=
| reach_newGame (rnd1 rnd2 rnd3 rnd4 : Q) (this : Game2048) :
    unit_draw rnd1 -> unit_draw rnd2 -> unit_draw rnd3 -> unit_draw rnd4 ->
    reachable (newGame rnd1 rnd2 rnd3 rnd4 this)
| reach_move (direction : string) (rnd1 rnd2 : Q) (this : Game2048) :
    reachable this -> unit_draw rnd1 -> unit_draw rnd2 ->
    reachable (after (move direction rnd1 rnd2 this))
| reach_undo (this : Game2048) :
    reachable this -> reachable (undo this)
| reach_addRandomTile (rnd1 rnd2 : Q) (this : Game2048) :
    reachable this -> unit_draw rnd1 -> unit_draw rnd2 ->
    reachable (addRandomTile rnd1 rnd2 this).

(** The calls made on an object between two calls of [newGame], and the
    overlays they schedule, in order. *)
Inductive action :=
| DoMove (direction : string) (rnd1 rnd2 : Q)
| DoUndo.

Definition act (a : action) (this : Game2048) : Game2048 * list overlay :=
  match a with
  | DoMove direction rnd1 rnd2 =>
      let m := move direction rnd1 rnd2 this in
      (after m, match shown m with Some o => [o] | None => [] end)
  | DoUndo => (undo this, [])
  end.

Fixpoint play (acts : list action) (this : Game2048) : Game2048 * list overlay :=
  match acts with
  | [] => (this, [])
  | a :: rest =>
      let '(this1, shown1) := act a this in
      let '(this2, shown2) := play rest this1 in
      (this2, shown1 ++ shown2)
  end.

Definition is_win (o : overlay) : bool :=
  match o with WinOverlay => true | GameOverOverlay => false end.

(** The number of times the win overlay is scheduled. *)
Definition win_events (l : list overlay) : nat := length (List.filter is_win l).

(** The object after the sweep and the spawn of a move that changed the
    grid, before the status checks. *)
Definition spawned (direction : string) (rnd1 rnd2 : Q) (this : Game2048) : Game2048 :=
  addRandomTile rnd1 rnd2
    (Game (newGrid (sweep_lines direction this)) (sweep_score (sweep_lines direction this))
          (Some (Snapshot (grid this) (score this))) (autoSave this) (hasWon this)).

(** ** Cells and their neighbours *)

Definition in_grid (i j : nat) : Prop := (i < 4)%nat /\ (j < 4)%nat.

(** Two positions next to each other in a row or in a column. *)
Definition neighbours (i j i' j' : nat) : Prop :=
  (i = i' /\ (j' = S j \/ j = S j')) \/ (j = j' /\ (i' = S i \/ i = S i')).

Definition has_empty (g : matrix) : Prop :=
  exists i j, in_grid i j /\ cell_at g i j = 0.

Definition has_equal_right_or_below (g : matrix) : Prop :=
  exists i j, in_grid i j /\
    (((i < 3)%nat /\ cell_at g (i + 1) j = cell_at g i j)
     \/ ((j < 3)%nat /\ cell_at g i (j + 1) = cell_at g i j)).

Definition has_equal_neighbours (g : matrix) : Prop :=
  exists i j i' j', in_grid i j /\ in_grid i' j' /\ neighbours i j i' j'
    /\ cell_at g i j = cell_at g i' j'.

(** A tile value: empty, or a power of two that is at least 2. *)
Definition tile_ok (v : Z) : Prop := v = 0 \/ exists k : Z, 1 <= k /\ v = 2 ^ k.

Definition tiles_ok (g : matrix) : Prop := Forall (Forall tile_ok) g.

(** Four rows of four cells. *)
Definition shape_ok (g : matrix) : Prop :=
  length g = 4%nat /\ Forall (fun r => length r = 4%nat) g.

Definition grid_ok (g : matrix) : Prop := shape_ok g /\ tiles_ok g.

(** What holds of the object throughout a game: the grid is well formed,
    the score is not negative, and a grid showing 2048 has set the won
    flag. *)
Definition sound (this : Game2048) : Prop :=
  grid_ok (grid this) /\ 0 <= score this /\ (checkWin this = true -> hasWon this = true).

(** The same holds of what [undo] would restore, whose score is not above
    the current one. *)
Definition engine_inv (this : Game2048) : Prop :=
  sound this /\ sound (undo this) /\ score (undo this) <= score this.

(** Two games used as examples. *)
Definition resting_game : Game2048 := game_of (top_row [2; 0; 0; 0]) 0.
Definition fresh_game : Game2048 := newGame 0 0 0 0 (game_of [] 0).

(** ** Further notions used to describe the engine *)

(** No two cells next to each other in the list are equal. *)
Definition neighbours_differ (l : list Z) : Prop :=
  forall (p : nat) (a b : Z), l !! p = Some a -> l !! S p = Some b -> a <> b.

(** The sum of all the cells of a grid. *)
Definition grid_sum (g : matrix) : Z := sum_Z (map sum_Z g).

(** The sixteen positions of the grid, row by row. *)
Definition positions : list cell :=
  flat_map (fun i => map (fun j => Cell i j) idx4) idx4.

#[local] Instance cell_eq_dec : EqDecision cell.
Proof. solve_decision. Defined.

(** A full grid on which no two neighbours are equal. *)
Definition stuck_game : Game2048 :=
  game_of [[2; 4; 2; 4]; [4; 2; 4; 2]; [2; 4; 2; 4]; [4; 2; 4; 2]] 0.

(** ** [updateDisplay] (script.js 305-343) and the best score

    Of [updateDisplay] only lines 338-342 write a field of the object,
    [this.bestScore].  The constructor takes the best score from
    [localStorage], as the string stored there, or 0; later it is a number.
    [Some b] stands for the number [b] or a string that spells it; [None]
    for a stored string that spells no number, with which the comparison of
    line 338 is false. *)
Record Page := MkPage { engine : Game2048; bestScore : option Z }.

Definition updateDisplay (p : Page) : Page :=
  match bestScore p with
  | Some b =>
      if b <? score (engine p) then MkPage (engine p) (Some (score (engine p))) else p
  | None => p
  end.

(** [newGame], [move] and [undo] with their calls of [updateDisplay]:
    [newGame] calls it after the two spawns (line 70), [move] after the
    spawn of a move that changed the grid (line 152), [undo] after
    restoring a snapshot (line 269). *)
Definition page_newGame (rnd1 rnd2 rnd3 rnd4 : Q) (p : Page) : Page :=
  updateDisplay (MkPage (newGame rnd1 rnd2 rnd3 rnd4 (engine p)) (bestScore p)).

Definition page_move (direction : string) (rnd1 rnd2 : Q) (p : Page) : Page :=
  let m := move direction rnd1 rnd2 (engine p) in
  if didMove m then updateDisplay (MkPage (after m) (bestScore p))
  else MkPage (after m) (bestScore p).

Definition page_undo (p : Page) : Page :=
  match previousState (engine p) with
  | Some _ => updateDisplay (MkPage (undo (engine p)) (bestScore p))
  | None => p
  end.

Inductive page_action :=
| PageNewGame (rnd1 rnd2 rnd3 rnd4 : Q)
| PageMove (direction : string) (rnd1 rnd2 : Q)
| PageUndo.

Definition page_act (a : page_action) (p : Page) : Page :=
  match a with
  | PageNewGame rnd1 rnd2 rnd3 rnd4 => page_newGame rnd1 rnd2 rnd3 rnd4 p
  | PageMove direction rnd1 rnd2 => page_move direction rnd1 rnd2 p
  | PageUndo => page_undo p
  end.

Definition page_play (acts : list page_action) (p : Page) : Page :=
  foldl (fun q a => page_act a q) p acts.

(** ** [saveGame] (script.js 50-58) and [toggleAutoSave] (script.js 277-284) *)

(** A grid of integers as the array of arrays of numbers that it is. *)
Definition js_of_row (r : list Z) : js_value :=
  JSArray (map (fun v => JSNumber (inject_Z v)) r).
Definition js_of_matrix (g : matrix) : js_value := JSArray (map js_of_row g).

(** The object of lines 52-56, which [saveGame] hands to [JSON.stringify]. *)
Definition saved_state (this : Game2048) : js_value :=
  JSObject [("grid"%string, js_of_matrix (grid this));
            ("score"%string, JSNumber (inject_Z (score this)));
            ("hasWon"%string, JSBool (hasWon this))].

(** The calls of [localStorage.setItem]: the string stored under
    ['2048-auto-save'], and the value whose JSON text is stored under
    ['2048-game-state']. *)
Inductive write :=
| SetAutoSave (text : string)
| SetGameState (v : js_value).

Definition saveGame (this : Game2048) : list write :=
  if autoSave this then [SetGameState (saved_state this)] else [].

(** [setItem] stores the boolean as the string [String] makes of it. *)
Definition string_of_boolean (b : bool) : string :=
  if b then "true"%string else "false"%string.

Definition toggleAutoSave (this : Game2048) : Game2048 * list write :=
  let this1 := Game (grid this) (score this) (previousState this)
                    (negb (autoSave this)) (hasWon this) in
  (this1, SetAutoSave (string_of_boolean (autoSave this1))
            :: (if autoSave this1 then saveGame this1 else [])).

(** Line 11 of the constructor:
    [localStorage.getItem('2048-auto-save') !== 'false'], for what
    [getItem] returns, [null] or a string. *)
Definition read_autoSave (stored : option string) : bool :=
  match stored with
  | Some text => negb (text =? "false")%string
  | None => true
  end.

(** ** [bindEvents] (script.js 348-407)

    The [keydown] handler maps the key of the event to the direction it
    calls [move] with.  The touch handlers keep the start of the touch in
    [startX] and [startY], which are [undefined] before the first touch and
    [null] after a handled [touchend]; the coordinates of a touch are
    numbers, embedded as rationals. *)
Definition key_direction (key : string) : option string :=
  if (key =? "ArrowLeft")%string then Some "left"%string
  else if (key =? "ArrowRight")%string then Some "right"%string
  else if (key =? "ArrowUp")%string then Some "up"%string
  else if (key =? "ArrowDown")%string then Some "down"%string
  else None.

(** [x < y] on numbers. *)
Definition Qlt_b (x y : Q) : bool := negb (Qle_bool y x).

(** The [touchend] handler: the direction it calls [move] with, if any,
    and the start of the touch it leaves behind.  [start] is [None] when
    [startX] and [startY] hold no number. *)
Definition touchend (start : option (Q * Q)) (endX endY : Q)
    : option string * option (Q * Q) :=
  match start with
  | None => (None, start)
  | Some (startX, startY) =>
      if Qeq_bool startX 0 || Qeq_bool startY 0 then (None, start)
      else
        let diffX := (startX - endX)%Q in
        let diffY := (startY - endY)%Q in
        (if Qlt_b (Qabs diffY) (Qabs diffX)
         then if Qlt_b 50 diffX then Some "left"%string
              else if Qlt_b diffX (-50) then Some "right"%string
              else None
         else if Qlt_b 50 diffY then Some "up"%string
              else if Qlt_b diffY (-50) then Some "down"%string
              else None,
         None)
  end.

(** The [touchstart] handler. *)
Definition touchstart (clientX clientY : Q) : option (Q * Q) := Some (clientX, clientY).

(** The sum of a list of natural numbers. *)
Definition sum_nat (l : list nat) : nat := foldr Nat.add 0%nat l.

(** The mirror image of a grid: every row read backwards. *)
Definition mirror (g : matrix) : matrix := map reverse g.

(** A game one move away from 2048. *)
Definition winning_game : Game2048 := game_of (top_row [1024; 1024; 0; 0]) 0.

(** ** What [move] stores, and the object after a reload

    Line 153 of [move]: [saveGame] is called after the spawn of a move that
    changed the grid, before the status checks of lines 167-177, that is,
    before [hasWon] is set. *)
Definition move_writes (direction : string) (rnd1 rnd2 : Q) (this : Game2048) : list write :=
  if moved (sweep_lines direction this)
  then saveGame (spawned direction rnd1 rnd2 this)
  else [].

(** The fields of the object when the constructor (script.js 6-21) calls
    [loadGame]: the grid of [initGrid], score 0, no snapshot, the auto-save
    setting read from storage, [hasWon] false. *)
Definition constructed_fields (auto : option string) : Game2048 :=
  Game initGrid 0 None (read_autoSave auto) false.

(** An installed value read as the integer, the row or the grid of
    integers that it is, if it is one. *)
Definition integer_of_js (v : js_value) : option Z :=
  match v with
  | JSNumber q => if (Zpos (Qden q) =? 1) then Some (Qnum q) else None
  | _ => None
  end.

Fixpoint integers_of_js (items : list js_value) : option (list Z) :=
  match items with
  | [] => Some []
  | v :: rest =>
      match integer_of_js v, integers_of_js rest with
      | Some z, Some zs => Some (z :: zs)
      | _, _ => None
      end
  end.

Definition row_of_js (v : js_value) : option (list Z) :=
  match v with
  | JSArray items => integers_of_js items
  | _ => None
  end.

Fixpoint rows_of_js (rows : list js_value) : option matrix :=
  match rows with
  | [] => Some []
  | v :: rest =>
      match row_of_js v, rows_of_js rest with
      | Some r, Some rs => Some (r :: rs)
      | _, _ => None
      end
  end.

Definition matrix_of_js (v : js_value) : option matrix :=
  match v with
  | JSArray rows => rows_of_js rows
  | _ => None
  end.

(** The object a call of [loadGame] on [this] leaves, when it ran [newGame]
    or installed a grid of integers, an integer and a boolean. *)
Definition loaded_object (this : Game2048) (o : load_outcome) : option Game2048 :=
  match o with
  | Started this' => Some this'
  | Installed g sc w =>
      match matrix_of_js g, integer_of_js sc, w with
      | Some g', Some sc', JSBool won =>
          Some (Game g' sc' (previousState this) (autoSave this) won)
      | _, _, _ => None
      end
  | Raised _ => None
  end.

(** The game saved by the winning move of [winning_game]: the value handed
    to [JSON.stringify], its JSON text, and the object a reload makes of
    it. *)
Definition won_game_value : js_value :=
  JSObject [("grid"%string,
             js_of_matrix [[2048; 2; 0; 0]; [0; 0; 0; 0]; [0; 0; 0; 0]; [0; 0; 0; 0]]);
            ("score"%string, JSNumber (inject_Z 2048));
            ("hasWon"%string, JSBool false)].

Definition double_quote : string := String (Ascii.ascii_of_nat 34) EmptyString.

Definition won_game_text : string :=
  String.concat double_quote
    ["{"; "grid"; ":[[2048,2,0,0],[0,0,0,0],[0,0,0,0],[0,0,0,0]],";
     "score"; ":2048,"; "hasWon"; ":false}"]%string.

Definition reloaded_game : Game2048 :=
  Game [[2048; 2; 0; 0]; [0; 0; 0; 0]; [0; 0; 0; 0]; [0; 0; 0; 0]] 2048 None true false.

(** * Properties *)

(** ** The four directions on small grids *)

Example move_left_2200 :
  newGrid (sweep_lines "left" (game_of (top_row [2;2;0;0]) 0)) = top_row [4;0;0;0].
Proof. reflexivity. Qed.

Example move_right_0022 :
  sweep_lines "right" (game_of (top_row [0;0;2;2]) 0)
  = Sweep (top_row [4;0;0;0]) true [Cell 0 3] 4.
Proof. reflexivity. Qed.

Example move_down_col :
  newGrid (sweep_lines "down" (game_of [[2;0;0;0];[2;0;0;0];[0;0;0;0];[4;0;0;0]] 0))
  = [[0;0;0;0];[0;0;0;0];[4;0;0;0];[4;0;0;0]].
Proof. reflexivity. Qed.

Example move_up_col :
  sweep_lines "up" (game_of [[2;0;0;0];[2;0;0;0];[0;0;0;0];[4;0;0;0]] 0)
  = Sweep [[4;0;0;0];[4;0;0;0];[0;0;0;0];[0;0;0;0]] true [Cell 0 0] 4.
Proof. reflexivity. Qed.

(** ** Reading lists *)

Lemma at_middle (pre : list Z) (a : Z) (t : list Z) :
  at_ (pre ++ a :: t) (length pre) = a.
Proof. unfold at_. by rewrite list_lookup_middle. Qed.

Lemma at_next (pre : list Z) (a b : Z) (t : list Z) :
  at_ (pre ++ a :: b :: t) (length pre + 1) = b.
Proof.
  unfold at_. rewrite lookup_app_r by lia.
  replace (length pre + 1 - length pre)%nat with 1%nat by lia. reflexivity.
Qed.

(** ** The loop of [slideAndMergeRow] *)

(** Started at index [length pre] on [pre ++ suf], with fuel for the cells
    of [suf], the loop leaves [pre] alone and reduces [suf] as the
    specification's scan does. *)
Lemma merge_loop_scan (fuel : nat) :
  forall (pre suf : list Z) (merged : list nat) (sc : Z),
    (length suf <= fuel)%nat ->
    merge_loop fuel (length pre) (pre ++ suf) merged sc
    = Slid (pre ++ merge_once suf)
           (merged ++ merge_at (length pre) suf)
           (sc + merge_gain suf).
Proof.
  induction fuel as [|fuel IH]; intros pre suf merged sc Hfuel.
  - destruct suf; simpl in Hfuel; [|lia].
    simpl. by rewrite !app_nil_r, Z.add_0_r.
  - destruct suf as [|a [|b t]]; simpl merge_loop.
    + rewrite app_nil_r.
      replace (Z.of_nat (length pre) <? Z.of_nat (length pre) - 1) with false
        by (symmetry; apply Z.ltb_ge; lia).
      simpl. by rewrite !app_nil_r, Z.add_0_r.
    + replace (Z.of_nat (length pre) <? Z.of_nat (length (pre ++ [a])) - 1) with false
        by (symmetry; apply Z.ltb_ge; rewrite length_app; simpl; lia).
      simpl. by rewrite !app_nil_r, Z.add_0_r.
    + replace (Z.of_nat (length pre) <? Z.of_nat (length (pre ++ a :: b :: t)) - 1)
        with true by (symmetry; apply Z.ltb_lt; rewrite length_app; simpl; lia).
      rewrite at_middle, at_next. simpl merge_once. simpl merge_gain. simpl merge_at.
      destruct (a =? b) eqn:Hab.
      * replace (<[length pre := a * 2]> (pre ++ a :: b :: t))
          with (pre ++ a * 2 :: b :: t)
          by (symmetry; replace (length pre) with (length pre + 0)%nat at 1 by lia;
              by rewrite insert_app_r).
        rewrite at_middle.
        replace (delete (length pre + 1)%nat (pre ++ a * 2 :: b :: t))
          with ((pre ++ [a * 2]) ++ t).
        2:{ replace (length pre + 1)%nat with (length (pre ++ [a * 2]))
              by (rewrite length_app; simpl; lia).
            replace (pre ++ a * 2 :: b :: t) with ((pre ++ [a * 2]) ++ b :: t)
              by (by rewrite <- app_assoc).
            by rewrite delete_middle. }
        replace (length pre + 1)%nat with (length (pre ++ [a * 2]))
          by (rewrite length_app; simpl; lia).
        rewrite IH by (simpl in Hfuel; lia).
        rewrite <- !app_assoc. simpl.
        replace (length (pre ++ [a * 2])) with (S (length pre))
          by (rewrite length_app; simpl; lia).
        f_equal; [f_equal; f_equal; lia | lia].
      * replace (length pre + 1)%nat with (length (pre ++ [a]))
          by (rewrite length_app; simpl; lia).
        replace (pre ++ a :: b :: t) with ((pre ++ [a]) ++ b :: t)
          by (by rewrite <- app_assoc).
        rewrite IH by (simpl in Hfuel; simpl; lia).
        rewrite <- !app_assoc. simpl.
        replace (length (pre ++ [a])) with (S (length pre))
          by (rewrite length_app; simpl; lia).
        reflexivity.
Qed.

Lemma pad_loop_pad (fuel : nat) :
  forall l : list Z, (4 - length l <= fuel)%nat -> pad_loop fuel l = pad4 l.
Proof.
  unfold pad4.
  induction fuel as [|fuel IH]; intros l Hfuel; simpl.
  - replace (4 - length l)%nat with 0%nat by lia. simpl. by rewrite app_nil_r.
  - destruct (length l <? 4)%nat eqn:Hlt.
    + apply Nat.ltb_lt in Hlt.
      rewrite IH by (rewrite length_app; simpl; lia).
      rewrite length_app. simpl.
      replace (4 - length l)%nat with (S (4 - (length l + 1))) by lia.
      simpl. by rewrite <- app_assoc.
    + apply Nat.ltb_ge in Hlt.
      replace (4 - length l)%nat with 0%nat by lia. simpl. by rewrite app_nil_r.
Qed.

(** [slideAndMergeRow] computes the specification's reduced line, reports
    the positions of the created cells and adds their values to the score. *)
Lemma slideAndMergeRow_scan (line : list Z) (sc : Z) :
  slideAndMergeRow line sc
  = Slid (slideAndMergeLine line) (merge_at 0 (compact line))
         (sc + merge_gain (compact line)).
Proof.
  unfold slideAndMergeRow, slideAndMergeLine. fold (compact line).
  pose proof (merge_loop_scan (length (compact line)) [] (compact line) [] sc) as H.
  simpl in H. rewrite H by lia. cbn [slid_row slid_merged slid_score].
  by rewrite pad_loop_pad by lia.
Qed.

(** ** The scan, two cells at a time *)

Lemma pair_ind (P : list Z -> Prop) :
  P [] -> (forall a, P [a]) ->
  (forall a b t, P t -> P (b :: t) -> P (a :: b :: t)) ->
  forall l, P l.
Proof.
  intros Hnil Hone Hstep l.
  enough (P l /\ forall a, P (a :: l)) by tauto.
  induction l as [|b t [IHt IHbt]]; split; auto.
Qed.

Lemma length_merge_once (l : list Z) :
  forall i, (length (merge_once l) + length (merge_at i l) = length l)%nat.
Proof.
  induction l as [| a | a b t IHt IHbt] using pair_ind; intros i; try reflexivity.
  simpl merge_once. simpl merge_at. destruct (a =? b).
  - simpl. specialize (IHt (S i)). lia.
  - specialize (IHbt (S i)). simpl length in *. lia.
Qed.

Lemma merge_at_nil_gain (l : list Z) :
  forall i, merge_at i l = [] -> merge_gain l = 0.
Proof.
  induction l as [| a | a b t IHt IHbt] using pair_ind; intros i; try reflexivity.
  simpl merge_at. simpl merge_gain. destruct (a =? b); [discriminate|].
  apply IHbt.
Qed.

Lemma merge_at_shift (l : list Z) :
  forall i j, merge_at i l = [] -> merge_at j l = [].
Proof.
  induction l as [| a | a b t IHt IHbt] using pair_ind; intros i j; try reflexivity.
  simpl merge_at. destruct (a =? b); [discriminate|]. apply IHbt.
Qed.

Lemma merge_once_nonzero (l : list Z) :
  Forall (fun v => v <> 0) l -> Forall (fun v => v <> 0) (merge_once l).
Proof.
  induction l as [| a | a b t IHt IHbt] using pair_ind; intros Hl; auto.
  simpl merge_once.
  apply Forall_cons in Hl as [Ha Hl]. pose proof Hl as Hbt.
  apply Forall_cons in Hl as [Hb Ht].
  destruct (a =? b); constructor; auto; lia.
Qed.

(** ** Compaction *)

Lemma compact_nonzero (line : list Z) : Forall (fun v => v <> 0) (compact line).
Proof.
  unfold compact. apply Forall_forall. intros v Hv.
  apply list_elem_of_In, filter_In in Hv as [_ Hv].
  apply negb_true_iff, Z.eqb_neq in Hv. exact Hv.
Qed.

Lemma compact_id (l : list Z) : Forall (fun v => v <> 0) l -> compact l = l.
Proof.
  induction 1 as [|v l Hv _ IH]; [reflexivity|].
  unfold compact in *. simpl. apply Z.eqb_neq in Hv. rewrite Hv. simpl. by rewrite IH.
Qed.

Lemma compact_app (l k : list Z) : compact (l ++ k) = compact l ++ compact k.
Proof. unfold compact. apply List.filter_app. Qed.

Lemma compact_zeros (n : nat) : compact (replicate n 0) = [].
Proof. induction n; [reflexivity | exact IHn]. Qed.

Lemma compact_pad4 (l : list Z) : Forall (fun v => v <> 0) l -> compact (pad4 l) = l.
Proof.
  intros Hl. unfold pad4.
  by rewrite compact_app, compact_zeros, app_nil_r, compact_id.
Qed.

Lemma compact_slide (line : list Z) :
  compact (slideAndMergeLine line) = merge_once (compact line).
Proof.
  unfold slideAndMergeLine. apply compact_pad4, merge_once_nonzero, compact_nonzero.
Qed.

(** A line that the reduction leaves as it is had no merge. *)
Lemma unchanged_no_merge (line : list Z) :
  slideAndMergeLine line = line ->
  merge_at 0 (compact line) = [] /\ merge_gain (compact line) = 0.
Proof.
  intros Hsame.
  pose proof (compact_slide line) as Hc. rewrite Hsame in Hc.
  pose proof (length_merge_once (compact line) 0) as Hlen. rewrite <- Hc in Hlen.
  assert (Hnil : merge_at 0 (compact line) = []).
  { apply length_zero_iff_nil. lia. }
  split; [exact Hnil | by apply (merge_at_nil_gain _ 0%nat)].
Qed.

(** ** One sweep over the four lines *)

Lemma orb_if (d m : bool) : (if d then true else m) = m || d.
Proof. by destruct d, m. Qed.

Lemma existsb_agree {A : Type} (f g : A -> bool) (l : list A) :
  (forall a, In a l -> f a = g a) -> existsb f l = existsb g l.
Proof.
  induction l as [|a l IH]; intros H; [reflexivity|].
  simpl. rewrite (H a) by (by left). rewrite IH; [reflexivity|].
  intros b Hb. apply H. by right.
Qed.

Lemma flat_map_agree {A B : Type} (f g : A -> list B) (l : list A) :
  (forall a, In a l -> f a = g a) -> flat_map f l = flat_map g l.
Proof.
  induction l as [|a l IH]; intros H; [reflexivity|].
  simpl. rewrite (H a) by (by left). rewrite IH; [reflexivity|].
  intros b Hb. apply H. by right.
Qed.

Section Sweep.
(** A loop body that reduces line [k] of the grid and leaves the other
    lines alone. *)
Variable body : sweep -> nat -> sweep.
Variable line : matrix -> nat -> list Z.

Hypothesis body_score : forall st k,
  sweep_score (body st k)
  = sweep_score st + merge_gain (compact (line (newGrid st) k)).
Hypothesis body_moved : forall st k,
  moved (body st k)
  = moved st || differ (slideAndMergeLine (line (newGrid st) k)) (line (newGrid st) k).
Hypothesis body_frame : forall st k k',
  k <> k' -> line (newGrid (body st k)) k' = line (newGrid st) k'.

(** [place k p] is the grid position reported for a merge at position
    [p] of the reduced line [k]. *)
Variable place : nat -> nat -> cell.
Hypothesis body_merged : forall st k,
  mergedCells (body st k)
  = mergedCells st ++ map (place k) (merge_at 0 (compact (line (newGrid st) k))).

Lemma fold_frame (ks : list nat) :
  forall st k', k' ∉ ks -> line (newGrid (foldl body st ks)) k' = line (newGrid st) k'.
Proof.
  induction ks as [|k ks IH]; intros st k' Hk'; [reflexivity|].
  simpl. apply not_elem_of_cons in Hk' as [Hne Hk'].
  rewrite IH by exact Hk'. apply body_frame. congruence.
Qed.

Lemma fold_score (ks : list nat) :
  NoDup ks -> forall st,
  sweep_score (foldl body st ks)
  = sweep_score st
    + sum_Z (map (fun k => merge_gain (compact (line (newGrid st) k))) ks).
Proof.
  induction 1 as [|k ks Hk Hnd IH]; intros st; simpl; [lia|].
  rewrite IH, body_score.
  assert (Heq : map (fun k0 => merge_gain (compact (line (newGrid (body st k)) k0))) ks
                = map (fun k0 => merge_gain (compact (line (newGrid st) k0))) ks).
  { apply map_ext_in. intros k0 Hk0. rewrite body_frame; [reflexivity|].
    intros ->. apply Hk. by apply list_elem_of_In. }
  rewrite Heq. unfold sum_Z. lia.
Qed.

Lemma fold_moved (ks : list nat) :
  NoDup ks -> forall st,
  moved (foldl body st ks)
  = moved st
    || existsb (fun k => differ (slideAndMergeLine (line (newGrid st) k))
                                (line (newGrid st) k)) ks.
Proof.
  induction 1 as [|k ks Hk Hnd IH]; intros st; simpl; [by rewrite orb_false_r|].
  rewrite IH, body_moved, <- orb_assoc. f_equal. f_equal.
  apply existsb_agree.
  intros k0 Hk0. rewrite body_frame; [reflexivity|].
  intros ->. apply Hk. by apply list_elem_of_In.
Qed.

Lemma fold_merged (ks : list nat) :
  NoDup ks -> forall st,
  mergedCells (foldl body st ks)
  = mergedCells st
    ++ flat_map (fun k => map (place k) (merge_at 0 (compact (line (newGrid st) k)))) ks.
Proof.
  induction 1 as [|k ks Hk Hnd IH]; intros st; simpl; [by rewrite app_nil_r|].
  rewrite IH, body_merged, <- app_assoc. f_equal. f_equal.
  apply flat_map_agree. intros k0 Hk0. rewrite body_frame; [reflexivity|].
  intros ->. apply Hk. by apply list_elem_of_In.
Qed.

(** A sweep that reports no merged cell leaves the score as it was. *)
Lemma fold_no_merge (ks : list nat) (st : sweep) :
  NoDup ks -> mergedCells st = [] -> mergedCells (foldl body st ks) = [] ->
  sweep_score (foldl body st ks) = sweep_score st.
Proof.
  intros Hnd Hst Hnone. rewrite fold_score by exact Hnd.
  rewrite fold_merged, Hst in Hnone by exact Hnd. simpl in Hnone.
  enough (sum_Z (map (fun k => merge_gain (compact (line (newGrid st) k))) ks) = 0) by lia.
  clear Hnd. induction ks as [|k ks IH]; [reflexivity|].
  simpl in Hnone. apply app_eq_nil in Hnone as [Hk Hks].
  simpl. rewrite (IH Hks).
  apply map_eq_nil in Hk. apply merge_at_nil_gain in Hk. lia.
Qed.

(** When the sweep reports no move, no line had a merge and the score is
    the one the sweep started with. *)
Lemma fold_still (ks : list nat) (st : sweep) :
  NoDup ks -> moved (foldl body st ks) = false ->
  sweep_score (foldl body st ks) = sweep_score st.
Proof.
  intros Hnd Hstill. rewrite fold_score by exact Hnd.
  rewrite fold_moved in Hstill by exact Hnd.
  apply orb_false_iff in Hstill as [_ Hstill].
  enough (sum_Z (map (fun k => merge_gain (compact (line (newGrid st) k))) ks) = 0) by lia.
  clear Hnd. induction ks as [|k ks IH]; [reflexivity|].
  simpl in Hstill. apply orb_false_iff in Hstill as [Hk Hks].
  simpl. rewrite (IH Hks).
  unfold differ in Hk. apply negb_false_iff, bool_decide_eq_true in Hk.
  apply unchanged_no_merge in Hk as [_ Hk]. lia.
Qed.
End Sweep.

(** ** Reading and writing the grid *)

Lemma row_at_insert_ne (g : matrix) (i k : nat) (r : list Z) :
  i <> k -> row_at (<[i := r]> g) k = row_at g k.
Proof. intros Hne. unfold row_at. by rewrite list_lookup_insert_ne. Qed.

Lemma row_at_insert_eq (g : matrix) (i : nat) (r : list Z) :
  (i < length g)%nat -> row_at (<[i := r]> g) i = r.
Proof. intros Hlt. unfold row_at. by rewrite list_lookup_insert_eq. Qed.

Lemma cell_at_set_cell_col (g : matrix) (i j i' j' : nat) (v : Z) :
  j <> j' -> cell_at (set_cell g i j v) i' j' = cell_at g i' j'.
Proof.
  intros Hne. unfold cell_at, set_cell.
  destruct (decide (i = i')) as [<-|Hi]; [|by rewrite row_at_insert_ne].
  destruct (decide (i < length g)%nat) as [Hlt|Hge].
  - rewrite row_at_insert_eq by exact Hlt. unfold at_.
    by rewrite list_lookup_insert_ne.
  - by rewrite list_insert_ge by lia.
Qed.

Lemma cell_at_fold_col (f : nat -> nat) (v : nat -> Z) (j i' j' : nat) (ks : list nat) :
  j <> j' -> forall g,
  cell_at (foldl (fun g' i => set_cell g' (f i) j (v i)) g ks) i' j' = cell_at g i' j'.
Proof.
  intros Hne. induction ks as [|k ks IH]; intros g; [reflexivity|].
  simpl. rewrite IH. by apply cell_at_set_cell_col.
Qed.

Lemma column_at_fold_col (f : nat -> nat) (v : nat -> Z) (j j' : nat) (ks : list nat)
    (g : matrix) :
  j <> j' ->
  column_at (foldl (fun g' i => set_cell g' (f i) j (v i)) g ks) j' = column_at g j'.
Proof. intros Hne. unfold column_at. by rewrite !cell_at_fold_col. Qed.

Lemma list4_eta (l : list Z) :
  length l = 4%nat -> [at_ l 0; at_ l 1; at_ l 2; at_ l 3] = l.
Proof. intros Hl. by destruct l as [|a [|b [|c [|d [|e l]]]]]. Qed.

Lemma length_compact (l : list Z) : (length (compact l) <= length l)%nat.
Proof. unfold compact. apply List.filter_length_le. Qed.

Lemma length_slide (l : list Z) :
  (length l <= 4)%nat -> length (slideAndMergeLine l) = 4%nat.
Proof.
  intros Hl. unfold slideAndMergeLine, pad4.
  pose proof (length_merge_once (compact l) 0) as H1.
  pose proof (length_compact l) as H2.
  rewrite length_app, length_replicate. lia.
Qed.

Lemma length_column_at (g : matrix) (j : nat) : length (column_at g j) = 4%nat.
Proof. reflexivity. Qed.

Lemma differ_reverse (a b : list Z) : differ (reverse a) b = differ a (reverse b).
Proof.
  unfold differ. f_equal. apply bool_decide_ext. split; intros H.
  - by rewrite <- H, reverse_involutive.
  - by rewrite H, reverse_involutive.
Qed.

(** ** The four loop bodies *)

Lemma left_body_score st k :
  sweep_score (left_body st k)
  = sweep_score st + merge_gain (compact (row_at (newGrid st) k)).
Proof. unfold left_body. by rewrite slideAndMergeRow_scan. Qed.

Lemma left_body_moved st k :
  moved (left_body st k)
  = moved st || differ (slideAndMergeLine (row_at (newGrid st) k)) (row_at (newGrid st) k).
Proof. unfold left_body. rewrite slideAndMergeRow_scan. simpl. apply orb_if. Qed.

Lemma left_body_frame st k k' :
  k <> k' -> row_at (newGrid (left_body st k)) k' = row_at (newGrid st) k'.
Proof. intros Hne. unfold left_body. simpl. by apply row_at_insert_ne. Qed.

Lemma right_body_score st k :
  sweep_score (right_body st k)
  = sweep_score st + merge_gain (compact (reverse (row_at (newGrid st) k))).
Proof. unfold right_body. by rewrite slideAndMergeRow_scan. Qed.

Lemma right_body_moved st k :
  moved (right_body st k)
  = moved st || differ (slideAndMergeLine (reverse (row_at (newGrid st) k)))
                       (reverse (row_at (newGrid st) k)).
Proof.
  unfold right_body. rewrite slideAndMergeRow_scan. simpl.
  rewrite orb_if. by rewrite differ_reverse.
Qed.

Lemma right_body_frame st k k' :
  k <> k' ->
  reverse (row_at (newGrid (right_body st k)) k') = reverse (row_at (newGrid st) k').
Proof. intros Hne. unfold right_body. simpl. by rewrite row_at_insert_ne. Qed.

Lemma up_body_score st k :
  sweep_score (up_body st k)
  = sweep_score st + merge_gain (compact (column_at (newGrid st) k)).
Proof. unfold up_body. by rewrite slideAndMergeRow_scan. Qed.

Lemma up_body_moved st k :
  moved (up_body st k)
  = moved st || differ (slideAndMergeLine (column_at (newGrid st) k))
                       (column_at (newGrid st) k).
Proof.
  unfold up_body. fold (column_at (newGrid st) k).
  rewrite slideAndMergeRow_scan. cbn [slid_row moved].
  rewrite list4_eta by (by apply length_slide). apply orb_if.
Qed.

Lemma up_body_frame st k k' :
  k <> k' -> column_at (newGrid (up_body st k)) k' = column_at (newGrid st) k'.
Proof.
  intros Hne. unfold up_body. cbn [newGrid].
  by apply (column_at_fold_col (fun i => i)).
Qed.

Lemma down_body_score st k :
  sweep_score (down_body st k)
  = sweep_score st + merge_gain (compact (reverse (column_at (newGrid st) k))).
Proof. unfold down_body. by rewrite slideAndMergeRow_scan. Qed.

Lemma down_body_moved st k :
  moved (down_body st k)
  = moved st || differ (slideAndMergeLine (reverse (column_at (newGrid st) k)))
                       (reverse (column_at (newGrid st) k)).
Proof.
  unfold down_body. fold (column_at (newGrid st) k).
  change [cell_at (newGrid st) 3 k; cell_at (newGrid st) 2 k;
          cell_at (newGrid st) 1 k; cell_at (newGrid st) 0 k]
    with (reverse (column_at (newGrid st) k)).
  rewrite slideAndMergeRow_scan. cbn [slid_row moved].
  rewrite orb_if. f_equal.
  set (rr := slideAndMergeLine (reverse (column_at (newGrid st) k))).
  assert (Hrr : length rr = 4%nat) by (by apply length_slide).
  change [at_ rr 3; at_ rr 2; at_ rr 1; at_ rr 0]
    with (reverse [at_ rr 0; at_ rr 1; at_ rr 2; at_ rr 3]).
  rewrite list4_eta by exact Hrr. apply differ_reverse.
Qed.

Lemma down_body_frame st k k' :
  k <> k' ->
  reverse (column_at (newGrid (down_body st k)) k') = reverse (column_at (newGrid st) k').
Proof.
  intros Hne. unfold down_body. cbn [newGrid]. f_equal.
  by apply (column_at_fold_col (fun i => (3 - i)%nat)).
Qed.

Lemma left_body_merged st k :
  mergedCells (left_body st k)
  = mergedCells st ++ map (fun p => Cell k p) (merge_at 0 (compact (row_at (newGrid st) k))).
Proof. unfold left_body. by rewrite slideAndMergeRow_scan. Qed.

Lemma right_body_merged st k :
  mergedCells (right_body st k)
  = mergedCells st
    ++ map (fun p => Cell k (3 - p)) (merge_at 0 (compact (reverse (row_at (newGrid st) k)))).
Proof. unfold right_body. by rewrite slideAndMergeRow_scan. Qed.

Lemma up_body_merged st k :
  mergedCells (up_body st k)
  = mergedCells st ++ map (fun p => Cell p k) (merge_at 0 (compact (column_at (newGrid st) k))).
Proof. unfold up_body. by rewrite slideAndMergeRow_scan. Qed.

Lemma down_body_merged st k :
  mergedCells (down_body st k)
  = mergedCells st
    ++ map (fun p => Cell (3 - p) k)
           (merge_at 0 (compact (reverse (column_at (newGrid st) k)))).
Proof. unfold down_body. by rewrite slideAndMergeRow_scan. Qed.

(** ** The sweep of [move] *)

Lemma NoDup_idx4 : NoDup idx4.
Proof. apply NoDup_seq. Qed.

(** The sweep adds to the score the doubled values of its merges. *)
Lemma sweep_score_gain (direction : string) (this : Game2048) :
  sweep_score (sweep_lines direction this)
  = score this + move_gain direction (grid this).
Proof.
  unfold sweep_lines, move_gain, lines_toward.
  destruct (direction =? "left")%string.
  { rewrite (fold_score left_body row_at left_body_score left_body_frame)
      by apply NoDup_idx4.
    by rewrite map_map. }
  destruct (direction =? "right")%string.
  { rewrite (fold_score right_body (fun g k => reverse (row_at g k))
               right_body_score right_body_frame) by apply NoDup_idx4.
    by rewrite map_map. }
  destruct (direction =? "up")%string.
  { rewrite (fold_score up_body column_at up_body_score up_body_frame)
      by apply NoDup_idx4.
    by rewrite map_map. }
  destruct (direction =? "down")%string.
  { rewrite (fold_score down_body (fun g k => reverse (column_at g k))
               down_body_score down_body_frame) by apply NoDup_idx4.
    by rewrite map_map. }
  simpl. lia.
Qed.

(** A sweep that reports no move leaves the score as it was. *)
Lemma sweep_still (direction : string) (this : Game2048) :
  moved (sweep_lines direction this) = false ->
  sweep_score (sweep_lines direction this) = score this.
Proof.
  unfold sweep_lines.
  destruct (direction =? "left")%string.
  { apply (fold_still left_body row_at left_body_score left_body_moved left_body_frame),
      NoDup_idx4. }
  destruct (direction =? "right")%string.
  { apply (fold_still right_body (fun g k => reverse (row_at g k))
             right_body_score right_body_moved right_body_frame), NoDup_idx4. }
  destruct (direction =? "up")%string.
  { apply (fold_still up_body column_at up_body_score up_body_moved up_body_frame),
      NoDup_idx4. }
  destruct (direction =? "down")%string.
  { apply (fold_still down_body (fun g k => reverse (column_at g k))
             down_body_score down_body_moved down_body_frame), NoDup_idx4. }
  reflexivity.
Qed.

(** A sweep that reports no merged cell leaves the score as it was. *)
Lemma sweep_no_merge (direction : string) (this : Game2048) :
  mergedCells (sweep_lines direction this) = [] ->
  sweep_score (sweep_lines direction this) = score this.
Proof.
  unfold sweep_lines.
  destruct (direction =? "left")%string.
  { apply (fold_no_merge left_body row_at left_body_score left_body_frame
             (fun k p => Cell k p) left_body_merged); [apply NoDup_idx4 | reflexivity]. }
  destruct (direction =? "right")%string.
  { apply (fold_no_merge right_body (fun g k => reverse (row_at g k))
             right_body_score right_body_frame
             (fun k p => Cell k (3 - p)) right_body_merged);
      [apply NoDup_idx4 | reflexivity]. }
  destruct (direction =? "up")%string.
  { apply (fold_no_merge up_body column_at up_body_score up_body_frame
             (fun k p => Cell p k) up_body_merged); [apply NoDup_idx4 | reflexivity]. }
  destruct (direction =? "down")%string.
  { apply (fold_no_merge down_body (fun g k => reverse (column_at g k))
             down_body_score down_body_frame
             (fun k p => Cell (3 - p) k) down_body_merged);
      [apply NoDup_idx4 | reflexivity]. }
  reflexivity.
Qed.

Lemma existsb_map_compose {A B : Type} (f : B -> bool) (g : A -> B) (l : list A) :
  existsb f (map g l) = existsb (fun a => f (g a)) l.
Proof. induction l as [|a l IH]; [reflexivity|]. simpl. by rewrite IH. Qed.

(** The sweep reports a move exactly when the reduction changes one of the
    four lines. *)
Lemma sweep_moved_lines (direction : string) (this : Game2048) :
  moved (sweep_lines direction this)
  = existsb (fun line => differ (slideAndMergeLine line) line)
            (lines_toward direction (grid this)).
Proof.
  unfold sweep_lines, lines_toward.
  destruct (direction =? "left")%string.
  { rewrite (fold_moved left_body row_at left_body_moved left_body_frame)
      by apply NoDup_idx4.
    by rewrite existsb_map_compose. }
  destruct (direction =? "right")%string.
  { rewrite (fold_moved right_body (fun g k => reverse (row_at g k))
               right_body_moved right_body_frame) by apply NoDup_idx4.
    by rewrite existsb_map_compose. }
  destruct (direction =? "up")%string.
  { rewrite (fold_moved up_body column_at up_body_moved up_body_frame)
      by apply NoDup_idx4.
    by rewrite existsb_map_compose. }
  destruct (direction =? "down")%string.
  { rewrite (fold_moved down_body (fun g k => reverse (column_at g k))
               down_body_moved down_body_frame) by apply NoDup_idx4.
    by rewrite existsb_map_compose. }
  reflexivity.
Qed.

Lemma sweep_still_lines (direction : string) (this : Game2048) :
  moved (sweep_lines direction this) = false ->
  Forall (fun line => slideAndMergeLine line = line) (lines_toward direction (grid this)).
Proof.
  rewrite sweep_moved_lines. intros Hnone. apply Forall_forall. intros line Hline.
  destruct (differ (slideAndMergeLine line) line) eqn:Hd.
  - assert (Hex : existsb (fun l => differ (slideAndMergeLine l) l)
                         (lines_toward direction (grid this)) = true).
    { apply existsb_exists. exists line. split; [by apply list_elem_of_In | exact Hd]. }
    congruence.
  - unfold differ in Hd. by apply negb_false_iff, bool_decide_eq_true in Hd.
Qed.

(** ** Spawning *)

(** For a draw of [Math.random()] the index computed at line 88 is an index
    of the array it is used on. *)
Lemma random_index_in_range (rnd : Q) (n : nat) :
  unit_draw rnd -> (0 < n)%nat ->
  0 <= random_index rnd n < Z.of_nat n.
Proof.
  intros [Hlo Hhi] Hn. unfold random_index.
  assert (Hn' : (0 < inject_Z (Z.of_nat n))%Q)
    by (rewrite <- (Zlt_Qlt 0); lia).
  split.
  - change 0 with (Qfloor 0). apply Qfloor_resp_le.
    apply Qmult_le_0_compat; [exact Hlo | by apply Qlt_le_weak].
  - apply Z.lt_nge. intros Hge. rewrite Zle_Qle in Hge.
    pose proof (Qfloor_le (rnd * inject_Z (Z.of_nat n))) as Hfl.
    assert (Hlt : (rnd * inject_Z (Z.of_nat n) < inject_Z (Z.of_nat n))%Q).
    { rewrite <- (Qmult_1_l (inject_Z (Z.of_nat n))) at 2.
      by apply Qmult_lt_compat_r. }
    apply (Qlt_irrefl (inject_Z (Z.of_nat n))).
    eapply Qle_lt_trans; [exact Hge|]. eapply Qle_lt_trans; [exact Hfl | exact Hlt].
Qed.

(** With such a draw and an empty cell on the grid, [addRandomTile] writes
    2 or 4 into one of the empty cells. *)
Lemma addRandomTile_spawns (rnd1 rnd2 : Q) (this : Game2048) :
  unit_draw rnd1 -> emptyCells (grid this) <> [] ->
  exists c, c ∈ emptyCells (grid this)
    /\ grid (addRandomTile rnd1 rnd2 this)
       = set_cell (grid this) (row c) (col c) (random_value rnd2).
Proof.
  intros Hdraw Hcells. unfold addRandomTile.
  assert (Hlen : (0 < length (emptyCells (grid this)))%nat).
  { destruct (emptyCells (grid this)); [done | simpl; lia]. }
  pose proof (random_index_in_range rnd1 _ Hdraw Hlen) as [Hlo Hhi].
  apply Nat.ltb_lt in Hlen as Hlen'. rewrite Hlen'.
  apply Z.ltb_ge in Hlo as Hlo'. rewrite Hlo'.
  destruct (lookup_lt_is_Some_2 (emptyCells (grid this))
              (Z.to_nat (random_index rnd1 (length (emptyCells (grid this))))))
    as [c Hc]; [lia|].
  rewrite Hc. exists c. split; [|reflexivity].
  apply list_elem_of_lookup. eauto.
Qed.

(** ** What [move] leaves behind *)

Lemma addRandomTile_fields (rnd1 rnd2 : Q) (this : Game2048) :
  score (addRandomTile rnd1 rnd2 this) = score this
  /\ previousState (addRandomTile rnd1 rnd2 this) = previousState this
  /\ hasWon (addRandomTile rnd1 rnd2 this) = hasWon this
  /\ autoSave (addRandomTile rnd1 rnd2 this) = autoSave this.
Proof.
  unfold addRandomTile.
  destruct (0 <? length (emptyCells (grid this)))%nat; [|done].
  destruct (random_index rnd1 (length (emptyCells (grid this))) <? 0); [done|].
  by destruct (emptyCells (grid this) !! _).
Qed.

Lemma move_score (direction : string) (rnd1 rnd2 : Q) (this : Game2048) :
  score (after (move direction rnd1 rnd2 this))
  = sweep_score (sweep_lines direction this).
Proof.
  unfold move. change (sweep_lines direction (saveState this))
    with (sweep_lines direction this).
  destruct (moved (sweep_lines direction this)); [|reflexivity].
  match goal with |- context [addRandomTile rnd1 rnd2 ?t] =>
    pose proof (addRandomTile_fields rnd1 rnd2 t) as (Hs & _); set (t4 := addRandomTile rnd1 rnd2 t) in *
  end.
  destruct (checkWin t4 && negb (hasWon t4)); [exact Hs|].
  destruct (isGameOver t4); exact Hs.
Qed.

Lemma move_didMove (direction : string) (rnd1 rnd2 : Q) (this : Game2048) :
  didMove (move direction rnd1 rnd2 this) = moved (sweep_lines direction this).
Proof.
  unfold move. change (sweep_lines direction (saveState this))
    with (sweep_lines direction this).
  destruct (moved (sweep_lines direction this)); [|reflexivity].
  repeat match goal with |- context [if ?c then _ else _] => destruct c end; reflexivity.
Qed.

Lemma move_mergedPositions (direction : string) (rnd1 rnd2 : Q) (this : Game2048) :
  mergedPositions (move direction rnd1 rnd2 this)
  = mergedCells (sweep_lines direction this).
Proof.
  unfold move. change (sweep_lines direction (saveState this))
    with (sweep_lines direction this).
  repeat match goal with |- context [if ?c then _ else _] => destruct c end; reflexivity.
Qed.

Lemma move_previousState (direction : string) (rnd1 rnd2 : Q) (this : Game2048) :
  previousState (after (move direction rnd1 rnd2 this))
  = Some (Snapshot (grid this) (score this)).
Proof.
  unfold move. change (sweep_lines direction (saveState this))
    with (sweep_lines direction this).
  destruct (moved (sweep_lines direction this)); [|reflexivity].
  match goal with |- context [addRandomTile rnd1 rnd2 ?t] =>
    pose proof (addRandomTile_fields rnd1 rnd2 t) as (_ & Hp & _); set (t4 := addRandomTile rnd1 rnd2 t) in *
  end.
  destruct (checkWin t4 && negb (hasWon t4)); [exact Hp|].
  destruct (isGameOver t4); exact Hp.
Qed.

(** A move that reports no change returns the object as [saveState] left
    it, and schedules no overlay. *)
Lemma move_still (direction : string) (rnd1 rnd2 : Q) (this : Game2048) :
  didMove (move direction rnd1 rnd2 this) = false ->
  after (move direction rnd1 rnd2 this) = saveState this
  /\ shown (move direction rnd1 rnd2 this) = None.
Proof.
  intros Hstill. rewrite move_didMove in Hstill.
  pose proof (sweep_still direction this Hstill) as Hsc.
  unfold move. change (sweep_lines direction (saveState this))
    with (sweep_lines direction this).
  rewrite Hstill. cbn [after shown]. rewrite Hsc. by split.
Qed.

(** * The single pass of the line reduction *)

Lemma merge_once_pair (a b : Z) (t : list Z) :
  merge_once (a :: b :: t)
  = if a =? b then 2 * a :: merge_once t else a :: merge_once (b :: t).
Proof. reflexivity. Qed.

Lemma merge_once_groups (l : list Z) :
  exists groups : list (list Z),
    concat groups = l /\ Forall tile_group groups /\ merge_once l = map sum_Z groups.
Proof.
  induction l as [| a | a b t IHt IHbt] using pair_ind.
  - exists []. by repeat split.
  - exists [[a]]. repeat split; [|simpl; f_equal; lia].
    constructor; [|constructor]. exists a. by left.
  - rewrite merge_once_pair. destruct (a =? b) eqn:Hab.
    + apply Z.eqb_eq in Hab as <-.
      destruct IHt as (groups & Hcat & Hall & Hmap).
      exists ([a; a] :: groups). rewrite Hmap. repeat split.
      * simpl. by rewrite Hcat.
      * constructor; [|exact Hall]. exists a. by right.
      * simpl. f_equal. lia.
    + destruct IHbt as (groups & Hcat & Hall & Hmap).
      exists ([a] :: groups). rewrite Hmap. repeat split.
      * simpl. by rewrite Hcat.
      * constructor; [|exact Hall]. exists a. by left.
      * simpl. f_equal. lia.
Qed.

(** C4.  Merging within a line is a single pass without cascade: the row
    that [slideAndMergeRow] returns is the compacted line, scanned once from
    index 0 with the scan resuming after each merged pair, and padded with
    zeros; each of its cells before the padding is one tile of the
    compacted line or the sum of two equal neighbouring tiles, the tiles
    being used in order and once each, so that a doubled cell is never
    merged again.  The line [2,2,2,2] becomes [4,4,0,0], not [8,0,0,0]. *)
Theorem slideAndMergeRow_single_pass (line : list Z) (sc : Z) :
  slid_row (slideAndMergeRow line sc) = slideAndMergeLine line
  /\ (exists groups : list (list Z),
        concat groups = compact line
        /\ Forall tile_group groups
        /\ slid_row (slideAndMergeRow line sc) = pad4 (map sum_Z groups))
  /\ slid_row (slideAndMergeRow [2; 2; 2; 2] sc) = [4; 4; 0; 0]
  /\ slid_row (slideAndMergeRow [2; 2; 2; 2] sc) <> [8; 0; 0; 0].
Proof.
  rewrite slideAndMergeRow_scan. cbn [slid_row]. split; [reflexivity|]. split.
  - destruct (merge_once_groups (compact line)) as (groups & Hcat & Hall & Hmap).
    exists groups. unfold slideAndMergeLine. by rewrite Hmap.
  - rewrite slideAndMergeRow_scan. cbn [slid_row]. by split.
Qed.

(** * Score *)

(** C5.  A move adds to the score exactly the sum of the doubled values
    that the merges of its four lines create; a move that reports no merged
    cell leaves the score as it was; a move merging one pair into 4 and one
    pair into 8 adds 12. *)
Theorem move_adds_merged_values (direction : string) (rnd1 rnd2 : Q) (this : Game2048) :
  score (after (move direction rnd1 rnd2 this))
    = score this + move_gain direction (grid this)
  /\ (mergedPositions (move direction rnd1 rnd2 this) = [] ->
      score (after (move direction rnd1 rnd2 this)) = score this)
  /\ score (after (move "left" rnd1 rnd2
                     (Game (top_row [2; 2; 4; 4]) (score this) (previousState this)
                           (autoSave this) (hasWon this))))
     = score this + 12.
Proof.
  split; [|split].
  - rewrite move_score. apply sweep_score_gain.
  - intros Hnone. rewrite move_mergedPositions in Hnone.
    rewrite move_score. by apply sweep_no_merge.
  - rewrite move_score, sweep_score_gain. cbn [score grid].
    replace (move_gain "left" (top_row [2; 2; 4; 4])) with 12 by reflexivity.
    reflexivity.
Qed.

(** * Moves that change nothing *)

(** C2, as the code has it.  When a move reports no change ([moved] stays
    false) the reduction has changed none of the four lines, and no tile
    is spawned: the grid, the score and the won flag are unchanged, hence
    also the two status checks, and no overlay is scheduled.  The snapshot
    taken at the start of the move is kept: it holds the unchanged grid and
    score, so a following undo finds it, restores that same grid and score,
    and clears it. *)
Theorem still_move_keeps_state (direction : string) (rnd1 rnd2 : Q) (this : Game2048) :
  didMove (move direction rnd1 rnd2 this) = false ->
  let this' := after (move direction rnd1 rnd2 this) in
  Forall (fun line => slideAndMergeLine line = line) (lines_toward direction (grid this))
  /\ grid this' = grid this
  /\ score this' = score this
  /\ hasWon this' = hasWon this
  /\ checkWin this' = checkWin this
  /\ isGameOver this' = isGameOver this
  /\ shown (move direction rnd1 rnd2 this) = None
  /\ previousState this' = Some (Snapshot (grid this) (score this))
  /\ grid (undo this') = grid this
  /\ score (undo this') = score this
  /\ previousState (undo this') = None.
Proof.
  intros Hstill this'. subst this'.
  split; [apply sweep_still_lines; by rewrite <- (move_didMove direction rnd1 rnd2)|].
  destruct (move_still direction rnd1 rnd2 this Hstill) as [-> ->].
  by repeat split.
Qed.

Lemma still_move_keeps_state_witness :
  didMove (move "left" 0 0 resting_game) = false
  /\ previousState (after (move "left" 0 0 resting_game))
     = Some (Snapshot (grid resting_game) (score resting_game)).
Proof.
  split; [reflexivity|].
  apply (still_move_keeps_state "left" 0 0 resting_game). reflexivity.
Defined.

(** C2, as the specification words it, fails: after a move to the left
    that changes nothing, the snapshot has not been discarded. *)
Lemma still_move_snapshot_not_discarded :
  grid (after (move "left" 0 0 resting_game)) = grid resting_game
  /\ didMove (move "left" 0 0 resting_game) = false
  /\ previousState (after (move "left" 0 0 resting_game)) <> None.
Proof. by repeat split. Qed.

(** * Undo *)

(** C6.  After any move, [undo] restores the grid and the score to their
    values just before that move and clears the snapshot.  In every state,
    when a snapshot exists [undo] installs its grid and score and clears
    it; a second [undo] in a row changes nothing; and when no snapshot
    exists [undo] changes nothing. *)
Theorem undo_restores (direction : string) (rnd1 rnd2 : Q) (this : Game2048) :
  (grid (undo (after (move direction rnd1 rnd2 this))) = grid this
   /\ score (undo (after (move direction rnd1 rnd2 this))) = score this
   /\ previousState (undo (after (move direction rnd1 rnd2 this))) = None)
  /\ (forall prev, previousState this = Some prev ->
        grid (undo this) = snap_grid prev
        /\ score (undo this) = snap_score prev
        /\ previousState (undo this) = None)
  /\ undo (undo this) = undo this
  /\ (previousState this = None -> undo this = this).
Proof.
  split; [|split; [|split]].
  - unfold undo at 1 2 3. rewrite move_previousState. by repeat split.
  - intros prev Hprev. unfold undo. rewrite Hprev. by repeat split.
  - unfold undo at 2 3. destruct (previousState this) eqn:Hp.
    + reflexivity.
    + unfold undo. by rewrite Hp.
  - intros Hp. unfold undo. by rewrite Hp.
Qed.

(** * Moving right *)

(** C1, on the code.  In the loop of the right branch the row is reversed
    and reduced, the reduced row is reversed in place for the comparison
    of line 117, and reversed in place once more by line 120, which stores
    it: what is stored is the reduced row not reversed back, while the
    comparison and the reported merge columns are those of the mirror
    image.  For the grid whose first row is [0,0,2,2] the loop reports the
    merge at column 3 and stores the row [4,0,0,0], packed against the left
    edge, not [0,0,0,4]; for the row [2,0,0,0] it reports a change and
    stores the row as it was.  The left branch stores the reduced row, and
    [2,2,0,0] moved left gives [4,0,0,0]. *)
Theorem move_right_packs_left (st : sweep) (i : nat) :
  newGrid (right_body st i)
    = <[i := slideAndMergeLine (reverse (row_at (newGrid st) i))]> (newGrid st)
  /\ moved (right_body st i)
     = moved st || differ (reverse (slideAndMergeLine (reverse (row_at (newGrid st) i))))
                          (row_at (newGrid st) i)
  /\ newGrid (left_body st i)
     = <[i := slideAndMergeLine (row_at (newGrid st) i)]> (newGrid st)
  /\ sweep_lines "right" (game_of (top_row [0; 0; 2; 2]) 0)
     = Sweep (top_row [4; 0; 0; 0]) true [Cell 0 3] 4
  /\ row_at (newGrid (sweep_lines "right" (game_of (top_row [0; 0; 2; 2]) 0))) 0
     <> [0; 0; 0; 4]
  /\ grid (after (move "right" (1 # 2) 0 (game_of (top_row [0; 0; 2; 2]) 0)))
     = [[4; 0; 0; 0]; [0; 0; 0; 0]; [2; 0; 0; 0]; [0; 0; 0; 0]]
  /\ sweep_lines "right" (game_of (top_row [2; 0; 0; 0]) 0)
     = Sweep (top_row [2; 0; 0; 0]) true [] 0
  /\ sweep_lines "left" (game_of (top_row [2; 2; 0; 0]) 0)
     = Sweep (top_row [4; 0; 0; 0]) true [Cell 0 0] 4.
Proof.
  split; [|split; [|split; [|by repeat split]]].
  - unfold right_body. rewrite slideAndMergeRow_scan. cbn [newGrid slid_row].
    by rewrite reverse_involutive.
  - unfold right_body. rewrite slideAndMergeRow_scan. cbn [moved slid_row].
    apply orb_if.
  - unfold left_body. by rewrite slideAndMergeRow_scan.
Qed.

(** * The end of the game *)

Lemma existsb_idx4 (f : nat -> bool) :
  existsb f idx4 = true <-> exists i, (i < 4)%nat /\ f i = true.
Proof.
  rewrite existsb_exists. unfold idx4. split; intros (i & Hi & Hf); exists i.
  - apply in_seq in Hi. split; [lia | exact Hf].
  - split; [apply in_seq; lia | exact Hf].
Qed.

Lemma existsb_grid (f : nat -> nat -> bool) :
  existsb (fun i => existsb (fun j => f i j) idx4) idx4 = true
  <-> exists i j, in_grid i j /\ f i j = true.
Proof.
  rewrite existsb_idx4. unfold in_grid. split.
  - intros (i & Hi & Hrow). apply existsb_idx4 in Hrow as (j & Hj & Hf). by exists i, j.
  - intros (i & j & [Hi Hj] & Hf). exists i. split; [exact Hi|].
    apply existsb_idx4. by exists j.
Qed.

Lemma empty_scan (g : matrix) :
  existsb (fun i => existsb (fun j => cell_at g i j =? 0) idx4) idx4 = true
  <-> has_empty g.
Proof.
  rewrite (existsb_grid (fun i j => cell_at g i j =? 0)). unfold has_empty.
  split; intros (i & j & Hin & H); exists i, j; (split; [exact Hin|]).
  - by apply Z.eqb_eq.
  - by apply Z.eqb_eq.
Qed.

Lemma pair_scan (g : matrix) :
  existsb (fun i => existsb (fun j =>
      let current := cell_at g i j in
      ((i <? 3)%nat && (cell_at g (i + 1) j =? current))
      || ((j <? 3)%nat && (cell_at g i (j + 1) =? current))) idx4) idx4 = true
  <-> has_equal_right_or_below g.
Proof.
  rewrite (existsb_grid (fun i j =>
      ((i <? 3)%nat && (cell_at g (i + 1) j =? cell_at g i j))
      || ((j <? 3)%nat && (cell_at g i (j + 1) =? cell_at g i j)))).
  unfold has_equal_right_or_below.
  split; intros (i & j & Hin & H); exists i, j; (split; [exact Hin|]).
  - apply orb_true_iff in H as [H|H]; apply andb_true_iff in H as [Hlt Heq];
      apply Nat.ltb_lt in Hlt; apply Z.eqb_eq in Heq; auto.
  - apply orb_true_iff. destruct H as [[Hlt Heq]|[Hlt Heq]]; [left|right];
      apply andb_true_iff; split; try (by apply Nat.ltb_lt); by apply Z.eqb_eq.
Qed.

(** Looking right and below from every cell finds every pair of equal
    neighbours. *)
Lemma right_or_below_covers (g : matrix) :
  has_equal_right_or_below g <-> has_equal_neighbours g.
Proof.
  unfold has_equal_right_or_below, has_equal_neighbours, neighbours, in_grid. split.
  - intros (i & j & [Hi Hj] & [[Hlt Heq]|[Hlt Heq]]).
    + exists i, j, (i + 1)%nat, j. repeat split; lia.
    + exists i, j, i, (j + 1)%nat. repeat split; lia.
  - intros (i & j & i' & j' & [Hi Hj] & [Hi' Hj'] & Hn & Heq).
    destruct Hn as [[-> [-> | ->]] | [-> [-> | ->]]].
    + exists i', j. split; [lia|]. right. split; [lia|].
      by replace (j + 1)%nat with (S j) by lia.
    + exists i', j'. split; [lia|]. right. split; [lia|].
      by replace (j' + 1)%nat with (S j') by lia.
    + exists i, j'. split; [lia|]. left. split; [lia|].
      by replace (i + 1)%nat with (S i) by lia.
    + exists i', j'. split; [lia|]. left. split; [lia|].
      by replace (i' + 1)%nat with (S i') by lia.
Qed.

(** C8.  [isGameOver] returns false if a cell is empty; otherwise false if
    a cell has an equal neighbour to its right or below; otherwise true.
    The cells with an equal neighbour to their right or below exist exactly
    when two neighbouring cells, in a row or in a column, are equal. *)
Theorem isGameOver_cases (this : Game2048) :
  (has_empty (grid this) -> isGameOver this = false)
  /\ (~ has_empty (grid this) -> has_equal_right_or_below (grid this) ->
      isGameOver this = false)
  /\ (~ has_empty (grid this) -> ~ has_equal_right_or_below (grid this) ->
      isGameOver this = true)
  /\ (has_equal_right_or_below (grid this) <-> has_equal_neighbours (grid this)).
Proof.
  split; [|split; [|split; [|apply right_or_below_covers]]].
  - intros Hempty. apply empty_scan in Hempty. unfold isGameOver. by rewrite Hempty.
  - intros _ Hpair. apply pair_scan in Hpair. unfold isGameOver.
    match goal with |- (if ?c then _ else _) = _ => destruct c end; [reflexivity|].
    match goal with |- (if ?c then _ else _) = _ =>
      replace c with true by (symmetry; exact Hpair) end.
    reflexivity.
  - intros Hfull Hnone. unfold isGameOver.
    match goal with |- (if ?c then _ else _) = _ => destruct c eqn:Hscan end.
    { exfalso. apply Hfull. by apply empty_scan. }
    match goal with |- (if ?c then _ else _) = _ => destruct c eqn:Hscan' end.
    { exfalso. apply Hnone. by apply pair_scan. }
    reflexivity.
Qed.

(** * Loading *)

(** C9, as the code has it.  When auto-save is off, or nothing is stored,
    or the stored string is empty, [loadGame] does exactly what [newGame]
    does and raises nothing.  A stored string that is not empty is parsed and
    nothing is validated: the [SyntaxError] of [JSON.parse] is raised by
    [loadGame], the value [null] raises a [TypeError], and of a parsed
    object the properties [grid] and [score] are stored as they are,
    [undefined] for a missing one, and [hasWon] as [gameState.hasWon ||
    false]: the property when it is truthy, [false] when it is missing or
    falsy. *)
Theorem loadGame_cases (it : stored_item) (rnd1 rnd2 rnd3 rnd4 : Q) (this : Game2048) :
  (autoSave this = false \/ item_truthy it = false ->
     loadGame it rnd1 rnd2 rnd3 rnd4 this = Started (newGame rnd1 rnd2 rnd3 rnd4 this))
  /\ (forall text e, autoSave this = true -> text <> ""%string ->
        loadGame (Item text (inr e)) rnd1 rnd2 rnd3 rnd4 this = Raised e)
  /\ (forall text, autoSave this = true -> text <> ""%string ->
        loadGame (Item text (inl JSNull)) rnd1 rnd2 rnd3 rnd4 this = Raised TypeError)
  /\ (forall text props, autoSave this = true -> text <> ""%string ->
        loadGame (Item text (inl (JSObject props))) rnd1 rnd2 rnd3 rnd4 this
        = Installed (lookup_prop "grid" props) (lookup_prop "score" props)
                    (js_or (lookup_prop "hasWon" props) (JSBool false))).
Proof.
  split; [|split; [|split]].
  - intros [Hoff | Hfalsy]; unfold loadGame.
    + by rewrite Hoff.
    + rewrite Hfalsy, andb_false_r. reflexivity.
  - intros text e Hon Htext. unfold loadGame. rewrite Hon. simpl.
    apply String.eqb_neq in Htext. by rewrite Htext.
  - intros text Hon Htext. unfold loadGame. rewrite Hon. simpl.
    apply String.eqb_neq in Htext. by rewrite Htext.
  - intros text props Hon Htext. unfold loadGame. rewrite Hon. simpl.
    apply String.eqb_neq in Htext. by rewrite Htext.
Qed.

(** C9, as the specification words it, fails: a stored string that is not
    JSON makes [loadGame] raise, and a stored JSON object without the
    properties of a saved game is installed, with [undefined] as grid and
    as score; neither is what [newGame] does. *)
Lemma loadGame_malformed_is_not_newGame :
  loadGame (Item "x" (inr SyntaxError)) 0 0 0 0 (game_of [] 0) = Raised SyntaxError
  /\ loadGame (Item "{}" (inl (JSObject []))) 0 0 0 0 (game_of [] 0)
     = Installed JSUndefined JSUndefined (JSBool false)
  /\ loadGame (Item "x" (inr SyntaxError)) 0 0 0 0 (game_of [] 0)
     <> Started (newGame 0 0 0 0 (game_of [] 0))
  /\ loadGame (Item "{}" (inl (JSObject []))) 0 0 0 0 (game_of [] 0)
     <> Started (newGame 0 0 0 0 (game_of [] 0)).
Proof. by repeat split. Qed.

(** * Tiles *)

Lemma tile_ok_0 : tile_ok 0.
Proof. by left. Qed.

Lemma tile_ok_2 : tile_ok 2.
Proof. right. exists 1. split; [lia | reflexivity]. Qed.

Lemma tile_ok_4 : tile_ok 4.
Proof. right. exists 2. split; [lia | reflexivity]. Qed.

Lemma tile_ok_double (a : Z) : tile_ok a -> tile_ok (2 * a).
Proof.
  intros [-> | (k & Hk & ->)]; [by left|].
  right. exists (k + 1). split; [lia|].
  rewrite Z.pow_add_r by lia. lia.
Qed.

Lemma tile_ok_nonneg (a : Z) : tile_ok a -> 0 <= a.
Proof. intros [-> | (k & Hk & ->)]; [lia|]. apply Z.pow_nonneg. lia. Qed.

Lemma random_value_ok (rnd : Q) : tile_ok (random_value rnd).
Proof. unfold random_value. destruct (Qle_bool _ _); [apply tile_ok_4 | apply tile_ok_2]. Qed.

Lemma tile_ok_at (l : list Z) (i : nat) : Forall tile_ok l -> tile_ok (at_ l i).
Proof.
  intros Hl. unfold at_. destruct (l !! i) as [v|] eqn:Hv; [|apply tile_ok_0].
  simpl. by apply (Forall_lookup_1 _ _ _ _ Hl Hv).
Qed.

Lemma tiles_ok_row (g : matrix) (i : nat) : tiles_ok g -> Forall tile_ok (row_at g i).
Proof.
  intros Hg. unfold row_at. destruct (g !! i) as [r|] eqn:Hr; [|constructor].
  simpl. by apply (Forall_lookup_1 _ _ _ _ Hg Hr).
Qed.

Lemma tiles_ok_cell (g : matrix) (i j : nat) : tiles_ok g -> tile_ok (cell_at g i j).
Proof. intros Hg. by apply tile_ok_at, tiles_ok_row. Qed.

Lemma tiles_ok_column (g : matrix) (j : nat) : tiles_ok g -> Forall tile_ok (column_at g j).
Proof.
  intros Hg. unfold column_at.
  repeat (constructor; [by apply tiles_ok_cell|]). constructor.
Qed.

Lemma tiles_ok_compact (l : list Z) : Forall tile_ok l -> Forall tile_ok (compact l).
Proof.
  intros Hl. apply Forall_forall. intros v Hv.
  apply list_elem_of_In, filter_In in Hv as [Hv _].
  rewrite Forall_forall in Hl. by apply Hl, list_elem_of_In.
Qed.

Lemma tiles_ok_merge_once (l : list Z) : Forall tile_ok l -> Forall tile_ok (merge_once l).
Proof.
  induction l as [| a | a b t IHt IHbt] using pair_ind; intros Hl; auto.
  rewrite merge_once_pair.
  apply Forall_cons in Hl as [Ha Hl]. pose proof Hl as Hbt.
  apply Forall_cons in Hl as [Hb Ht].
  destruct (a =? b); constructor; auto using tile_ok_double.
Qed.

Lemma tiles_ok_slide (l : list Z) : Forall tile_ok l -> Forall tile_ok (slideAndMergeLine l).
Proof.
  intros Hl. unfold slideAndMergeLine, pad4. apply Forall_app. split.
  - by apply tiles_ok_merge_once, tiles_ok_compact.
  - apply Forall_replicate, tile_ok_0.
Qed.

Lemma tiles_ok_reverse (l : list Z) : Forall tile_ok l -> Forall tile_ok (reverse l).
Proof. intros Hl. by apply Forall_reverse. Qed.

Lemma merge_gain_nonneg (l : list Z) : Forall tile_ok l -> 0 <= merge_gain l.
Proof.
  induction l as [| a | a b t IHt IHbt] using pair_ind; intros Hl; try (simpl; lia).
  apply Forall_cons in Hl as [Ha Hl]. pose proof Hl as Hbt.
  apply Forall_cons in Hl as [Hb Ht]. apply tile_ok_nonneg in Ha.
  change (merge_gain (a :: b :: t))
    with (if a =? b then 2 * a + merge_gain t else merge_gain (b :: t)).
  destruct (a =? b); [specialize (IHt Ht); lia | by apply IHbt].
Qed.

Lemma sum_Z_nonneg (l : list Z) : Forall (fun v => 0 <= v) l -> 0 <= sum_Z l.
Proof. induction 1 as [|v l Hv _ IH]; simpl; lia. Qed.

(** On a grid of tiles no move takes points away. *)
Lemma move_gain_nonneg (direction : string) (g : matrix) :
  tiles_ok g -> 0 <= move_gain direction g.
Proof.
  intros Hg. unfold move_gain. apply sum_Z_nonneg, Forall_map.
  assert (Hline : forall line, Forall tile_ok line -> 0 <= merge_gain (compact line)).
  { intros line Hl. by apply merge_gain_nonneg, tiles_ok_compact. }
  unfold lines_toward.
  repeat match goal with |- context [if ?c then _ else _] => destruct c end;
    try apply Forall_nil_2; apply Forall_map, Forall_forall; intros k _; apply Hline; simpl;
    auto using tiles_ok_row, tiles_ok_column, tiles_ok_reverse.
Qed.

(** * Well-formed grids *)

Lemma grid_ok_insert (g : matrix) (i : nat) (r : list Z) :
  grid_ok g -> length r = 4%nat -> Forall tile_ok r -> grid_ok (<[i := r]> g).
Proof.
  intros [[Hlen Hrows] Htiles] Hr Hok. repeat split.
  - by rewrite length_insert.
  - by apply Forall_insert.
  - by apply Forall_insert.
Qed.

Lemma length_row_at (g : matrix) (i : nat) :
  shape_ok g -> (i < length g)%nat -> length (row_at g i) = 4%nat.
Proof.
  intros [_ Hrows] Hi. unfold row_at.
  destruct (lookup_lt_is_Some_2 g i Hi) as [r Hr]. rewrite Hr. simpl.
  by apply (Forall_lookup_1 _ _ _ _ Hrows Hr).
Qed.

Lemma grid_ok_set_cell (g : matrix) (i j : nat) (v : Z) :
  grid_ok g -> tile_ok v -> grid_ok (set_cell g i j v).
Proof.
  intros Hg Hv. unfold set_cell.
  destruct (decide (i < length g)%nat) as [Hi|Hi]; [|by rewrite list_insert_ge by lia].
  apply grid_ok_insert; [exact Hg | |].
  - rewrite length_insert. apply length_row_at; [apply Hg | exact Hi].
  - apply Forall_insert; [|exact Hv]. apply tiles_ok_row, Hg.
Qed.

Lemma grid_ok_fold_set_cell (f : nat -> nat) (v : nat -> Z) (j : nat) (ks : list nat) :
  (forall i, tile_ok (v i)) -> forall g,
  grid_ok g -> grid_ok (foldl (fun g' i => set_cell g' (f i) j (v i)) g ks).
Proof.
  intros Hv. induction ks as [|k ks IH]; intros g Hg; [exact Hg|].
  simpl. apply IH. by apply grid_ok_set_cell.
Qed.

(** A row computed by [slideAndMergeRow] from a row of the grid can take
    the place of that row. *)
Lemma grid_ok_insert_slide (g : matrix) (i : nat) (line : list Z) :
  grid_ok g -> (length line <= 4)%nat -> Forall tile_ok line ->
  grid_ok (<[i := slideAndMergeLine line]> g).
Proof.
  intros Hg Hlen Hok. apply grid_ok_insert; [exact Hg | |].
  - by apply length_slide.
  - by apply tiles_ok_slide.
Qed.

Lemma length_row_at_le (g : matrix) (i : nat) :
  shape_ok g -> (length (row_at g i) <= 4)%nat.
Proof.
  intros Hg. destruct (decide (i < length g)%nat) as [Hi|Hi].
  - rewrite length_row_at by done. lia.
  - unfold row_at. rewrite lookup_ge_None_2 by lia. simpl. lia.
Qed.

Lemma left_body_grid_ok st k : grid_ok (newGrid st) -> grid_ok (newGrid (left_body st k)).
Proof.
  intros Hg. unfold left_body. rewrite slideAndMergeRow_scan. cbn [newGrid slid_row].
  apply grid_ok_insert_slide; [exact Hg | apply length_row_at_le, Hg | apply tiles_ok_row, Hg].
Qed.

Lemma right_body_grid_ok st k : grid_ok (newGrid st) -> grid_ok (newGrid (right_body st k)).
Proof.
  intros Hg. unfold right_body. rewrite slideAndMergeRow_scan. cbn [newGrid slid_row].
  rewrite reverse_involutive.
  apply grid_ok_insert_slide; [exact Hg | |].
  - rewrite length_reverse. apply length_row_at_le, Hg.
  - apply tiles_ok_reverse, tiles_ok_row, Hg.
Qed.

Lemma up_body_grid_ok st k : grid_ok (newGrid st) -> grid_ok (newGrid (up_body st k)).
Proof.
  intros Hg. unfold up_body. fold (column_at (newGrid st) k).
  rewrite slideAndMergeRow_scan. cbn [newGrid slid_row].
  apply (grid_ok_fold_set_cell (fun i => i)); [|exact Hg].
  intros i. apply tile_ok_at, tiles_ok_slide, tiles_ok_column, Hg.
Qed.

Lemma down_body_grid_ok st k : grid_ok (newGrid st) -> grid_ok (newGrid (down_body st k)).
Proof.
  intros Hg. unfold down_body.
  change [cell_at (newGrid st) 3 k; cell_at (newGrid st) 2 k;
          cell_at (newGrid st) 1 k; cell_at (newGrid st) 0 k]
    with (reverse (column_at (newGrid st) k)).
  rewrite slideAndMergeRow_scan. cbn [newGrid slid_row].
  apply (grid_ok_fold_set_cell (fun i => (3 - i)%nat)); [|exact Hg].
  intros i. apply tile_ok_at, tiles_ok_slide, tiles_ok_reverse, tiles_ok_column, Hg.
Qed.

Lemma foldl_grid_ok (body : sweep -> nat -> sweep) (ks : list nat) :
  (forall st k, grid_ok (newGrid st) -> grid_ok (newGrid (body st k))) ->
  forall st, grid_ok (newGrid st) -> grid_ok (newGrid (foldl body st ks)).
Proof.
  intros Hbody. induction ks as [|k ks IH]; intros st Hst; [exact Hst|].
  simpl. by apply IH, Hbody.
Qed.

Lemma sweep_grid_ok (direction : string) (this : Game2048) :
  grid_ok (grid this) -> grid_ok (newGrid (sweep_lines direction this)).
Proof.
  intros Hg. unfold sweep_lines.
  repeat match goal with |- context [if ?c then _ else _] => destruct c end;
    try exact Hg; apply foldl_grid_ok;
    auto using left_body_grid_ok, right_body_grid_ok, up_body_grid_ok, down_body_grid_ok.
Qed.

Lemma addRandomTile_grid_ok (rnd1 rnd2 : Q) (this : Game2048) :
  grid_ok (grid this) -> grid_ok (grid (addRandomTile rnd1 rnd2 this)).
Proof.
  intros Hg. unfold addRandomTile.
  destruct (0 <? length (emptyCells (grid this)))%nat; [|exact Hg].
  destruct (random_index rnd1 (length (emptyCells (grid this))) <? 0); [exact Hg|].
  destruct (emptyCells (grid this) !! _); [|exact Hg].
  cbn [grid]. apply grid_ok_set_cell; [exact Hg | apply random_value_ok].
Qed.

Lemma initGrid_ok : grid_ok initGrid.
Proof.
  repeat split.
  - repeat constructor.
  - repeat (constructor; [repeat (constructor; [apply tile_ok_0|]); constructor|]).
    constructor.
Qed.

Lemma newGame_grid_ok (rnd1 rnd2 rnd3 rnd4 : Q) (this : Game2048) :
  grid_ok (grid (newGame rnd1 rnd2 rnd3 rnd4 this)).
Proof. unfold newGame. do 2 apply addRandomTile_grid_ok. apply initGrid_ok. Qed.

(** * The ways a move can end *)

Lemma move_cases (direction : string) (rnd1 rnd2 : Q) (this : Game2048) :
  let m := move direction rnd1 rnd2 this in
  let t4 := spawned direction rnd1 rnd2 this in
  (didMove m = false /\ after m = saveState this /\ shown m = None)
  \/ (didMove m = true /\ checkWin t4 = true /\ hasWon t4 = false
      /\ after m = Game (grid t4) (score t4) (previousState t4) (autoSave t4) true
      /\ shown m = Some WinOverlay)
  \/ (didMove m = true /\ (checkWin t4 = false \/ hasWon t4 = true)
      /\ after m = t4 /\ shown m <> Some WinOverlay).
Proof.
  intros m t4.
  destruct (didMove m) eqn:Hmoved.
  2:{ left. split; [reflexivity|]. by apply move_still. }
  right. subst m t4. rewrite move_didMove in Hmoved.
  unfold move, spawned. change (sweep_lines direction (saveState this))
    with (sweep_lines direction this).
  rewrite Hmoved. cbn [grid score previousState autoSave hasWon saveState].
  match goal with |- context [addRandomTile rnd1 rnd2 ?t] =>
    set (t4 := addRandomTile rnd1 rnd2 t) end.
  destruct (checkWin t4) eqn:Hwin; destruct (hasWon t4) eqn:Hwon; cbn [andb negb].
  - right. destruct (isGameOver t4); repeat split; auto; discriminate.
  - left. by repeat split.
  - right. destruct (isGameOver t4); repeat split; auto; discriminate.
  - right. destruct (isGameOver t4); repeat split; auto; discriminate.
Qed.

Lemma spawned_fields (direction : string) (rnd1 rnd2 : Q) (this : Game2048) :
  score (spawned direction rnd1 rnd2 this) = score this + move_gain direction (grid this)
  /\ previousState (spawned direction rnd1 rnd2 this)
     = Some (Snapshot (grid this) (score this))
  /\ hasWon (spawned direction rnd1 rnd2 this) = hasWon this
  /\ autoSave (spawned direction rnd1 rnd2 this) = autoSave this.
Proof.
  unfold spawned.
  match goal with |- context [addRandomTile rnd1 rnd2 ?t] =>
    destruct (addRandomTile_fields rnd1 rnd2 t) as (-> & -> & -> & ->) end.
  cbn [score previousState hasWon autoSave]. by rewrite sweep_score_gain.
Qed.

Lemma spawned_grid_ok (direction : string) (rnd1 rnd2 : Q) (this : Game2048) :
  grid_ok (grid this) -> grid_ok (grid (spawned direction rnd1 rnd2 this)).
Proof. intros Hg. unfold spawned. by apply addRandomTile_grid_ok, sweep_grid_ok. Qed.

(** * The won flag *)

Lemma checkWin_grid (this that : Game2048) :
  grid this = grid that -> checkWin this = checkWin that.
Proof. intros Hg. unfold checkWin. by rewrite Hg. Qed.

Lemma checkWin_true (this : Game2048) :
  checkWin this = true <-> exists i j, in_grid i j /\ cell_at (grid this) i j = 2048.
Proof.
  unfold checkWin. rewrite (existsb_grid (fun i j => cell_at (grid this) i j =? 2048)).
  split; intros (i & j & Hin & H); exists i, j; (split; [exact Hin|]); by apply Z.eqb_eq.
Qed.

Lemma cell_at_set_cell_cases (g : matrix) (i j i' j' : nat) (v : Z) :
  cell_at (set_cell g i j v) i' j' = v
  \/ cell_at (set_cell g i j v) i' j' = cell_at g i' j'.
Proof.
  destruct (decide (j = j')) as [<-|Hj]; [|right; by apply cell_at_set_cell_col].
  unfold cell_at, set_cell.
  destruct (decide (i = i')) as [<-|Hi]; [|right; by rewrite row_at_insert_ne].
  destruct (decide (i < length g)%nat) as [Hlt|Hge];
    [|right; by rewrite list_insert_ge by lia].
  rewrite row_at_insert_eq by exact Hlt. unfold at_.
  destruct (decide (j < length (row_at g i))%nat) as [Hjlt|Hjge].
  - left. by rewrite list_lookup_insert_eq.
  - right. by rewrite list_insert_ge by lia.
Qed.

(** Spawning a tile brings no 2048 to the grid. *)
Lemma checkWin_addRandomTile (rnd1 rnd2 : Q) (this : Game2048) :
  checkWin (addRandomTile rnd1 rnd2 this) = true -> checkWin this = true.
Proof.
  unfold addRandomTile.
  destruct (0 <? length (emptyCells (grid this)))%nat; [|done].
  destruct (random_index rnd1 (length (emptyCells (grid this))) <? 0); [done|].
  destruct (emptyCells (grid this) !! _) as [c|]; [|done].
  rewrite !checkWin_true. cbn [grid]. intros (i & j & Hin & Hcell).
  exists i, j. split; [exact Hin|].
  destruct (cell_at_set_cell_cases (grid this) (row c) (col c) i j (random_value rnd2))
    as [Hv|Hv]; rewrite Hv in Hcell; [|exact Hcell].
  exfalso. unfold random_value in Hcell. destruct (Qle_bool _ _); discriminate.
Qed.

(** Once the flag is set a move keeps it and schedules no win overlay. *)
Lemma move_keeps_won (direction : string) (rnd1 rnd2 : Q) (this : Game2048) :
  hasWon this = true ->
  hasWon (after (move direction rnd1 rnd2 this)) = true
  /\ shown (move direction rnd1 rnd2 this) <> Some WinOverlay.
Proof.
  intros Hwon.
  destruct (spawned_fields direction rnd1 rnd2 this) as (_ & _ & Hw & _).
  destruct (move_cases direction rnd1 rnd2 this)
    as [(_ & -> & ->) | [(_ & _ & Hno & _) | (_ & _ & -> & Hshown)]].
  - by split.
  - congruence.
  - split; [congruence | exact Hshown].
Qed.

(** A move never clears the flag. *)
Lemma move_won_monotone (direction : string) (rnd1 rnd2 : Q) (this : Game2048) :
  hasWon this = true -> hasWon (after (move direction rnd1 rnd2 this)) = true.
Proof. intros Hwon. by apply move_keeps_won. Qed.

Lemma undo_hasWon (this : Game2048) : hasWon (undo this) = hasWon this.
Proof. unfold undo. by destruct (previousState this). Qed.

(** * What holds throughout a game *)

Lemma sound_addRandomTile (rnd1 rnd2 : Q) (this : Game2048) :
  sound this -> sound (addRandomTile rnd1 rnd2 this).
Proof.
  intros (Hg & Hs & Hw).
  destruct (addRandomTile_fields rnd1 rnd2 this) as (Hsc & _ & Hwon & _).
  repeat split; try (by apply addRandomTile_grid_ok).
  - by rewrite Hsc.
  - intros Hwin. rewrite Hwon. by apply Hw, (checkWin_addRandomTile rnd1 rnd2).
Qed.

Lemma sound_move (direction : string) (rnd1 rnd2 : Q) (this : Game2048) :
  sound this -> sound (after (move direction rnd1 rnd2 this)).
Proof.
  intros (Hg & Hs & Hw).
  pose proof (spawned_grid_ok direction rnd1 rnd2 this Hg) as Hg4.
  destruct (spawned_fields direction rnd1 rnd2 this) as (Hsc & _ & Hwon & _).
  assert (Hgain : 0 <= move_gain direction (grid this))
    by (apply move_gain_nonneg, Hg).
  destruct (move_cases direction rnd1 rnd2 this)
    as [(_ & -> & _) | [(_ & _ & _ & -> & _) | (_ & Hflag & -> & _)]].
  - split; [exact Hg | split; [exact Hs | exact Hw]].
  - split; [exact Hg4 | split; [cbn [score]; lia | reflexivity]].
  - split; [exact Hg4 | split; [lia|]].
    intros Hwin. destruct Hflag as [Hno|Hyes]; congruence.
Qed.

Lemma inv_newGame (rnd1 rnd2 rnd3 rnd4 : Q) (this : Game2048) :
  engine_inv (newGame rnd1 rnd2 rnd3 rnd4 this).
Proof.
  assert (Hsound : sound (newGame rnd1 rnd2 rnd3 rnd4 this)).
  { unfold newGame. do 2 apply sound_addRandomTile.
    repeat split; try apply initGrid_ok; [simpl; lia | discriminate]. }
  assert (Hundo : undo (newGame rnd1 rnd2 rnd3 rnd4 this)
                  = newGame rnd1 rnd2 rnd3 rnd4 this).
  { unfold undo, newGame.
    repeat match goal with |- context [previousState (addRandomTile ?a ?b ?t)] =>
      rewrite (proj1 (proj2 (addRandomTile_fields a b t))) end.
    reflexivity. }
  unfold engine_inv. rewrite Hundo. repeat split; try apply Hsound. lia.
Qed.

Lemma undo_after_move (direction : string) (rnd1 rnd2 : Q) (this : Game2048) :
  undo (after (move direction rnd1 rnd2 this))
  = Game (grid this) (score this) None
         (autoSave (after (move direction rnd1 rnd2 this)))
         (hasWon (after (move direction rnd1 rnd2 this))).
Proof. unfold undo. by rewrite move_previousState. Qed.

Lemma inv_move (direction : string) (rnd1 rnd2 : Q) (this : Game2048) :
  engine_inv this -> engine_inv (after (move direction rnd1 rnd2 this)).
Proof.
  intros (Hsound & _ & _). pose proof Hsound as (Hg & Hs & Hw).
  split; [by apply sound_move|]. rewrite undo_after_move. split.
  - repeat split; try apply Hg; [exact Hs|]. cbn [hasWon].
    intros Hwin. apply move_won_monotone, Hw.
    by rewrite <- Hwin; apply checkWin_grid.
  - cbn [score]. rewrite move_score, sweep_score_gain.
    pose proof (move_gain_nonneg direction (grid this) (proj2 Hg)). lia.
Qed.

Lemma undo_undo (this : Game2048) : undo (undo this) = undo this.
Proof.
  unfold undo at 2 3. destruct (previousState this) eqn:Hp; [reflexivity|].
  unfold undo. by rewrite Hp.
Qed.

Lemma inv_undo (this : Game2048) : engine_inv this -> engine_inv (undo this).
Proof.
  intros (_ & Hsound & _). unfold engine_inv. rewrite undo_undo.
  repeat split; try apply Hsound. lia.
Qed.

Lemma inv_addRandomTile (rnd1 rnd2 : Q) (this : Game2048) :
  engine_inv this -> engine_inv (addRandomTile rnd1 rnd2 this).
Proof.
  intros (Hsound & Hundo & Hle).
  destruct (addRandomTile_fields rnd1 rnd2 this) as (Hsc & Hp & Hwon & Hauto).
  split; [by apply sound_addRandomTile|].
  unfold undo in *. rewrite Hp. destruct (previousState this) as [prev|].
  - rewrite Hsc, Hwon, Hauto. by split.
  - split; [by apply sound_addRandomTile | lia].
Qed.

Lemma reachable_inv (this : Game2048) : reachable this -> engine_inv this.
Proof.
  induction 1 as [rnd1 rnd2 rnd3 rnd4 this _ _ _ _
                 | direction rnd1 rnd2 this _ IH _ _
                 | this _ IH
                 | rnd1 rnd2 this _ IH _ _].
  - apply inv_newGame.
  - by apply inv_move.
  - by apply inv_undo.
  - by apply inv_addRandomTile.
Qed.

Lemma unit_draw_0 : unit_draw 0.
Proof. unfold unit_draw, Qle, Qlt. simpl. lia. Defined.

Lemma reachable_fresh_game : reachable fresh_game.
Proof. apply reach_newGame; apply unit_draw_0. Defined.

(** C10.  From [newGame] on, the grid has four rows of four cells and every
    cell is 0 or a power of two that is at least 2; a move, a spawn, an
    undo and a new game each lead to such a grid again. *)
Theorem reachable_tiles (this : Game2048) :
  reachable this ->
  grid_ok (grid this)
  /\ (forall i j, tile_ok (cell_at (grid this) i j))
  /\ (forall direction rnd1 rnd2, grid_ok (grid (after (move direction rnd1 rnd2 this))))
  /\ (forall rnd1 rnd2, grid_ok (grid (addRandomTile rnd1 rnd2 this)))
  /\ grid_ok (grid (undo this))
  /\ (forall rnd1 rnd2 rnd3 rnd4, grid_ok (grid (newGame rnd1 rnd2 rnd3 rnd4 this))).
Proof.
  intros Hreach. pose proof (reachable_inv this Hreach) as (Hsound & Hundo & _).
  split; [apply Hsound|]. split; [|split; [|split; [|split]]].
  - intros i j. apply tiles_ok_cell, Hsound.
  - intros direction rnd1 rnd2. by apply sound_move.
  - intros rnd1 rnd2. apply addRandomTile_grid_ok, Hsound.
  - apply Hundo.
  - intros rnd1 rnd2 rnd3 rnd4. apply newGame_grid_ok.
Qed.

Lemma reachable_tiles_witness :
  reachable fresh_game /\ grid_ok (grid fresh_game).
Proof.
  split; [apply reachable_fresh_game|].
  apply (reachable_tiles fresh_game). apply reachable_fresh_game.
Defined.




(** * The win event *)

Lemma win_events_app (l k : list overlay) :
  win_events (l ++ k) = (win_events l + win_events k)%nat.
Proof. unfold win_events. by rewrite List.filter_app, length_app. Qed.

(** A move schedules the win overlay exactly when the flag was not set, the
    grid changed, and the grid it leaves shows 2048. *)
Lemma move_win_event (direction : string) (rnd1 rnd2 : Q) (this : Game2048) :
  shown (move direction rnd1 rnd2 this) = Some WinOverlay
  <-> hasWon this = false
      /\ didMove (move direction rnd1 rnd2 this) = true
      /\ checkWin (after (move direction rnd1 rnd2 this)) = true.
Proof.
  destruct (spawned_fields direction rnd1 rnd2 this) as (_ & _ & Hw & _).
  destruct (move_cases direction rnd1 rnd2 this)
    as [(Hstill & _ & Hshown) | [(Hmoved & Hwin & Hno & Hafter & Hshown)
                                | (Hmoved & Hflag & Hafter & Hshown)]].
  - rewrite Hstill, Hshown. split; [discriminate | intros (_ & ? & _); discriminate].
  - rewrite Hshown, Hafter. split; [|reflexivity]. intros _.
    split; [congruence|]. split; [exact Hmoved|].
    by rewrite <- Hwin; apply checkWin_grid.
  - rewrite Hafter. split; [by intros ?|]. intros (Hnot & _ & Hwin).
    destruct Hflag; congruence.
Qed.

Lemma move_win_sets_flag (direction : string) (rnd1 rnd2 : Q) (this : Game2048) :
  shown (move direction rnd1 rnd2 this) = Some WinOverlay ->
  hasWon (after (move direction rnd1 rnd2 this)) = true.
Proof.
  intros Hshown.
  destruct (move_cases direction rnd1 rnd2 this)
    as [(_ & _ & Hnone) | [(_ & _ & _ & -> & _) | (_ & _ & _ & Hother)]].
  - congruence.
  - reflexivity.
  - by destruct Hother.
Qed.

(** Once the flag is set, no sequence of moves and undos clears it or
    schedules the win overlay. *)
Lemma play_won (acts : list action) :
  forall this, hasWon this = true ->
  hasWon (fst (play acts this)) = true /\ win_events (snd (play acts this)) = 0%nat.
Proof.
  induction acts as [|a acts IH]; intros this Hwon; [by split|].
  simpl. destruct (act a this) as [this1 shown1] eqn:Hact.
  assert (Hstep : hasWon this1 = true /\ win_events shown1 = 0%nat).
  { destruct a as [direction rnd1 rnd2|]; simpl in Hact; inversion Hact; subst.
    - destruct (move_keeps_won direction rnd1 rnd2 this Hwon) as [Hkeep Hshown].
      split; [exact Hkeep|].
      destruct (shown (move direction rnd1 rnd2 this)) as [[|]|]; try reflexivity.
      by destruct Hshown.
    - split; [by rewrite undo_hasWon | reflexivity]. }
  destruct Hstep as [Hwon1 Hnone1]. specialize (IH this1 Hwon1).
  destruct (play acts this1) as [this2 shown2]. simpl in *.
  split; [apply IH|]. rewrite win_events_app. lia.
Qed.

(** No sequence of moves and undos schedules the win overlay twice. *)
Lemma play_wins_once (acts : list action) :
  forall this, (win_events (snd (play acts this)) <= 1)%nat.
Proof.
  induction acts as [|a acts IH]; intros this; [unfold win_events; simpl; lia|].
  simpl. destruct (act a this) as [this1 shown1] eqn:Hact.
  pose proof (IH this1) as Hrest. pose proof (play_won acts this1) as Hlatched.
  destruct (play acts this1) as [this2 shown2]. simpl in *.
  rewrite win_events_app.
  destruct a as [direction rnd1 rnd2|]; simpl in Hact; inversion Hact; subst;
    [|change (win_events []) with 0%nat; lia].
  destruct (shown (move direction rnd1 rnd2 this)) as [[|]|] eqn:Hshown.
  - apply move_win_sets_flag in Hshown. destruct (Hlatched Hshown) as [_ ->].
    change (win_events [WinOverlay]) with 1%nat. lia.
  - change (win_events [GameOverOverlay]) with 0%nat. lia.
  - change (win_events []) with 0%nat. lia.
Qed.

(** On one object the won flag is a latch.  A move schedules the win
    overlay exactly when the flag is not set, the grid changed and the grid
    it leaves shows 2048, and it then sets the flag.  Once the flag is set,
    every sequence of moves and undos on the object keeps it set and
    schedules no win overlay, so that no sequence schedules the overlay
    twice; [newGame] clears the flag.  In the states reached from [newGame]
    by moves, undos and spawns a grid showing 2048 has the flag set, so the
    move that first leaves a 2048 on the grid is the one that sets the flag
    and schedules the overlay.  This happens: for the grid whose first row
    is [1024,1024,0,0] the move to the left sets the flag and schedules the
    overlay, and the move down that follows keeps the 2048 on the grid and
    schedules nothing. *)
Theorem won_latch (this : Game2048) :
  (forall direction rnd1 rnd2,
     (shown (move direction rnd1 rnd2 this) = Some WinOverlay
      <-> hasWon this = false
          /\ didMove (move direction rnd1 rnd2 this) = true
          /\ checkWin (after (move direction rnd1 rnd2 this)) = true)
     /\ (shown (move direction rnd1 rnd2 this) = Some WinOverlay ->
         hasWon (after (move direction rnd1 rnd2 this)) = true))
  /\ (hasWon this = true ->
      forall acts, hasWon (fst (play acts this)) = true
                   /\ win_events (snd (play acts this)) = 0%nat)
  /\ (forall acts, (win_events (snd (play acts this)) <= 1)%nat)
  /\ (forall rnd1 rnd2 rnd3 rnd4, hasWon (newGame rnd1 rnd2 rnd3 rnd4 this) = false)
  /\ (reachable this ->
      (checkWin this = true -> hasWon this = true)
      /\ (hasWon this = false ->
          forall direction rnd1 rnd2,
            checkWin (after (move direction rnd1 rnd2 this)) = true ->
            shown (move direction rnd1 rnd2 this) = Some WinOverlay
            /\ hasWon (after (move direction rnd1 rnd2 this)) = true))
  /\ (hasWon winning_game = false
      /\ shown (move "left" 0 0 winning_game) = Some WinOverlay
      /\ hasWon (after (move "left" 0 0 winning_game)) = true
      /\ didMove (move "down" 0 0 (after (move "left" 0 0 winning_game))) = true
      /\ checkWin (after (move "down" 0 0 (after (move "left" 0 0 winning_game)))) = true
      /\ hasWon (after (move "down" 0 0 (after (move "left" 0 0 winning_game)))) = true
      /\ shown (move "down" 0 0 (after (move "left" 0 0 winning_game))) = None).
Proof.
  split; [|split; [|split; [|split; [|split; [|by repeat split]]]]].
  - intros direction rnd1 rnd2. split; [apply move_win_event | apply move_win_sets_flag].
  - intros Hwon acts. by apply play_won.
  - intros acts. apply play_wins_once.
  - intros rnd1 rnd2 rnd3 rnd4. unfold newGame.
    by rewrite !(proj1 (proj2 (proj2 (addRandomTile_fields _ _ _)))).
  - intros Hreach. pose proof (reachable_inv this Hreach) as ((_ & _ & Hw) & _).
    split; [exact Hw|]. intros Hnot direction rnd1 rnd2 Hwin.
    assert (Hshown : shown (move direction rnd1 rnd2 this) = Some WinOverlay).
    { apply move_win_event. split; [exact Hnot|]. split; [|exact Hwin].
      destruct (didMove (move direction rnd1 rnd2 this)) eqn:Hmoved; [reflexivity|].
      destruct (move_still direction rnd1 rnd2 this Hmoved) as [Hafter _].
      rewrite Hafter in Hwin.
      rewrite (checkWin_grid (saveState this) this eq_refl) in Hwin.
      apply Hw in Hwin. congruence. }
    split; [exact Hshown | by apply move_win_sets_flag].
Qed.

(** * More on the line reduction *)

Lemma sum_Z_app (l k : list Z) : sum_Z (l ++ k) = sum_Z l + sum_Z k.
Proof. induction l as [|a l IH]; simpl; [reflexivity|]. rewrite IH. lia. Qed.

Lemma sum_Z_zeros (n : nat) : sum_Z (replicate n 0) = 0.
Proof. induction n as [|n IH]; [reflexivity|]. simpl. by rewrite IH. Qed.

Lemma sum_Z_compact (l : list Z) : sum_Z (compact l) = sum_Z l.
Proof.
  induction l as [|a l IH]; [reflexivity|].
  unfold compact in *. simpl. destruct (a =? 0) eqn:Ha; simpl; rewrite IH; [|reflexivity].
  apply Z.eqb_eq in Ha. lia.
Qed.

Lemma sum_Z_merge_once (l : list Z) : sum_Z (merge_once l) = sum_Z l.
Proof.
  induction l as [| a | a b t IHt IHbt] using pair_ind; try reflexivity.
  rewrite merge_once_pair. destruct (a =? b) eqn:Hab.
  - apply Z.eqb_eq in Hab as <-. simpl. rewrite IHt. lia.
  - change (sum_Z (a :: merge_once (b :: t))) with (a + sum_Z (merge_once (b :: t))).
    rewrite IHbt. reflexivity.
Qed.

Lemma sum_Z_slide (line : list Z) : sum_Z (slideAndMergeLine line) = sum_Z line.
Proof.
  unfold slideAndMergeLine, pad4.
  rewrite sum_Z_app, sum_Z_zeros, sum_Z_merge_once, sum_Z_compact. lia.
Qed.

Lemma length_slide_ge (line : list Z) : (4 <= length (slideAndMergeLine line))%nat.
Proof. unfold slideAndMergeLine, pad4. rewrite length_app, length_replicate. lia. Qed.

(** The reduction of a line loses no value: the cells of the returned row
    add up to the cells of the line, the row has one non-empty cell fewer
    for each reported merge, and it has four cells, or more when the line
    is longer than four. *)
Theorem slideAndMergeRow_conserves (line : list Z) (sc : Z) :
  sum_Z (slid_row (slideAndMergeRow line sc)) = sum_Z line
  /\ (length (compact (slid_row (slideAndMergeRow line sc)))
      + length (slid_merged (slideAndMergeRow line sc))
      = length (compact line))%nat
  /\ (4 <= length (slid_row (slideAndMergeRow line sc)))%nat
  /\ ((length line <= 4)%nat -> length (slid_row (slideAndMergeRow line sc)) = 4%nat).
Proof.
  rewrite slideAndMergeRow_scan. cbn [slid_row slid_merged].
  split; [apply sum_Z_slide|]. split; [|split].
  - rewrite compact_slide. apply length_merge_once.
  - apply length_slide_ge.
  - apply length_slide.
Qed.

Lemma merge_once_distinct (l : list Z) :
  neighbours_differ l -> forall i, merge_once l = l /\ merge_at i l = [] /\ merge_gain l = 0.
Proof.
  induction l as [| a | a b t IHt IHbt] using pair_ind; intros Hd i; try done.
  assert (Hab : a <> b) by (by apply (Hd 0%nat)).
  assert (Hrest : neighbours_differ (b :: t)).
  { intros p x y Hx Hy. by apply (Hd (S p)). }
  destruct (IHbt Hrest (S i)) as (Hm & Ha & Hg).
  rewrite merge_once_pair.
  change (merge_at i (a :: b :: t))
    with (if a =? b then i :: merge_at (S i) t else merge_at (S i) (b :: t)).
  change (merge_gain (a :: b :: t))
    with (if a =? b then 2 * a + merge_gain t else merge_gain (b :: t)).
  apply Z.eqb_neq in Hab. rewrite Hab. by rewrite Hm.
Qed.

(** When no two neighbouring tiles of the compacted line are equal, the
    line is only compacted: the tiles keep their order, zeros follow, no
    merge is reported and the score is left as it was. *)
Theorem slideAndMergeRow_only_compacts (line : list Z) (sc : Z) :
  neighbours_differ (compact line) ->
  slideAndMergeRow line sc = Slid (pad4 (compact line)) [] sc.
Proof.
  intros Hd. rewrite slideAndMergeRow_scan. unfold slideAndMergeLine.
  destruct (merge_once_distinct (compact line) Hd 0) as (-> & -> & ->).
  by rewrite Z.add_0_r.
Qed.

Lemma neighbours_differ_0204 : neighbours_differ (compact [0; 2; 0; 4]).
Proof.
  intros p a b Ha Hb. destruct p as [|[|p]]; simpl in *; try discriminate.
  inversion Ha. inversion Hb. lia.
Defined.

Lemma slideAndMergeRow_only_compacts_witness :
  slideAndMergeRow [0; 2; 0; 4] 7 = Slid [2; 4; 0; 0] [] 7.
Proof. apply (slideAndMergeRow_only_compacts [0; 2; 0; 4] 7), neighbours_differ_0204. Defined.

Lemma merge_at_cells (l : list Z) :
  forall pre post : list Z,
    sum_Z (map (at_ (pre ++ merge_once l ++ post)) (merge_at (length pre) l))
      = merge_gain l
    /\ Forall (fun p => (length pre <= p < length pre + length (merge_once l))%nat
                        /\ exists a, a ∈ l /\ at_ (pre ++ merge_once l ++ post) p = 2 * a)
              (merge_at (length pre) l).
Proof.
  induction l as [| a | a b t IHt IHbt] using pair_ind; intros pre post;
    try (split; [reflexivity | constructor]).
  rewrite merge_once_pair.
  change (merge_at (length pre) (a :: b :: t))
    with (if a =? b then length pre :: merge_at (S (length pre)) t
          else merge_at (S (length pre)) (b :: t)).
  change (merge_gain (a :: b :: t))
    with (if a =? b then 2 * a + merge_gain t else merge_gain (b :: t)).
  destruct (a =? b) eqn:Hab.
  - destruct (IHt (pre ++ [2 * a]) post) as [Hsum Hall].
    replace (length (pre ++ [2 * a])) with (S (length pre)) in *
      by (rewrite length_app; simpl; lia).
    replace ((pre ++ [2 * a]) ++ merge_once t ++ post)
      with (pre ++ (2 * a :: merge_once t) ++ post) in *
      by (by rewrite <- app_assoc).
    split.
    + cbn [map sum_Z foldr]. fold (sum_Z (map (at_ (pre ++ (2 * a :: merge_once t) ++ post))
                                             (merge_at (S (length pre)) t))).
      rewrite Hsum. simpl app. rewrite at_middle. reflexivity.
    + constructor.
      * split; [cbn [length]; lia|]. exists a. split; [by left|].
        simpl app. by rewrite at_middle.
      * eapply Forall_impl; [exact Hall|]. intros p [Hp (x & Hx & Hat)].
        split; [cbn [length]; lia|]. exists x. split; [by do 2 right | exact Hat].
  - destruct (IHbt (pre ++ [a]) post) as [Hsum Hall].
    replace (length (pre ++ [a])) with (S (length pre)) in *
      by (rewrite length_app; simpl; lia).
    replace ((pre ++ [a]) ++ merge_once (b :: t) ++ post)
      with (pre ++ (a :: merge_once (b :: t)) ++ post) in *
      by (by rewrite <- app_assoc).
    split; [exact Hsum|].
    eapply Forall_impl; [exact Hall|]. intros p [Hp (x & Hx & Hat)].
    split; [cbn [length]; lia|]. exists x. split; [by right | exact Hat].
Qed.

Lemma elem_of_compact (a : Z) (l : list Z) : a ∈ compact l -> a ∈ l /\ a <> 0.
Proof.
  intros Ha. apply list_elem_of_In, filter_In in Ha as [Hin Hnz].
  split; [by apply list_elem_of_In|]. by apply negb_true_iff, Z.eqb_neq in Hnz.
Qed.

(** The positions reported as merged are positions of non-empty cells of
    the returned row; each holds the double of a tile of the line; and the
    cells at these positions add up to what the call adds to the score. *)
Theorem merged_cells_hold_the_gain (line : list Z) (sc : Z) :
  slid_score (slideAndMergeRow line sc)
    = sc + sum_Z (map (at_ (slid_row (slideAndMergeRow line sc)))
                      (slid_merged (slideAndMergeRow line sc)))
  /\ Forall (fun p =>
       (p < length (compact (slid_row (slideAndMergeRow line sc))))%nat
       /\ exists a, a <> 0 /\ a ∈ line
                    /\ at_ (slid_row (slideAndMergeRow line sc)) p = 2 * a)
     (slid_merged (slideAndMergeRow line sc)).
Proof.
  rewrite slideAndMergeRow_scan. cbn [slid_row slid_merged slid_score].
  rewrite compact_slide. unfold slideAndMergeLine, pad4.
  destruct (merge_at_cells (compact line) []
              (replicate (4 - length (merge_once (compact line))) 0)) as [Hsum Hall].
  simpl in Hsum, Hall. split; [by rewrite Hsum|].
  eapply Forall_impl; [exact Hall|]. intros p [Hp (a & Ha & Hat)].
  apply elem_of_compact in Ha as [Hin Hnz].
  split; [lia|]. by exists a.
Qed.

(** * More on spawning *)

Lemma flat_map_cells (p : nat -> nat -> bool) (rows cols : list nat) :
  flat_map (fun i => flat_map (fun j => if p i j then [Cell i j] else []) cols) rows
  = List.filter (fun c => p (row c) (col c))
                (flat_map (fun i => map (fun j => Cell i j) cols) rows).
Proof.
  induction rows as [|i rows IH]; [reflexivity|].
  simpl. rewrite List.filter_app, IH. f_equal. clear IH.
  induction cols as [|j cols IHc]; [reflexivity|].
  simpl. rewrite IHc. by destruct (p i j).
Qed.

Lemma emptyCells_filter (g : matrix) :
  emptyCells g = List.filter (fun c => cell_at g (row c) (col c) =? 0) positions.
Proof. apply (flat_map_cells (fun i j => cell_at g i j =? 0)). Qed.

Lemma NoDup_positions : NoDup positions.
Proof. apply (bool_decide_unpack _). by vm_compute. Qed.

Lemma elem_of_positions (c : cell) : c ∈ positions <-> in_grid (row c) (col c).
Proof.
  unfold positions, in_grid. rewrite list_elem_of_In, in_flat_map. split.
  - intros (i & Hi & Hc). apply in_map_iff in Hc as (j & <- & Hj).
    apply in_seq in Hi. apply in_seq in Hj. simpl. lia.
  - intros [Hi Hj]. exists (row c). split; [apply in_seq; lia|].
    apply in_map_iff. exists (col c). split; [by destruct c | apply in_seq; lia].
Qed.

Lemma elem_of_emptyCells (g : matrix) (c : cell) :
  c ∈ emptyCells g <-> in_grid (row c) (col c) /\ cell_at g (row c) (col c) = 0.
Proof.
  rewrite emptyCells_filter, list_elem_of_In, filter_In, <- list_elem_of_In.
  by rewrite elem_of_positions, Z.eqb_eq.
Qed.

Lemma emptyCells_nil (g : matrix) : emptyCells g = [] <-> ~ has_empty g.
Proof.
  split.
  - intros Hnil (i & j & Hin & Hz).
    assert (Hc : Cell i j ∈ emptyCells g) by (by apply elem_of_emptyCells).
    rewrite Hnil in Hc. by apply elem_of_nil in Hc.
  - intros Hfull. destruct (emptyCells g) as [|c cs] eqn:Hcells; [reflexivity|].
    exfalso. apply Hfull.
    assert (Hc : c ∈ emptyCells g) by (rewrite Hcells; by left).
    apply elem_of_emptyCells in Hc as [Hin Hz]. by exists (row c), (col c).
Qed.

Lemma cell_at_set_cell_other (g : matrix) (i j i' j' : nat) (v : Z) :
  (i, j) <> (i', j') -> cell_at (set_cell g i j v) i' j' = cell_at g i' j'.
Proof.
  intros Hne. destruct (decide (j = j')) as [<-|Hj]; [|by apply cell_at_set_cell_col].
  assert (Hi : i <> i') by congruence.
  unfold cell_at, set_cell. by rewrite row_at_insert_ne.
Qed.

Lemma cell_at_set_cell_same (g : matrix) (i j : nat) (v : Z) :
  shape_ok g -> in_grid i j -> cell_at (set_cell g i j v) i j = v.
Proof.
  intros Hg [Hi Hj]. pose proof Hg as [Hlen _].
  unfold cell_at, set_cell. rewrite row_at_insert_eq by lia.
  unfold at_. rewrite list_lookup_insert_eq; [reflexivity|].
  rewrite length_row_at by (done || lia). lia.
Qed.

(** What [addRandomTile] does to the object, whatever the draws: nothing,
    or a 2 or a 4 written into one empty cell of the grid. *)
Lemma addRandomTile_cases (rnd1 rnd2 : Q) (this : Game2048) :
  addRandomTile rnd1 rnd2 this = this
  \/ exists c, c ∈ emptyCells (grid this)
       /\ addRandomTile rnd1 rnd2 this
          = Game (set_cell (grid this) (row c) (col c) (random_value rnd2))
                 (score this) (previousState this) (autoSave this) (hasWon this).
Proof.
  unfold addRandomTile.
  destruct (0 <? length (emptyCells (grid this)))%nat; [|by left].
  destruct (random_index rnd1 (length (emptyCells (grid this))) <? 0); [by left|].
  destruct (emptyCells (grid this) !! _) as [c|] eqn:Hc; [|by left].
  right. exists c. split; [|reflexivity]. apply list_elem_of_lookup. eauto.
Qed.

Lemma random_value_2_or_4 (rnd : Q) : random_value rnd = 2 \/ random_value rnd = 4.
Proof. unfold random_value. destruct (Qle_bool _ _); auto. Qed.

Lemma addRandomTile_cell (rnd1 rnd2 : Q) (this : Game2048) (i j : nat) :
  cell_at (grid (addRandomTile rnd1 rnd2 this)) i j = cell_at (grid this) i j
  \/ (cell_at (grid this) i j = 0
      /\ (cell_at (grid (addRandomTile rnd1 rnd2 this)) i j = 2
          \/ cell_at (grid (addRandomTile rnd1 rnd2 this)) i j = 4)).
Proof.
  destruct (addRandomTile_cases rnd1 rnd2 this) as [-> | (c & Hc & ->)];
    [by left|]. cbn [grid].
  apply elem_of_emptyCells in Hc as [_ Hz].
  destruct (decide ((row c, col c) = (i, j))) as [Heq|Hne].
  - inversion Heq; subst.
    destruct (cell_at_set_cell_cases (grid this) (row c) (col c) (row c) (col c)
                (random_value rnd2)) as [Hv|Hv]; [|by left].
    right. split; [exact Hz|]. rewrite Hv. apply random_value_2_or_4.
  - left. by apply cell_at_set_cell_other.
Qed.

(** [addRandomTile] never writes over a tile: every non-empty cell keeps
    its value, whatever the draws; a cell that changes was empty and now
    holds 2 or 4; and on a grid without an empty cell nothing changes at
    all. *)
Theorem addRandomTile_never_overwrites (rnd1 rnd2 : Q) (this : Game2048) :
  (forall i j, cell_at (grid this) i j <> 0 ->
     cell_at (grid (addRandomTile rnd1 rnd2 this)) i j = cell_at (grid this) i j)
  /\ (forall i j,
        cell_at (grid (addRandomTile rnd1 rnd2 this)) i j = cell_at (grid this) i j
        \/ (cell_at (grid this) i j = 0
            /\ (cell_at (grid (addRandomTile rnd1 rnd2 this)) i j = 2
                \/ cell_at (grid (addRandomTile rnd1 rnd2 this)) i j = 4)))
  /\ (~ has_empty (grid this) -> addRandomTile rnd1 rnd2 this = this).
Proof.
  split; [|split; [apply addRandomTile_cell|]].
  - intros i j Hnz.
    destruct (addRandomTile_cell rnd1 rnd2 this i j) as [Hsame | [Hz _]];
      [exact Hsame | done].
  - intros Hfull. apply emptyCells_nil in Hfull. unfold addRandomTile. by rewrite Hfull.
Qed.

Lemma filter_one_less {A : Type} (p q : A -> bool) (c : A) (l : list A) :
  NoDup l -> c ∈ l -> p c = true -> q c = false ->
  (forall x, x ∈ l -> x <> c -> q x = p x) ->
  S (length (List.filter q l)) = length (List.filter p l).
Proof.
  induction 1 as [|x l Hx Hnd IH]; intros Hc Hp Hq Hsame; [by apply elem_of_nil in Hc|].
  apply elem_of_cons in Hc as [<-|Hc].
  - simpl. rewrite Hp, Hq. simpl. f_equal. f_equal.
    apply filter_ext_in. intros y Hy. apply Hsame; [right; by apply list_elem_of_In|].
    intros ->. apply Hx. by apply list_elem_of_In.
  - simpl. rewrite (Hsame x) by (by left || (intros ->; done)).
    specialize (IH Hc Hp Hq (fun y Hy => Hsame y (list_elem_of_further _ _ _ Hy))).
    destruct (p x); simpl; lia.
Qed.

(** Writing a tile into an empty cell of the grid takes that cell, and no
    other, out of the empty cells. *)
Lemma emptyCells_set_cell (g : matrix) (c : cell) (v : Z) :
  shape_ok g -> c ∈ emptyCells g -> v <> 0 ->
  S (length (emptyCells (set_cell g (row c) (col c) v))) = length (emptyCells g).
Proof.
  intros Hg Hc Hv. apply elem_of_emptyCells in Hc as [Hin Hz].
  rewrite !emptyCells_filter.
  apply (filter_one_less _ _ c); [apply NoDup_positions | by apply elem_of_positions | | |].
  - by apply Z.eqb_eq.
  - apply Z.eqb_neq. by rewrite cell_at_set_cell_same.
  - intros x _ Hx. rewrite cell_at_set_cell_other; [reflexivity|].
    intros Heq. apply Hx. destruct x, c. simpl in Heq. congruence.
Qed.

Lemma random_value_nonzero (rnd : Q) : random_value rnd <> 0.
Proof. destruct (random_value_2_or_4 rnd) as [-> | ->]; lia. Qed.

Lemma shape_ok_set_cell (g : matrix) (i j : nat) (v : Z) :
  shape_ok g -> shape_ok (set_cell g i j v).
Proof.
  intros Hg. pose proof Hg as [Hlen Hrows]. unfold set_cell.
  destruct (decide (i < length g)%nat) as [Hi|Hi]; [|by rewrite list_insert_ge by lia].
  split; [by rewrite length_insert|].
  apply Forall_insert; [exact Hrows|]. rewrite length_insert. by apply length_row_at.
Qed.

Lemma addRandomTile_shape_ok (rnd1 rnd2 : Q) (this : Game2048) :
  shape_ok (grid this) -> shape_ok (grid (addRandomTile rnd1 rnd2 this)).
Proof.
  intros Hg. destruct (addRandomTile_cases rnd1 rnd2 this) as [-> | (c & _ & ->)];
    [exact Hg | by apply shape_ok_set_cell].
Qed.

Lemma addRandomTile_one_less (rnd1 rnd2 : Q) (this : Game2048) :
  shape_ok (grid this) -> emptyCells (grid this) <> [] -> unit_draw rnd1 ->
  S (length (emptyCells (grid (addRandomTile rnd1 rnd2 this))))
  = length (emptyCells (grid this)).
Proof.
  intros Hg Hcells Hdraw.
  destruct (addRandomTile_spawns rnd1 rnd2 this Hdraw Hcells) as (c & Hc & ->).
  apply emptyCells_set_cell; [exact Hg | exact Hc | apply random_value_nonzero].
Qed.

Lemma addRandomTile_fills_one_cell (rnd1 rnd2 : Q) (this : Game2048) :
  shape_ok (grid this) -> has_empty (grid this) -> unit_draw rnd1 ->
  exists i j, in_grid i j
    /\ cell_at (grid this) i j = 0
    /\ grid (addRandomTile rnd1 rnd2 this)
       = set_cell (grid this) i j (random_value rnd2)
    /\ cell_at (grid (addRandomTile rnd1 rnd2 this)) i j = random_value rnd2.
Proof.
  intros Hg Hempty Hdraw.
  assert (Hcells : emptyCells (grid this) <> []).
  { intros Hnil. by apply emptyCells_nil in Hnil. }
  destruct (addRandomTile_spawns rnd1 rnd2 this Hdraw Hcells) as (c & Hc & Hgrid).
  rewrite Hgrid. apply elem_of_emptyCells in Hc as [Hin Hz].
  exists (row c), (col c).
  split; [exact Hin|]. split; [exact Hz|]. split; [reflexivity|].
  by apply cell_at_set_cell_same.
Qed.

(** On a 4x4 grid with an empty cell, and for a draw of [Math.random()],
    [addRandomTile] fills exactly one empty cell: one cell of the grid goes
    from 0 to 2 or 4, and the grid has one empty cell fewer. *)
Theorem addRandomTile_fills_one (rnd1 rnd2 : Q) (this : Game2048) :
  shape_ok (grid this) -> has_empty (grid this) -> unit_draw rnd1 ->
  (exists i j, in_grid i j
     /\ cell_at (grid this) i j = 0
     /\ grid (addRandomTile rnd1 rnd2 this)
        = set_cell (grid this) i j (random_value rnd2)
     /\ cell_at (grid (addRandomTile rnd1 rnd2 this)) i j = random_value rnd2
     /\ (random_value rnd2 = 2 \/ random_value rnd2 = 4))
  /\ S (length (emptyCells (grid (addRandomTile rnd1 rnd2 this))))
     = length (emptyCells (grid this)).
Proof.
  intros Hg Hempty Hdraw.
  assert (Hcells : emptyCells (grid this) <> []).
  { intros Hnil. by apply emptyCells_nil in Hnil. }
  split; [|by apply addRandomTile_one_less].
  destruct (addRandomTile_spawns rnd1 rnd2 this Hdraw Hcells) as (c & Hc & Hgrid).
  rewrite Hgrid. apply elem_of_emptyCells in Hc as [Hin Hz].
  exists (row c), (col c).
  split; [exact Hin|]. split; [exact Hz|]. split; [reflexivity|].
  split; [by apply cell_at_set_cell_same | apply random_value_2_or_4].
Qed.

Lemma unit_draw_half : unit_draw (1 # 2).
Proof. unfold unit_draw, Qle, Qlt. simpl. lia. Defined.

Lemma shape_ok_top_row : shape_ok (top_row [2; 0; 0; 0]).
Proof. split; [reflexivity | by repeat constructor]. Defined.

Lemma has_empty_resting : has_empty (grid resting_game).
Proof. exists 0%nat, 1%nat. by repeat split; simpl; lia. Defined.

Lemma addRandomTile_fills_one_witness :
  S (length (emptyCells (grid (addRandomTile (1 # 2) 0 resting_game))))
  = length (emptyCells (grid resting_game)).
Proof.
  apply (addRandomTile_fills_one (1 # 2) 0 resting_game).
  - apply shape_ok_top_row.
  - apply has_empty_resting.
  - apply unit_draw_half.
Defined.

(** * A new game *)

Lemma emptyCells_initGrid : length (emptyCells initGrid) = 16%nat.
Proof. reflexivity. Qed.

(** For draws of [Math.random()], [newGame] leaves a 4x4 grid with exactly
    two tiles (fourteen empty cells), each of them a 2 or a 4, a score of 0,
    no snapshot and a cleared won flag; the auto-save setting is kept. *)
Theorem newGame_two_tiles (rnd1 rnd2 rnd3 rnd4 : Q) (this : Game2048) :
  unit_draw rnd1 -> unit_draw rnd3 ->
  shape_ok (grid (newGame rnd1 rnd2 rnd3 rnd4 this))
  /\ length (emptyCells (grid (newGame rnd1 rnd2 rnd3 rnd4 this))) = 14%nat
  /\ (forall i j, cell_at (grid (newGame rnd1 rnd2 rnd3 rnd4 this)) i j = 0
                  \/ cell_at (grid (newGame rnd1 rnd2 rnd3 rnd4 this)) i j = 2
                  \/ cell_at (grid (newGame rnd1 rnd2 rnd3 rnd4 this)) i j = 4)
  /\ score (newGame rnd1 rnd2 rnd3 rnd4 this) = 0
  /\ previousState (newGame rnd1 rnd2 rnd3 rnd4 this) = None
  /\ hasWon (newGame rnd1 rnd2 rnd3 rnd4 this) = false
  /\ autoSave (newGame rnd1 rnd2 rnd3 rnd4 this) = autoSave this.
Proof.
  intros Hd1 Hd3. unfold newGame.
  set (this0 := Game initGrid 0 None (autoSave this) false).
  set (this1 := addRandomTile rnd1 rnd2 this0).
  assert (Hshape0 : shape_ok (grid this0)) by apply initGrid_ok.
  assert (Hcount1 : S (length (emptyCells (grid this1))) = 16%nat).
  { apply (addRandomTile_one_less rnd1 rnd2 this0); [exact Hshape0 | discriminate | exact Hd1]. }
  assert (Hshape1 : shape_ok (grid this1)) by (by apply addRandomTile_shape_ok).
  assert (Hcount2 : S (length (emptyCells (grid (addRandomTile rnd3 rnd4 this1))))
                    = length (emptyCells (grid this1))).
  { apply addRandomTile_one_less; [exact Hshape1 | | exact Hd3].
    intros Hnil. rewrite Hnil in Hcount1. discriminate. }
  destruct (addRandomTile_fields rnd1 rnd2 this0) as (Hs1 & Hp1 & Hw1 & Ha1).
  destruct (addRandomTile_fields rnd3 rnd4 this1) as (Hs2 & Hp2 & Hw2 & Ha2).
  fold this1 in Hs1, Hp1, Hw1, Ha1.
  split; [by apply addRandomTile_shape_ok|]. split; [lia|]. split.
  - intros i j.
    destruct (addRandomTile_cell rnd3 rnd4 this1 i j) as [-> | [_ H]]; [|tauto].
    destruct (addRandomTile_cell rnd1 rnd2 this0 i j) as [Hsame | [_ H]]; [|tauto].
    fold this1 in Hsame. rewrite Hsame.
    left. clear. unfold this0. cbn [grid].
    unfold cell_at, row_at, at_, initGrid.
    destruct i as [|[|[|[|i]]]]; destruct j as [|[|[|[|j]]]]; reflexivity.
  - rewrite Hs2, Hs1, Hp2, Hp1, Hw2, Hw1, Ha2, Ha1. by repeat split.
Qed.

Lemma newGame_two_tiles_witness :
  length (emptyCells (grid fresh_game)) = 14%nat.
Proof. apply (newGame_two_tiles 0 0 0 0 (game_of [] 0)); apply unit_draw_0. Defined.

(** * More on moves *)

(** A call of [move] with a string that is none of the four directions
    enters no branch: no line is processed, no tile is spawned, no overlay
    is scheduled, and the grid, the score and the won flag stay as they
    are; the call still replaces the snapshot with the current grid and
    score. *)
Theorem move_unknown_direction (direction : string) (rnd1 rnd2 : Q) (this : Game2048) :
  direction <> "left"%string -> direction <> "right"%string ->
  direction <> "up"%string -> direction <> "down"%string ->
  move direction rnd1 rnd2 this
  = Moved (Game (grid this) (score this) (Some (Snapshot (grid this) (score this)))
                (autoSave this) (hasWon this))
          false [] None.
Proof.
  intros Hl Hr Hu Hd. unfold move, sweep_lines.
  apply String.eqb_neq in Hl, Hr, Hu, Hd. by rewrite Hl, Hr, Hu, Hd.
Qed.

Lemma move_unknown_direction_witness :
  move "Left" 0 0 resting_game
  = Moved (saveState resting_game) false [] None.
Proof. apply (move_unknown_direction "Left" 0 0 resting_game); discriminate. Defined.

(** ** Where the tiles land *)

Lemma shape_ok_insert (g : matrix) (i : nat) (r : list Z) :
  shape_ok g -> length r = 4%nat -> shape_ok (<[i := r]> g).
Proof.
  intros [Hlen Hrows] Hr. split; [by rewrite length_insert | by apply Forall_insert].
Qed.

Lemma shape_ok_fold_set_cell (f : nat -> nat) (v : nat -> Z) (j : nat) (ks : list nat) :
  forall g, shape_ok g -> shape_ok (foldl (fun g' i => set_cell g' (f i) j (v i)) g ks).
Proof.
  induction ks as [|k ks IH]; intros g Hg; [exact Hg|].
  simpl. by apply IH, shape_ok_set_cell.
Qed.

Lemma left_body_shape_ok st k : shape_ok (newGrid st) -> shape_ok (newGrid (left_body st k)).
Proof.
  intros Hg. unfold left_body. rewrite slideAndMergeRow_scan. cbn [newGrid slid_row].
  apply shape_ok_insert; [exact Hg|]. by apply length_slide, length_row_at_le.
Qed.

Lemma right_body_shape_ok st k : shape_ok (newGrid st) -> shape_ok (newGrid (right_body st k)).
Proof.
  intros Hg. unfold right_body. rewrite slideAndMergeRow_scan. cbn [newGrid slid_row].
  rewrite reverse_involutive. apply shape_ok_insert; [exact Hg|].
  apply length_slide. rewrite length_reverse. by apply length_row_at_le.
Qed.

Lemma up_body_shape_ok st k : shape_ok (newGrid st) -> shape_ok (newGrid (up_body st k)).
Proof.
  intros Hg. unfold up_body. cbn [newGrid].
  by apply (shape_ok_fold_set_cell (fun i => i)).
Qed.

Lemma down_body_shape_ok st k : shape_ok (newGrid st) -> shape_ok (newGrid (down_body st k)).
Proof.
  intros Hg. unfold down_body. cbn [newGrid].
  by apply (shape_ok_fold_set_cell (fun i => (3 - i)%nat)).
Qed.

Section Landing.
(** A loop body that stores the reduction of line [k], read back with
    [read], and leaves the other lines alone. *)
Variable body : sweep -> nat -> sweep.
Variable line read : matrix -> nat -> list Z.

Hypothesis body_shape : forall st k,
  shape_ok (newGrid st) -> shape_ok (newGrid (body st k)).
Hypothesis line_frame : forall st k k',
  k <> k' -> line (newGrid (body st k)) k' = line (newGrid st) k'.
Hypothesis read_frame : forall st k k',
  k <> k' -> read (newGrid (body st k)) k' = read (newGrid st) k'.
Hypothesis body_lands : forall st k,
  shape_ok (newGrid st) -> (k < 4)%nat ->
  read (newGrid (body st k)) k = slideAndMergeLine (line (newGrid st) k).

Lemma fold_shape (ks : list nat) :
  forall st, shape_ok (newGrid st) -> shape_ok (newGrid (foldl body st ks)).
Proof.
  induction ks as [|k ks IH]; intros st Hst; [exact Hst|]. simpl. by apply IH, body_shape.
Qed.

Lemma fold_lands (ks : list nat) :
  NoDup ks -> forall st, shape_ok (newGrid st) ->
  forall k, k ∈ ks -> (k < 4)%nat ->
  read (newGrid (foldl body st ks)) k = slideAndMergeLine (line (newGrid st) k).
Proof.
  induction 1 as [|k0 ks Hk0 Hnd IH]; intros st Hst k Hk Hlt;
    [by apply elem_of_nil in Hk|].
  simpl. apply elem_of_cons in Hk as [->|Hk].
  - rewrite (fold_frame body read read_frame) by exact Hk0. by apply body_lands.
  - rewrite IH by (done || by apply body_shape).
    rewrite line_frame; [reflexivity|]. intros ->. by apply Hk0.
Qed.
End Landing.

Lemma four_writes (g : matrix) (k a0 a1 a2 a3 : nat) (v0 v1 v2 v3 : Z) :
  shape_ok g -> (k < 4)%nat ->
  (a0 < 4)%nat -> (a1 < 4)%nat -> (a2 < 4)%nat -> (a3 < 4)%nat ->
  a0 <> a1 -> a0 <> a2 -> a0 <> a3 -> a1 <> a2 -> a1 <> a3 -> a2 <> a3 ->
  let g' := set_cell (set_cell (set_cell (set_cell g a0 k v0) a1 k v1) a2 k v2) a3 k v3 in
  cell_at g' a0 k = v0 /\ cell_at g' a1 k = v1
  /\ cell_at g' a2 k = v2 /\ cell_at g' a3 k = v3.
Proof.
  intros Hg Hk H0 H1 H2 H3 H01 H02 H03 H12 H13 H23 g'. subst g'.
  assert (Hg0 := shape_ok_set_cell g a0 k v0 Hg).
  assert (Hg1 := shape_ok_set_cell _ a1 k v1 Hg0).
  assert (Hg2 := shape_ok_set_cell _ a2 k v2 Hg1).
  repeat split.
  - rewrite !cell_at_set_cell_other by congruence. by apply cell_at_set_cell_same.
  - rewrite !cell_at_set_cell_other by congruence. by apply cell_at_set_cell_same.
  - rewrite !cell_at_set_cell_other by congruence. by apply cell_at_set_cell_same.
  - by apply cell_at_set_cell_same.
Qed.

Lemma left_body_lands st k :
  shape_ok (newGrid st) -> (k < 4)%nat ->
  row_at (newGrid (left_body st k)) k = slideAndMergeLine (row_at (newGrid st) k).
Proof.
  intros [Hlen _] Hk. unfold left_body. rewrite slideAndMergeRow_scan.
  cbn [newGrid slid_row]. apply row_at_insert_eq. lia.
Qed.

Lemma right_body_read_frame st k k' :
  k <> k' -> row_at (newGrid (right_body st k)) k' = row_at (newGrid st) k'.
Proof. intros Hne. unfold right_body. cbn [newGrid]. by apply row_at_insert_ne. Qed.

Lemma right_body_lands st k :
  shape_ok (newGrid st) -> (k < 4)%nat ->
  row_at (newGrid (right_body st k)) k
  = slideAndMergeLine (reverse (row_at (newGrid st) k)).
Proof.
  intros [Hlen _] Hk. unfold right_body. rewrite slideAndMergeRow_scan.
  cbn [newGrid slid_row]. rewrite reverse_involutive. apply row_at_insert_eq. lia.
Qed.

Lemma up_body_lands st k :
  shape_ok (newGrid st) -> (k < 4)%nat ->
  column_at (newGrid (up_body st k)) k = slideAndMergeLine (column_at (newGrid st) k).
Proof.
  intros Hg Hk. unfold up_body. fold (column_at (newGrid st) k).
  rewrite slideAndMergeRow_scan. cbn [newGrid slid_row].
  set (rr := slideAndMergeLine (column_at (newGrid st) k)).
  assert (Hrr : length rr = 4%nat) by (by apply length_slide).
  unfold column_at, idx4. simpl foldl.
  destruct (four_writes (newGrid st) k 0 1 2 3 (at_ rr 0) (at_ rr 1) (at_ rr 2) (at_ rr 3))
    as (-> & -> & -> & ->); try done; try lia.
  by apply list4_eta.
Qed.

Lemma down_body_lands st k :
  shape_ok (newGrid st) -> (k < 4)%nat ->
  reverse (column_at (newGrid (down_body st k)) k)
  = slideAndMergeLine (reverse (column_at (newGrid st) k)).
Proof.
  intros Hg Hk. unfold down_body.
  change [cell_at (newGrid st) 3 k; cell_at (newGrid st) 2 k;
          cell_at (newGrid st) 1 k; cell_at (newGrid st) 0 k]
    with (reverse (column_at (newGrid st) k)).
  rewrite slideAndMergeRow_scan. cbn [newGrid slid_row].
  set (rr := slideAndMergeLine (reverse (column_at (newGrid st) k))).
  assert (Hrr : length rr = 4%nat) by (by apply length_slide).
  unfold column_at at 1. unfold idx4. simpl foldl.
  destruct (four_writes (newGrid st) k 3 2 1 0 (at_ rr 0) (at_ rr 1) (at_ rr 2) (at_ rr 3))
    as (H3 & H2 & H1 & H0); try done; try lia.
  simpl in H0, H1, H2, H3. rewrite H0, H1, H2, H3.
  change (reverse [at_ rr 3; at_ rr 2; at_ rr 1; at_ rr 0])
    with [at_ rr 0; at_ rr 1; at_ rr 2; at_ rr 3].
  by apply list4_eta.
Qed.

Lemma sweep_shape_ok (direction : string) (this : Game2048) :
  shape_ok (grid this) -> shape_ok (newGrid (sweep_lines direction this)).
Proof.
  intros Hg. unfold sweep_lines.
  repeat match goal with |- context [if ?c then _ else _] => destruct c end;
    try exact Hg; apply fold_shape;
    auto using left_body_shape_ok, right_body_shape_ok, up_body_shape_ok, down_body_shape_ok.
Qed.

Lemma elem_of_idx4 (k : nat) : (k < 4)%nat -> k ∈ idx4.
Proof. intros Hk. apply list_elem_of_In, in_seq. lia. Qed.

Lemma sweep_left_lands (this : Game2048) (k : nat) :
  shape_ok (grid this) -> (k < 4)%nat ->
  row_at (newGrid (sweep_lines "left" this)) k = slideAndMergeLine (row_at (grid this) k).
Proof.
  intros Hg Hk.
  apply (fold_lands left_body row_at row_at left_body_shape_ok left_body_frame
           left_body_frame left_body_lands idx4 NoDup_idx4
           (Sweep (grid this) false [] (score this)) Hg k (elem_of_idx4 k Hk) Hk).
Qed.

Lemma sweep_right_lands (this : Game2048) (k : nat) :
  shape_ok (grid this) -> (k < 4)%nat ->
  row_at (newGrid (sweep_lines "right" this)) k
  = slideAndMergeLine (reverse (row_at (grid this) k)).
Proof.
  intros Hg Hk.
  apply (fold_lands right_body (fun g k => reverse (row_at g k)) row_at
           right_body_shape_ok right_body_frame right_body_read_frame right_body_lands
           idx4 NoDup_idx4 (Sweep (grid this) false [] (score this)) Hg k
           (elem_of_idx4 k Hk) Hk).
Qed.

Lemma sweep_up_lands (this : Game2048) (k : nat) :
  shape_ok (grid this) -> (k < 4)%nat ->
  column_at (newGrid (sweep_lines "up" this)) k
  = slideAndMergeLine (column_at (grid this) k).
Proof.
  intros Hg Hk.
  apply (fold_lands up_body column_at column_at up_body_shape_ok up_body_frame
           up_body_frame up_body_lands idx4 NoDup_idx4
           (Sweep (grid this) false [] (score this)) Hg k (elem_of_idx4 k Hk) Hk).
Qed.

Lemma sweep_down_lands (this : Game2048) (k : nat) :
  shape_ok (grid this) -> (k < 4)%nat ->
  reverse (column_at (newGrid (sweep_lines "down" this)) k)
  = slideAndMergeLine (reverse (column_at (grid this) k)).
Proof.
  intros Hg Hk.
  apply (fold_lands down_body (fun g k => reverse (column_at g k))
           (fun g k => reverse (column_at g k))
           down_body_shape_ok down_body_frame down_body_frame down_body_lands
           idx4 NoDup_idx4 (Sweep (grid this) false [] (score this)) Hg k
           (elem_of_idx4 k Hk) Hk).
Qed.

(** On a 4x4 grid the sweeps to the left, up and down store, for each
    line, the reduction of that line read toward the direction: every row
    read from the left, every column read from the top, every column read
    from the bottom.  The tiles land against the edge the direction names,
    in order, followed by the zeros. *)
Theorem sweep_lands (this : Game2048) (k : nat) :
  shape_ok (grid this) -> (k < 4)%nat ->
  row_at (newGrid (sweep_lines "left" this)) k = slideAndMergeLine (row_at (grid this) k)
  /\ column_at (newGrid (sweep_lines "up" this)) k
     = slideAndMergeLine (column_at (grid this) k)
  /\ reverse (column_at (newGrid (sweep_lines "down" this)) k)
     = slideAndMergeLine (reverse (column_at (grid this) k)).
Proof.
  intros Hg Hk. split; [|split].
  - by apply sweep_left_lands.
  - by apply sweep_up_lands.
  - by apply sweep_down_lands.
Qed.

Lemma sweep_lands_witness :
  column_at (newGrid (sweep_lines "up" resting_game)) 0
  = slideAndMergeLine (column_at (grid resting_game) 0).
Proof.
  apply (sweep_lands resting_game 0); [apply shape_ok_top_row | simpl; lia].
Defined.

(** ** A move that changes the grid has room for a tile *)

Lemma compact_full (l : list Z) : length (compact l) = length l -> compact l = l.
Proof.
  induction l as [|a l IH]; [reflexivity|].
  unfold compact in *. simpl. destruct (a =? 0); simpl; intros Hlen.
  - pose proof (List.filter_length_le (fun v => negb (v =? 0)) l). lia.
  - f_equal. apply IH. lia.
Qed.

Lemma merge_at_nil_once (l : list Z) : forall i, merge_at i l = [] -> merge_once l = l.
Proof.
  induction l as [| a | a b t IHt IHbt] using pair_ind; intros i; try reflexivity.
  rewrite merge_once_pair.
  change (merge_at i (a :: b :: t))
    with (if a =? b then i :: merge_at (S i) t else merge_at (S i) (b :: t)).
  destruct (a =? b); [discriminate|]. intros Hnil. f_equal. by apply (IHbt (S i)).
Qed.

(** When the reduction changes a line of four cells, the last cell of the
    reduced line is empty. *)
Lemma slide_changed_last_zero (l : list Z) :
  length l = 4%nat -> slideAndMergeLine l <> l -> at_ (slideAndMergeLine l) 3 = 0.
Proof.
  intros Hlen Hchanged.
  pose proof (length_merge_once (compact l) 0) as Hm.
  pose proof (length_compact l) as Hc.
  destruct (decide (length (merge_once (compact l)) = 4%nat)) as [Hfull|Hshort].
  - exfalso. apply Hchanged.
    assert (Hcl : compact l = l) by (apply compact_full; lia).
    assert (Hnil : merge_at 0 (compact l) = []) by (apply length_zero_iff_nil; lia).
    unfold slideAndMergeLine, pad4.
    rewrite (merge_at_nil_once _ _ Hnil), Hcl, Hlen. simpl. by rewrite app_nil_r.
  - unfold slideAndMergeLine, pad4, at_.
    rewrite lookup_app_r by lia.
    rewrite lookup_replicate_2 by lia. reflexivity.
Qed.

Lemma existsb_lines (f : list Z -> bool) (line : nat -> list Z) :
  existsb f (map line idx4) = true -> exists k, (k < 4)%nat /\ f (line k) = true.
Proof.
  rewrite existsb_map_compose. intros H.
  apply (existsb_idx4 (fun k => f (line k))) in H. exact H.
Qed.

Lemma differ_true (a b : list Z) : differ a b = true -> a <> b.
Proof. unfold differ. intros H. by apply negb_true_iff, bool_decide_eq_false in H. Qed.

Lemma has_empty_at (g : matrix) (i j : nat) :
  in_grid i j -> cell_at g i j = 0 -> has_empty g.
Proof. intros Hin Hz. by exists i, j. Qed.

Lemma length_row_at_4 (g : matrix) (k : nat) :
  shape_ok g -> (k < 4)%nat -> length (row_at g k) = 4%nat.
Proof. intros Hg Hk. apply length_row_at; [exact Hg|]. destruct Hg as [-> _]. exact Hk. Qed.

Lemma column_at_last (g : matrix) (k : nat) : at_ (column_at g k) 3 = cell_at g 3 k.
Proof. reflexivity. Qed.

Lemma column_at_first (g : matrix) (k : nat) :
  at_ (reverse (column_at g k)) 3 = cell_at g 0 k.
Proof. reflexivity. Qed.

(** After a sweep that reports a move, the stored grid has an empty cell. *)
Lemma moved_has_empty (direction : string) (this : Game2048) :
  shape_ok (grid this) -> moved (sweep_lines direction this) = true ->
  has_empty (newGrid (sweep_lines direction this)).
Proof.
  intros Hg Hmoved. pose proof Hmoved as Hlines.
  rewrite sweep_moved_lines in Hlines. unfold lines_toward in Hlines.
  destruct (direction =? "left")%string eqn:Hl.
  { apply String.eqb_eq in Hl as ->.
    apply existsb_lines in Hlines as (k & Hk & Hd). apply differ_true in Hd.
    apply slide_changed_last_zero in Hd; [|by apply length_row_at_4].
    apply (has_empty_at _ k 3); [split; lia|].
    unfold cell_at. by rewrite sweep_left_lands. }
  destruct (direction =? "right")%string eqn:Hr.
  { apply String.eqb_eq in Hr as ->.
    apply (existsb_lines _ (fun i => reverse (row_at (grid this) i))) in Hlines
      as (k & Hk & Hd). apply differ_true in Hd.
    apply slide_changed_last_zero in Hd;
      [|rewrite length_reverse; by apply length_row_at_4].
    apply (has_empty_at _ k 3); [split; lia|].
    unfold cell_at. by rewrite sweep_right_lands. }
  destruct (direction =? "up")%string eqn:Hu.
  { apply String.eqb_eq in Hu as ->.
    apply existsb_lines in Hlines as (k & Hk & Hd). apply differ_true in Hd.
    apply slide_changed_last_zero in Hd; [|reflexivity].
    apply (has_empty_at _ 3 k); [split; lia|].
    rewrite <- (sweep_up_lands this k Hg Hk), column_at_last in Hd. exact Hd. }
  destruct (direction =? "down")%string eqn:Hdn.
  { apply String.eqb_eq in Hdn as ->.
    apply (existsb_lines _ (fun j => reverse (column_at (grid this) j))) in Hlines
      as (k & Hk & Hd). apply differ_true in Hd.
    apply slide_changed_last_zero in Hd; [|reflexivity].
    apply (has_empty_at _ 0 k); [split; lia|].
    rewrite <- (sweep_down_lands this k Hg Hk), column_at_first in Hd. exact Hd. }
  discriminate.
Qed.

(** ** The sum of the tiles *)

Lemma sum_Z_reverse (l : list Z) : sum_Z (reverse l) = sum_Z l.
Proof.
  induction l as [|a l IH]; [reflexivity|].
  rewrite reverse_cons, sum_Z_app, IH. simpl. lia.
Qed.

Lemma shape_ok_inv (g : matrix) :
  shape_ok g ->
  exists a0 a1 a2 a3 b0 b1 b2 b3 c0 c1 c2 c3 d0 d1 d2 d3 : Z,
    g = [[a0; a1; a2; a3]; [b0; b1; b2; b3]; [c0; c1; c2; c3]; [d0; d1; d2; d3]].
Proof.
  intros [Hlen Hrows].
  destruct g as [|r0 [|r1 [|r2 [|r3 [|r4 g]]]]]; try discriminate. clear Hlen.
  repeat match goal with H : Forall _ (_ :: _) |- _ => apply Forall_cons in H as [? H] end.
  repeat match goal with
    | H : length ?r = 4%nat |- _ =>
        destruct r as [|? [|? [|? [|? [|? ?]]]]]; try discriminate; clear H
    end.
  by repeat eexists.
Qed.

Lemma grid_sum_rows (g : matrix) :
  shape_ok g -> grid_sum g = sum_Z (map (fun k => sum_Z (row_at g k)) idx4).
Proof.
  intros Hg. destruct (shape_ok_inv g Hg)
    as (a0&a1&a2&a3&b0&b1&b2&b3&c0&c1&c2&c3&d0&d1&d2&d3&->).
  reflexivity.
Qed.

Lemma grid_sum_columns (g : matrix) :
  shape_ok g -> grid_sum g = sum_Z (map (fun k => sum_Z (column_at g k)) idx4).
Proof.
  intros Hg. destruct (shape_ok_inv g Hg)
    as (a0&a1&a2&a3&b0&b1&b2&b3&c0&c1&c2&c3&d0&d1&d2&d3&->).
  unfold grid_sum, column_at, cell_at, row_at, at_. simpl. lia.
Qed.

Lemma map_idx4_agree (f h : nat -> Z) :
  (forall k, (k < 4)%nat -> f k = h k) -> map f idx4 = map h idx4.
Proof.
  intros H. unfold idx4. simpl. by rewrite !H by lia.
Qed.

(** The sweep of a move keeps the sum of the tiles. *)
Lemma sweep_grid_sum (direction : string) (this : Game2048) :
  shape_ok (grid this) ->
  grid_sum (newGrid (sweep_lines direction this)) = grid_sum (grid this).
Proof.
  intros Hg. pose proof (sweep_shape_ok direction this Hg) as Hnew.
  destruct (direction =? "left")%string eqn:Hl.
  { apply String.eqb_eq in Hl as ->. rewrite !grid_sum_rows by done.
    f_equal. apply map_idx4_agree. intros k Hk.
    by rewrite sweep_left_lands, sum_Z_slide. }
  destruct (direction =? "right")%string eqn:Hr.
  { apply String.eqb_eq in Hr as ->. rewrite !grid_sum_rows by done.
    f_equal. apply map_idx4_agree. intros k Hk.
    by rewrite sweep_right_lands, sum_Z_slide, sum_Z_reverse. }
  destruct (direction =? "up")%string eqn:Hu.
  { apply String.eqb_eq in Hu as ->. rewrite !grid_sum_columns by done.
    f_equal. apply map_idx4_agree. intros k Hk.
    by rewrite sweep_up_lands, sum_Z_slide. }
  destruct (direction =? "down")%string eqn:Hd.
  { apply String.eqb_eq in Hd as ->. rewrite !grid_sum_columns by done.
    f_equal. apply map_idx4_agree. intros k Hk.
    rewrite <- (sum_Z_reverse (column_at (newGrid _) k)).
    by rewrite sweep_down_lands, sum_Z_slide, sum_Z_reverse. }
  unfold sweep_lines. by rewrite Hl, Hr, Hu, Hd.
Qed.

Lemma grid_sum_set_cell (g : matrix) (i j : nat) (v : Z) :
  shape_ok g -> in_grid i j ->
  grid_sum (set_cell g i j v) = grid_sum g - cell_at g i j + v.
Proof.
  intros Hg [Hi Hj]. destruct (shape_ok_inv g Hg)
    as (a0&a1&a2&a3&b0&b1&b2&b3&c0&c1&c2&c3&d0&d1&d2&d3&->).
  destruct i as [|[|[|[|i]]]]; try lia; destruct j as [|[|[|[|j]]]]; try lia;
    unfold grid_sum, set_cell, cell_at, row_at, at_; simpl; lia.
Qed.

Lemma move_sum_eq (direction : string) (rnd1 rnd2 : Q) (this : Game2048) :
  shape_ok (grid this) -> unit_draw rnd1 ->
  grid_sum (grid (after (move direction rnd1 rnd2 this)))
    = grid_sum (grid this)
      + (if didMove (move direction rnd1 rnd2 this) then random_value rnd2 else 0).
Proof.
  intros Hg Hdraw.
  destruct (move_cases direction rnd1 rnd2 this)
    as [(Hstill & Hafter & _) | Hmoved].
  - rewrite Hstill, Hafter. simpl. lia.
  - assert (Hm : didMove (move direction rnd1 rnd2 this) = true
                 /\ grid (after (move direction rnd1 rnd2 this))
                    = grid (spawned direction rnd1 rnd2 this)).
    { destruct Hmoved as [(Hm & _ & _ & -> & _) | (Hm & _ & -> & _)]; by split. }
    destruct Hm as [Hm ->]. rewrite Hm.
    rewrite move_didMove in Hm. pose proof (moved_has_empty direction this Hg Hm) as He.
    pose proof (sweep_shape_ok direction this Hg) as Hnew.
    unfold spawned.
    match goal with |- context [addRandomTile rnd1 rnd2 ?t] =>
      destruct (addRandomTile_fills_one_cell rnd1 rnd2 t Hnew He Hdraw)
        as (i & j & Hin & Hz & -> & _) end.
    cbn [grid] in *. rewrite grid_sum_set_cell by done.
    rewrite Hz, sweep_grid_sum by done. lia.
Qed.

(** On a 4x4 grid and for a draw of [Math.random()], a move that reports a
    change keeps every tile value in the grid but for the merges, which add
    nothing, and always spawns its tile: the sum of the cells grows by the
    value spawned, 2 or 4, and the stored grid had an empty cell for it.  A
    move that reports no change leaves the sum as it is. *)
Theorem move_grid_sum (direction : string) (rnd1 rnd2 : Q) (this : Game2048) :
  shape_ok (grid this) -> unit_draw rnd1 ->
  grid_sum (grid (after (move direction rnd1 rnd2 this)))
    = grid_sum (grid this)
      + (if didMove (move direction rnd1 rnd2 this) then random_value rnd2 else 0)
  /\ (random_value rnd2 = 2 \/ random_value rnd2 = 4)
  /\ (didMove (move direction rnd1 rnd2 this) = true ->
      has_empty (newGrid (sweep_lines direction this))
      /\ S (length (emptyCells (grid (after (move direction rnd1 rnd2 this)))))
         = length (emptyCells (newGrid (sweep_lines direction this)))).
Proof.
  intros Hg Hdraw.
  split; [by apply move_sum_eq|]. split; [apply random_value_2_or_4|].
  intros Hm. rewrite move_didMove in Hm.
  pose proof (moved_has_empty direction this Hg Hm) as He.
  split; [exact He|].
  pose proof (sweep_shape_ok direction this Hg) as Hnew.
  assert (Hgrid : grid (after (move direction rnd1 rnd2 this))
                  = grid (spawned direction rnd1 rnd2 this)).
  { rewrite <- (move_didMove direction rnd1 rnd2) in Hm.
    destruct (move_cases direction rnd1 rnd2 this)
      as [(Hstill & _) | [(_ & _ & _ & -> & _) | (_ & _ & -> & _)]];
      [congruence | done | done]. }
  rewrite Hgrid. unfold spawned.
  apply addRandomTile_one_less; [exact Hnew | | exact Hdraw].
  cbn [grid]. intros Hnil. by apply emptyCells_nil in Hnil.
Qed.

Lemma move_grid_sum_witness :
  grid_sum (grid (after (move "right" (1 # 2) 0 resting_game)))
  = grid_sum (grid resting_game)
    + (if didMove (move "right" (1 # 2) 0 resting_game) then random_value 0 else 0).
Proof.
  apply (move_grid_sum "right" (1 # 2) 0 resting_game);
    [apply shape_ok_top_row | apply unit_draw_half].
Defined.

(** * Game over and the moves that remain *)

Lemma isGameOver_true (this : Game2048) :
  isGameOver this = true
  <-> ~ has_empty (grid this) /\ ~ has_equal_right_or_below (grid this).
Proof.
  unfold isGameOver. split.
  - intros Hover.
    match type of Hover with (if ?c then _ else _) = _ => destruct c eqn:Hscan end;
      [discriminate|].
    match type of Hover with (if ?c then _ else _) = _ => destruct c eqn:Hscan' end;
      [discriminate|].
    split; intros H.
    + apply empty_scan in H.
      assert (Hbad : true = false) by (rewrite <- H at 1; exact Hscan). discriminate.
    + apply pair_scan in H.
      assert (Hbad : true = false) by (rewrite <- H at 1; exact Hscan'). discriminate.
  - intros [Hfull Hnone].
    match goal with |- (if ?c then _ else _) = _ => destruct c eqn:Hscan end.
    { exfalso. apply Hfull. by apply empty_scan. }
    match goal with |- (if ?c then _ else _) = _ => destruct c eqn:Hscan' end.
    { exfalso. apply Hnone. by apply pair_scan. }
    reflexivity.
Qed.

(** Four tiles in a line, no two neighbours equal: the reduction leaves the
    line as it is. *)
Lemma still4 (a b c d : Z) :
  a <> 0 -> b <> 0 -> c <> 0 -> d <> 0 -> a <> b -> b <> c -> c <> d ->
  slideAndMergeLine [a; b; c; d] = [a; b; c; d].
Proof.
  intros Ha Hb Hc Hd Hab Hbc Hcd.
  apply Z.eqb_neq in Ha, Hb, Hc, Hd, Hab, Hbc, Hcd.
  unfold slideAndMergeLine, compact. simpl List.filter.
  rewrite Ha, Hb, Hc, Hd. simpl. by rewrite Hab, Hbc, Hcd.
Qed.

Lemma row_at_cells (g : matrix) (k : nat) :
  shape_ok g -> (k < 4)%nat ->
  row_at g k = [cell_at g k 0; cell_at g k 1; cell_at g k 2; cell_at g k 3].
Proof.
  intros Hg Hk. unfold cell_at. symmetry. by apply list4_eta, length_row_at_4.
Qed.

(** On a full grid without equal neighbours the reduction changes no line,
    from whichever end the line is read. *)
Lemma blocked_lines (g : matrix) :
  shape_ok g -> ~ has_empty g -> ~ has_equal_right_or_below g ->
  forall k, (k < 4)%nat ->
    slideAndMergeLine (row_at g k) = row_at g k
    /\ slideAndMergeLine (reverse (row_at g k)) = reverse (row_at g k)
    /\ slideAndMergeLine (column_at g k) = column_at g k
    /\ slideAndMergeLine (reverse (column_at g k)) = reverse (column_at g k).
Proof.
  intros Hg Hfull Hnone k Hk.
  assert (Hnz : forall i j, (i < 4)%nat -> (j < 4)%nat -> cell_at g i j <> 0).
  { intros i j Hi Hj Hz. apply Hfull. by exists i, j. }
  assert (Hright : forall i j, (i < 4)%nat -> (j < 3)%nat ->
                     cell_at g i (j + 1) <> cell_at g i j).
  { intros i j Hi Hj Heq. apply Hnone. exists i, j. split; [split; lia|]. by right. }
  assert (Hbelow : forall i j, (i < 3)%nat -> (j < 4)%nat ->
                     cell_at g (i + 1) j <> cell_at g i j).
  { intros i j Hi Hj Heq. apply Hnone. exists i, j. split; [split; lia|]. by left. }
  rewrite (row_at_cells g k Hg Hk). unfold column_at.
  change (reverse [cell_at g k 0; cell_at g k 1; cell_at g k 2; cell_at g k 3])
    with [cell_at g k 3; cell_at g k 2; cell_at g k 1; cell_at g k 0].
  change (reverse [cell_at g 0 k; cell_at g 1 k; cell_at g 2 k; cell_at g 3 k])
    with [cell_at g 3 k; cell_at g 2 k; cell_at g 1 k; cell_at g 0 k].
  pose proof (Hright k 0%nat Hk ltac:(lia)). pose proof (Hright k 1%nat Hk ltac:(lia)).
  pose proof (Hright k 2%nat Hk ltac:(lia)).
  pose proof (Hbelow 0%nat k ltac:(lia) Hk). pose proof (Hbelow 1%nat k ltac:(lia) Hk).
  pose proof (Hbelow 2%nat k ltac:(lia) Hk).
  cbn [Nat.add] in *.
  repeat split; apply still4; try (apply Hnz; lia); congruence.
Qed.

Lemma existsb_idx4_false (f : nat -> bool) :
  (forall k, (k < 4)%nat -> f k = false) -> existsb f idx4 = false.
Proof. intros H. unfold idx4. simpl. by rewrite !H by lia. Qed.

Lemma differ_same (l : list Z) : differ l l = false.
Proof. unfold differ. by rewrite bool_decide_eq_true_2. Qed.

Lemma fold_still_merged (body : sweep -> nat -> sweep) (line : matrix -> nat -> list Z)
    (place : nat -> nat -> cell) (ks : list nat) (st : sweep) :
  (forall st k, moved (body st k)
     = moved st || differ (slideAndMergeLine (line (newGrid st) k)) (line (newGrid st) k)) ->
  (forall st k k', k <> k' -> line (newGrid (body st k)) k' = line (newGrid st) k') ->
  (forall st k, mergedCells (body st k)
     = mergedCells st ++ map (place k) (merge_at 0 (compact (line (newGrid st) k)))) ->
  NoDup ks -> mergedCells st = [] -> moved (foldl body st ks) = false ->
  mergedCells (foldl body st ks) = [].
Proof.
  intros Hmoved Hframe Hmerged Hnd Hst Hstill.
  rewrite (fold_merged body line Hframe place Hmerged) by exact Hnd.
  rewrite (fold_moved body line Hmoved Hframe) in Hstill by exact Hnd.
  apply orb_false_iff in Hstill as [_ Hstill]. rewrite Hst. simpl.
  clear Hnd. induction ks as [|k ks IH]; [reflexivity|].
  simpl in Hstill. apply orb_false_iff in Hstill as [Hk Hks].
  simpl. rewrite (IH Hks), app_nil_r.
  unfold differ in Hk. apply negb_false_iff, bool_decide_eq_true in Hk.
  apply unchanged_no_merge in Hk as [-> _]. reflexivity.
Qed.

(** A sweep that reports no move reports no merged cell. *)
Lemma sweep_still_merged (direction : string) (this : Game2048) :
  moved (sweep_lines direction this) = false ->
  mergedCells (sweep_lines direction this) = [].
Proof.
  unfold sweep_lines.
  destruct (direction =? "left")%string.
  { apply (fold_still_merged left_body row_at (fun k p => Cell k p));
      auto using left_body_moved, left_body_frame, left_body_merged, NoDup_idx4. }
  destruct (direction =? "right")%string.
  { apply (fold_still_merged right_body (fun g k => reverse (row_at g k))
             (fun k p => Cell k (3 - p)));
      auto using right_body_moved, right_body_frame, right_body_merged, NoDup_idx4. }
  destruct (direction =? "up")%string.
  { apply (fold_still_merged up_body column_at (fun k p => Cell p k));
      auto using up_body_moved, up_body_frame, up_body_merged, NoDup_idx4. }
  destruct (direction =? "down")%string.
  { apply (fold_still_merged down_body (fun g k => reverse (column_at g k))
             (fun k p => Cell (3 - p) k));
      auto using down_body_moved, down_body_frame, down_body_merged, NoDup_idx4. }
  reflexivity.
Qed.

Lemma game_over_sweep_still (direction : string) (this : Game2048) :
  shape_ok (grid this) -> isGameOver this = true ->
  moved (sweep_lines direction this) = false.
Proof.
  intros Hg Hover. apply isGameOver_true in Hover as [Hfull Hnone].
  pose proof (blocked_lines (grid this) Hg Hfull Hnone) as Hlines.
  rewrite sweep_moved_lines. unfold lines_toward.
  repeat match goal with |- context [if ?c then _ else _] => destruct c end;
    try reflexivity; rewrite existsb_map_compose; apply existsb_idx4_false;
    intros k Hk; destruct (Hlines k Hk) as (H1 & H2 & H3 & H4);
    rewrite ?H1, ?H2, ?H3, ?H4; apply differ_same.
Qed.

(** When [isGameOver] holds of a 4x4 grid, no call of [move] changes
    anything, whatever the direction: the grid is full with no two equal
    neighbours, each line is its own reduction, and the move reports no
    change, spawns no tile and leaves grid and score as they are. *)
Theorem game_over_blocks_moves (direction : string) (rnd1 rnd2 : Q) (this : Game2048) :
  shape_ok (grid this) -> isGameOver this = true ->
  didMove (move direction rnd1 rnd2 this) = false
  /\ grid (after (move direction rnd1 rnd2 this)) = grid this
  /\ score (after (move direction rnd1 rnd2 this)) = score this
  /\ mergedPositions (move direction rnd1 rnd2 this) = [].
Proof.
  intros Hg Hover.
  pose proof (game_over_sweep_still direction this Hg Hover) as Hsweep.
  assert (Hstill : didMove (move direction rnd1 rnd2 this) = false)
    by (by rewrite move_didMove).
  destruct (move_still direction rnd1 rnd2 this Hstill) as [Hafter _].
  split; [exact Hstill|]. rewrite Hafter. split; [reflexivity|]. split; [reflexivity|].
  rewrite move_mergedPositions. by apply sweep_still_merged.
Qed.

Lemma shape_ok_stuck : shape_ok (grid stuck_game).
Proof. split; [reflexivity | by repeat constructor]. Defined.

Lemma game_over_blocks_moves_witness :
  didMove (move "left" 0 0 stuck_game) = false.
Proof.
  apply (game_over_blocks_moves "left" 0 0 stuck_game);
    [apply shape_ok_stuck | reflexivity].
Defined.

Lemma merge_at_pair (l : list Z) :
  forall (p i : nat) (a : Z),
    l !! p = Some a -> l !! S p = Some a -> merge_at i l <> [].
Proof.
  induction l as [| x | x y t IHt IHbt] using pair_ind; intros p i a Hp Hq.
  - discriminate.
  - destruct p; discriminate.
  - change (merge_at i (x :: y :: t))
      with (if x =? y then i :: merge_at (S i) t else merge_at (S i) (y :: t)).
    destruct (x =? y) eqn:Hxy; [discriminate|].
    destruct p as [|p].
    + simpl in Hp, Hq. apply Z.eqb_neq in Hxy. congruence.
    + by apply (IHbt p (S i) a).
Qed.

Lemma compact_has (l : list Z) (x : Z) : x ∈ l -> x <> 0 -> compact l <> [].
Proof.
  intros Hx Hnz Hnil.
  assert (Hin : x ∈ compact l).
  { apply list_elem_of_In, filter_In. split; [by apply list_elem_of_In|].
    by apply negb_true_iff, Z.eqb_neq. }
  rewrite Hnil in Hin. by apply elem_of_nil in Hin.
Qed.

(** The reduced line of a line with a tile starts with a tile. *)
Lemma slide_head (l : list Z) :
  compact l <> [] -> exists h rest, slideAndMergeLine l = h :: rest /\ h <> 0.
Proof.
  intros Hne. pose proof (merge_once_nonzero _ (compact_nonzero l)) as Hnz.
  unfold slideAndMergeLine, pad4.
  destruct (merge_once (compact l)) as [|h m] eqn:Hm.
  - exfalso. pose proof (length_merge_once (compact l) 0) as Hlen.
    rewrite Hm in Hlen. simpl in Hlen.
    destruct (compact l) as [|c [|c' cs]] eqn:Hc; [done | discriminate |].
    rewrite merge_once_pair in Hm. by destruct (c =? c').
  - apply Forall_cons in Hnz as [Hh _]. by exists h, (m ++ replicate (4 - length (h :: m)) 0).
Qed.

Lemma slide_short_last (l : list Z) :
  (length (compact l) < 4)%nat -> at_ (slideAndMergeLine l) 3 = 0.
Proof.
  intros Hshort. pose proof (length_merge_once (compact l) 0) as Hm.
  unfold slideAndMergeLine, pad4, at_.
  rewrite lookup_app_r by lia. rewrite lookup_replicate_2 by lia. reflexivity.
Qed.

(** A line of four cells holding both an empty cell and a tile is changed
    by the reduction, read from one end or from the other. *)
Lemma mixed_line_moves (a b c d : Z) :
  (a = 0 \/ b = 0 \/ c = 0 \/ d = 0) -> (a <> 0 \/ b <> 0 \/ c <> 0 \/ d <> 0) ->
  slideAndMergeLine [a; b; c; d] <> [a; b; c; d]
  \/ slideAndMergeLine [d; c; b; a] <> [d; c; b; a].
Proof.
  intros Hzero Htile.
  assert (Hne : compact [a; b; c; d] <> [] /\ compact [d; c; b; a] <> []).
  { destruct Htile as [H | [H | [H | H]]]; split;
      match goal with |- compact ?l <> [] =>
        first [ apply (compact_has l a); [apply list_elem_of_In; simpl; auto | exact H]
              | apply (compact_has l b); [apply list_elem_of_In; simpl; auto | exact H]
              | apply (compact_has l c); [apply list_elem_of_In; simpl; auto | exact H]
              | apply (compact_has l d); [apply list_elem_of_In; simpl; auto | exact H] ] end. }
  destruct Hne as [Hne Hne'].
  destruct (decide (a = 0)) as [->|Ha].
  { left. destruct (slide_head _ Hne) as (h & rest & -> & Hh). congruence. }
  destruct (decide (d = 0)) as [->|Hd].
  { right. destruct (slide_head _ Hne') as (h & rest & -> & Hh). congruence. }
  left. intros Hsame.
  assert (Hlast : at_ (slideAndMergeLine [a; b; c; d]) 3 = 0).
  { apply slide_short_last.
    destruct Hzero as [H | [H | [H | H]]]; subst; try done;
      unfold compact; simpl;
      repeat match goal with |- context [?x =? 0] => destruct (x =? 0) end; simpl; lia. }
  rewrite Hsame in Hlast. by simpl in Hlast.
Qed.

(** A line of four tiles with two equal neighbours is changed by the
    reduction. *)
Lemma pair_line_moves (l : list Z) (p : nat) (a : Z) :
  Forall (fun v => v <> 0) l -> l !! p = Some a -> l !! S p = Some a ->
  slideAndMergeLine l <> l.
Proof.
  intros Hnz Hp Hq Hsame. apply unchanged_no_merge in Hsame as [Hnil _].
  rewrite (compact_id l Hnz) in Hnil. by apply (merge_at_pair l p 0 a).
Qed.

Lemma sweep_moves (direction : string) (this : Game2048) (line : list Z) :
  line ∈ lines_toward direction (grid this) -> slideAndMergeLine line <> line ->
  moved (sweep_lines direction this) = true.
Proof.
  intros Hin Hchanged. rewrite sweep_moved_lines. apply existsb_exists.
  exists line. split; [by apply list_elem_of_In|].
  unfold differ. by apply negb_true_iff, bool_decide_eq_false.
Qed.

Lemma line_left (g : matrix) (k : nat) :
  (k < 4)%nat -> row_at g k ∈ lines_toward "left" g.
Proof.
  intros Hk. change (lines_toward "left" g) with (map (fun i => row_at g i) idx4).
  apply list_elem_of_fmap. exists k. split; [reflexivity | by apply elem_of_idx4].
Qed.

Lemma line_right (g : matrix) (k : nat) :
  (k < 4)%nat -> reverse (row_at g k) ∈ lines_toward "right" g.
Proof.
  intros Hk. change (lines_toward "right" g) with (map (fun i => reverse (row_at g i)) idx4).
  apply list_elem_of_fmap. exists k. split; [reflexivity | by apply elem_of_idx4].
Qed.

Lemma line_up (g : matrix) (k : nat) :
  (k < 4)%nat -> column_at g k ∈ lines_toward "up" g.
Proof.
  intros Hk. change (lines_toward "up" g) with (map (fun j => column_at g j) idx4).
  apply list_elem_of_fmap. exists k. split; [reflexivity | by apply elem_of_idx4].
Qed.

Lemma line_down (g : matrix) (k : nat) :
  (k < 4)%nat -> reverse (column_at g k) ∈ lines_toward "down" g.
Proof.
  intros Hk. change (lines_toward "down" g)
    with (map (fun j => reverse (column_at g j)) idx4).
  apply list_elem_of_fmap. exists k. split; [reflexivity | by apply elem_of_idx4].
Qed.

Lemma column_at_lookup (g : matrix) (i j : nat) :
  (i < 4)%nat -> column_at g j !! i = Some (cell_at g i j).
Proof. intros Hi. destruct i as [|[|[|[|i]]]]; try lia; reflexivity. Qed.

Lemma cells4_lookup (c0 c1 c2 c3 : Z) (f : nat -> Z) (i : nat) :
  (i < 4)%nat -> f 0%nat = c0 -> f 1%nat = c1 -> f 2%nat = c2 -> f 3%nat = c3 ->
  [c0; c1; c2; c3] !! i = Some (f i).
Proof.
  intros Hi <- <- <- <-. destruct i as [|[|[|[|i]]]]; try lia; reflexivity.
Qed.

Lemma one_of_four (f : nat -> Z) (P : Z -> Prop) (i : nat) :
  (i < 4)%nat -> P (f i) -> P (f 0%nat) \/ P (f 1%nat) \/ P (f 2%nat) \/ P (f 3%nat).
Proof. intros Hi HP. destruct i as [|[|[|[|i]]]]; try lia; auto. Qed.

Lemma didMove_of_line (direction : string) (this : Game2048) (line : list Z) :
  line ∈ lines_toward direction (grid this) -> slideAndMergeLine line <> line ->
  forall rnd1 rnd2, didMove (move direction rnd1 rnd2 this) = true.
Proof.
  intros Hin Hchanged rnd1 rnd2. rewrite move_didMove. by apply (sweep_moves _ _ line).
Qed.

Lemma some_sweep_moves (this : Game2048) :
  shape_ok (grid this) -> isGameOver this = false ->
  (exists i j, in_grid i j /\ cell_at (grid this) i j <> 0) ->
  exists direction,
    (direction = "left" \/ direction = "right" \/ direction = "up" \/ direction = "down")%string
    /\ moved (sweep_lines direction this) = true.
Proof.
  intros Hg Hnot (i1 & j1 & [Hi1 Hj1] & Htile).
  set (g := grid this) in *.
  assert (Hmixed : forall (line : nat -> Z),
            (exists p, (p < 4)%nat /\ line p = 0) ->
            (exists q, (q < 4)%nat /\ line q <> 0) ->
            slideAndMergeLine [line 0; line 1; line 2; line 3]%nat
              <> [line 0; line 1; line 2; line 3]%nat
            \/ slideAndMergeLine [line 3; line 2; line 1; line 0]%nat
               <> [line 3; line 2; line 1; line 0]%nat).
  { intros line (p & Hp & Hz) (q & Hq & Hnz). apply mixed_line_moves.
    - apply (one_of_four line (fun v => v = 0) p Hp Hz).
    - apply (one_of_four line (fun v => v <> 0) q Hq Hnz). }
  assert (Hrow : forall k, (k < 4)%nat ->
            (exists p, (p < 4)%nat /\ cell_at g k p = 0) ->
            (exists q, (q < 4)%nat /\ cell_at g k q <> 0) ->
            exists direction,
              (direction = "left" \/ direction = "right"
               \/ direction = "up" \/ direction = "down")%string
              /\ moved (sweep_lines direction this) = true).
  { intros k Hk Hz Hnz.
    destruct (Hmixed (fun p => cell_at g k p) Hz Hnz) as [Hch|Hch].
    - exists "left"%string. split; [auto|].
      apply (sweep_moves "left" this (row_at g k)); [by apply line_left|].
      by rewrite (row_at_cells g k Hg Hk).
    - exists "right"%string. split; [auto|].
      apply (sweep_moves "right" this (reverse (row_at g k))); [by apply line_right|].
      by rewrite (row_at_cells g k Hg Hk). }
  assert (Hcol : forall k, (k < 4)%nat ->
            (exists p, (p < 4)%nat /\ cell_at g p k = 0) ->
            (exists q, (q < 4)%nat /\ cell_at g q k <> 0) ->
            exists direction,
              (direction = "left" \/ direction = "right"
               \/ direction = "up" \/ direction = "down")%string
              /\ moved (sweep_lines direction this) = true).
  { intros k Hk Hz Hnz.
    destruct (Hmixed (fun p => cell_at g p k) Hz Hnz) as [Hch|Hch].
    - exists "up"%string. split; [auto|].
      by apply (sweep_moves "up" this (column_at g k)); [apply line_up|].
    - exists "down"%string. split; [auto|].
      by apply (sweep_moves "down" this (reverse (column_at g k))); [apply line_down|]. }
  destruct (emptyCells g) as [|c cs] eqn:Hcells.
  - (* no empty cell: two equal neighbours *)
    assert (Hfull : ~ has_empty g) by (by apply emptyCells_nil).
    assert (Hpair : has_equal_right_or_below g).
    { destruct (isGameOver this) eqn:Hover; [discriminate|].
      apply pair_scan. unfold isGameOver in Hover.
      match type of Hover with (if ?c then _ else _) = _ => destruct c eqn:Hscan end.
      { exfalso. apply Hfull. by apply empty_scan. }
      match type of Hover with (if ?c then _ else _) = _ => destruct c eqn:Hscan' end;
        [exact Hscan' | discriminate]. }
    assert (Hnz : forall i j, (i < 4)%nat -> (j < 4)%nat -> cell_at g i j <> 0).
    { intros i j Hi Hj Hz. apply Hfull. by exists i, j. }
    destruct Hpair as (i & j & [Hi Hj] & [[Hlt Heq] | [Hlt Heq]]).
    + exists "up"%string. split; [auto|].
      apply (sweep_moves "up" this (column_at g j)); [by apply line_up|].
      apply (pair_line_moves _ i (cell_at g i j)).
      * unfold column_at. repeat (constructor; [apply Hnz; lia|]). constructor.
      * by apply column_at_lookup.
      * rewrite <- Heq. replace (S i) with (i + 1)%nat by lia.
        apply column_at_lookup. lia.
    + exists "left"%string. split; [auto|].
      apply (sweep_moves "left" this (row_at g i)); [by apply line_left|].
      rewrite (row_at_cells g i Hg Hi).
      apply (pair_line_moves _ j (cell_at g i j)).
      * repeat (constructor; [apply Hnz; lia|]). constructor.
      * by apply (cells4_lookup _ _ _ _ (fun p => cell_at g i p)).
      * rewrite <- Heq. replace (S j) with (j + 1)%nat by lia.
        apply (cells4_lookup _ _ _ _ (fun p => cell_at g i p)); (reflexivity || lia).
  - (* an empty cell and a tile *)
    assert (Hc : c ∈ emptyCells g) by (rewrite Hcells; by left).
    apply elem_of_emptyCells in Hc as [[Hi0 Hj0] Hzero].
    destruct (decide (cell_at g i1 (col c) = 0)) as [Hz|Hnz].
    + apply (Hrow i1 Hi1); [by exists (col c) | by exists j1].
    + apply (Hcol (col c) Hj0); [by exists (row c) | by exists i1].
Qed.

(** On a 4x4 grid that holds a tile, when [isGameOver] is false one of the
    four directions changes the grid: a call of [move] with it reports a
    change, whatever the draws. *)
Theorem moves_remain (this : Game2048) :
  shape_ok (grid this) -> isGameOver this = false ->
  (exists i j, in_grid i j /\ cell_at (grid this) i j <> 0) ->
  exists direction,
    (direction = "left" \/ direction = "right" \/ direction = "up" \/ direction = "down")%string
    /\ forall rnd1 rnd2, didMove (move direction rnd1 rnd2 this) = true.
Proof.
  intros Hg Hnot Htile.
  destruct (some_sweep_moves this Hg Hnot Htile) as (direction & Hdir & Hmoved).
  exists direction. split; [exact Hdir|].
  intros rnd1 rnd2. by rewrite move_didMove.
Qed.

Lemma moves_remain_witness :
  exists direction,
    (direction = "left" \/ direction = "right" \/ direction = "up" \/ direction = "down")%string
    /\ forall rnd1 rnd2, didMove (move direction rnd1 rnd2 resting_game) = true.
Proof.
  apply (moves_remain resting_game).
  - apply shape_ok_top_row.
  - reflexivity.
  - exists 0%nat, 0%nat. split; [split; simpl; lia | discriminate].
Defined.

(** ** Throughout a game *)

Lemma addRandomTile_grid_sum_ge (rnd1 rnd2 : Q) (this : Game2048) :
  shape_ok (grid this) ->
  grid_sum (grid this) <= grid_sum (grid (addRandomTile rnd1 rnd2 this)).
Proof.
  intros Hg. destruct (addRandomTile_cases rnd1 rnd2 this) as [-> | (c & Hc & ->)]; [lia|].
  apply elem_of_emptyCells in Hc as [Hin Hz]. cbn [grid].
  rewrite grid_sum_set_cell, Hz by done.
  destruct (random_value_2_or_4 rnd2) as [-> | ->]; lia.
Qed.

Lemma move_grid_sum_ge (direction : string) (rnd1 rnd2 : Q) (this : Game2048) :
  shape_ok (grid this) ->
  grid_sum (grid this) <= grid_sum (grid (after (move direction rnd1 rnd2 this))).
Proof.
  intros Hg.
  assert (Hsp : grid_sum (grid this) <= grid_sum (grid (spawned direction rnd1 rnd2 this))).
  { unfold spawned. rewrite <- (sweep_grid_sum direction this Hg).
    apply (addRandomTile_grid_sum_ge rnd1 rnd2
             (Game (newGrid (sweep_lines direction this)) _ _ _ _)).
    by apply sweep_shape_ok. }
  destruct (move_cases direction rnd1 rnd2 this)
    as [(_ & -> & _) | [(_ & _ & _ & -> & _) | (_ & _ & -> & _)]];
    [simpl; lia | exact Hsp | exact Hsp].
Qed.

Lemma positive_sum_has_tile (g : matrix) :
  shape_ok g -> 0 < grid_sum g -> exists i j, in_grid i j /\ cell_at g i j <> 0.
Proof.
  intros Hg Hpos.
  destruct (emptyCells g) as [|c cs] eqn:Hcells.
  - apply emptyCells_nil in Hcells. exists 0%nat, 0%nat.
    split; [split; lia|]. intros Hz. apply Hcells. exists 0%nat, 0%nat.
    split; [split; lia | exact Hz].
  - destruct (shape_ok_inv g Hg)
      as (a0&a1&a2&a3&b0&b1&b2&b3&c0&c1&c2&c3&d0&d1&d2&d3&->).
    clear Hcells Hg.
    assert (Hcell : forall i j v, cell_at
      [[a0; a1; a2; a3]; [b0; b1; b2; b3]; [c0; c1; c2; c3]; [d0; d1; d2; d3]] i j = v ->
      v <> 0 -> in_grid i j ->
      exists i j, in_grid i j /\ cell_at
        [[a0; a1; a2; a3]; [b0; b1; b2; b3]; [c0; c1; c2; c3]; [d0; d1; d2; d3]] i j <> 0).
    { intros i j v <- Hv Hin. by exists i, j. }
    unfold grid_sum in Hpos. simpl in Hpos.
    destruct (decide (a0 = 0)); [|by apply (Hcell 0 0 a0)%nat; [| |split; lia]].
    destruct (decide (a1 = 0)); [|by apply (Hcell 0 1 a1)%nat; [| |split; lia]].
    destruct (decide (a2 = 0)); [|by apply (Hcell 0 2 a2)%nat; [| |split; lia]].
    destruct (decide (a3 = 0)); [|by apply (Hcell 0 3 a3)%nat; [| |split; lia]].
    destruct (decide (b0 = 0)); [|by apply (Hcell 1 0 b0)%nat; [| |split; lia]].
    destruct (decide (b1 = 0)); [|by apply (Hcell 1 1 b1)%nat; [| |split; lia]].
    destruct (decide (b2 = 0)); [|by apply (Hcell 1 2 b2)%nat; [| |split; lia]].
    destruct (decide (b3 = 0)); [|by apply (Hcell 1 3 b3)%nat; [| |split; lia]].
    destruct (decide (c0 = 0)); [|by apply (Hcell 2 0 c0)%nat; [| |split; lia]].
    destruct (decide (c1 = 0)); [|by apply (Hcell 2 1 c1)%nat; [| |split; lia]].
    destruct (decide (c2 = 0)); [|by apply (Hcell 2 2 c2)%nat; [| |split; lia]].
    destruct (decide (c3 = 0)); [|by apply (Hcell 2 3 c3)%nat; [| |split; lia]].
    destruct (decide (d0 = 0)); [|by apply (Hcell 3 0 d0)%nat; [| |split; lia]].
    destruct (decide (d1 = 0)); [|by apply (Hcell 3 1 d1)%nat; [| |split; lia]].
    destruct (decide (d2 = 0)); [|by apply (Hcell 3 2 d2)%nat; [| |split; lia]].
    destruct (decide (d3 = 0)); [|by apply (Hcell 3 3 d3)%nat; [| |split; lia]].
    lia.
Qed.

Lemma newGame_grid_sum (rnd1 rnd2 rnd3 rnd4 : Q) (this : Game2048) :
  unit_draw rnd1 -> 0 < grid_sum (grid (newGame rnd1 rnd2 rnd3 rnd4 this)).
Proof.
  intros Hd1. unfold newGame.
  set (this0 := Game initGrid 0 None (autoSave this) false).
  assert (Hshape0 : shape_ok (grid this0)) by apply initGrid_ok.
  assert (Hempty0 : has_empty (grid this0)).
  { exists 0%nat, 0%nat. by split; [split; lia|]. }
  assert (Hfirst : 0 < grid_sum (grid (addRandomTile rnd1 rnd2 this0))).
  { destruct (addRandomTile_fills_one_cell rnd1 rnd2 this0 Hshape0 Hempty0 Hd1)
      as (i & j & Hin & Hz & -> & _).
    rewrite grid_sum_set_cell, Hz by done.
    change (grid_sum (grid this0)) with 0.
    destruct (random_value_2_or_4 rnd2) as [-> | ->]; lia. }
  pose proof (addRandomTile_grid_sum_ge rnd3 rnd4 (addRandomTile rnd1 rnd2 this0)
                (addRandomTile_shape_ok rnd1 rnd2 this0 Hshape0)).
  lia.
Qed.

(** Throughout a game the grid holds a tile, and so does the grid that
    [undo] would restore. *)
Lemma reachable_has_tile (this : Game2048) :
  reachable this ->
  0 < grid_sum (grid this) /\ 0 < grid_sum (grid (undo this)).
Proof.
  intros Hreach. 
  induction Hreach as [rnd1 rnd2 rnd3 rnd4 this Hd1 _ _ _
                      | direction rnd1 rnd2 this Hreach IH _ _
                      | this Hreach IH
                      | rnd1 rnd2 this Hreach IH _ _].
  - assert (Hundo : undo (newGame rnd1 rnd2 rnd3 rnd4 this)
                    = newGame rnd1 rnd2 rnd3 rnd4 this).
    { unfold undo, newGame.
      repeat match goal with |- context [previousState (addRandomTile ?a ?b ?t)] =>
        rewrite (proj1 (proj2 (addRandomTile_fields a b t))) end.
      reflexivity. }
    rewrite Hundo. split; by apply newGame_grid_sum.
  - pose proof (reachable_inv this Hreach) as ((Hg & _) & _).
    pose proof (move_grid_sum_ge direction rnd1 rnd2 this (proj1 Hg)).
    rewrite undo_after_move. cbn [grid]. lia.
  - rewrite undo_undo. tauto.
  - pose proof (reachable_inv this Hreach) as ((Hg & _) & _).
    pose proof (addRandomTile_grid_sum_ge rnd1 rnd2 this (proj1 Hg)).
    split; [lia|].
    destruct (addRandomTile_fields rnd1 rnd2 this) as (_ & Hp & _).
    unfold undo in *. rewrite Hp. destruct (previousState this); [tauto | lia].
Qed.

(** Within a game, [isGameOver] holds exactly when no call of [move] can
    change the grid: it is false as long as one of the four directions
    moves a tile, and once it is true every direction, with any draws,
    reports no change. *)
Theorem game_over_exact (this : Game2048) :
  reachable this ->
  (isGameOver this = true
   <-> forall direction rnd1 rnd2, didMove (move direction rnd1 rnd2 this) = false).
Proof.
  intros Hreach.
  pose proof (reachable_inv this Hreach) as (((Hg & _) & _) & _).
  destruct (reachable_has_tile this Hreach) as [Hpos _].
  split.
  - intros Hover direction rnd1 rnd2. rewrite move_didMove.
    by apply game_over_sweep_still.
  - intros Hnone. destruct (isGameOver this) eqn:Hover; [reflexivity|].
    destruct (some_sweep_moves this Hg Hover (positive_sum_has_tile _ Hg Hpos))
      as (direction & _ & Hmoved).
    specialize (Hnone direction 0%Q 0%Q). rewrite move_didMove in Hnone. congruence.
Qed.

Lemma game_over_exact_witness :
  isGameOver fresh_game = true
  <-> forall direction rnd1 rnd2, didMove (move direction rnd1 rnd2 fresh_game) = false.
Proof. apply (game_over_exact fresh_game), reachable_fresh_game. Defined.

(** * The game-over overlay *)

Lemma isGameOver_grid (this that : Game2048) :
  grid this = grid that -> isGameOver this = isGameOver that.
Proof. intros Hg. unfold isGameOver. by rewrite Hg. Qed.

(** A move schedules the game-over overlay exactly when it changed the
    grid, the grid it leaves (after the spawn) is game over, and the same
    move does not schedule the win overlay; a move that first shows 2048 on
    a grid with no move left schedules the win overlay only.  A move never
    schedules both, and a move that reports no change schedules none. *)
Theorem move_game_over_event (direction : string) (rnd1 rnd2 : Q) (this : Game2048) :
  (shown (move direction rnd1 rnd2 this) = Some GameOverOverlay
   <-> didMove (move direction rnd1 rnd2 this) = true
       /\ isGameOver (after (move direction rnd1 rnd2 this)) = true
       /\ (checkWin (after (move direction rnd1 rnd2 this)) = false
           \/ hasWon this = true))
  /\ (shown (move direction rnd1 rnd2 this) = None
      <-> didMove (move direction rnd1 rnd2 this) = false
          \/ (isGameOver (after (move direction rnd1 rnd2 this)) = false
              /\ (checkWin (after (move direction rnd1 rnd2 this)) = false
                  \/ hasWon this = true))).
Proof.
  pose proof (move_win_event direction rnd1 rnd2 this) as Hwin.
  destruct (spawned_fields direction rnd1 rnd2 this) as (_ & _ & Hw & _).
  assert (Hcases :
    (didMove (move direction rnd1 rnd2 this) = false
     /\ shown (move direction rnd1 rnd2 this) = None)
    \/ (didMove (move direction rnd1 rnd2 this) = true
        /\ shown (move direction rnd1 rnd2 this) = Some WinOverlay)
    \/ (didMove (move direction rnd1 rnd2 this) = true
        /\ shown (move direction rnd1 rnd2 this) <> Some WinOverlay
        /\ shown (move direction rnd1 rnd2 this)
           = if isGameOver (after (move direction rnd1 rnd2 this))
             then Some GameOverOverlay else None)).
  { destruct (didMove (move direction rnd1 rnd2 this)) eqn:Hmoved.
    2:{ left. split; [reflexivity|]. by apply move_still. }
    right. rewrite move_didMove in Hmoved.
    unfold move. change (sweep_lines direction (saveState this))
      with (sweep_lines direction this).
    rewrite Hmoved. cbn [grid score previousState autoSave hasWon saveState].
    match goal with |- context [addRandomTile rnd1 rnd2 ?t] =>
      set (t4 := addRandomTile rnd1 rnd2 t) end.
    destruct (checkWin t4 && negb (hasWon t4)); [by left|].
    right. destruct (isGameOver t4) eqn:Hover; cbn [shown after didMove];
      rewrite Hover; by repeat split. }
  destruct Hcases as [(Hm & Hs) | [(Hm & Hs) | (Hm & Hnw & Hs)]].
  - rewrite Hm, Hs. split; split; try discriminate; try tauto.
    intros (? & _). discriminate.
  - pose proof (proj1 Hwin Hs) as (Hnot & _ & Hcw).
    rewrite Hm, Hs. split; split; try discriminate.
    + intros (_ & _ & [H|H]); congruence.
    + intros [H | (_ & [H|H])]; congruence.
  - assert (Hflag : checkWin (after (move direction rnd1 rnd2 this)) = false
                    \/ hasWon this = true).
    { destruct (checkWin (after (move direction rnd1 rnd2 this))) eqn:Hcw; [|by left].
      destruct (hasWon this) eqn:Hhw; [by right|].
      exfalso. apply Hnw, Hwin. by repeat split. }
    rewrite Hm, Hs.
    destruct (isGameOver (after (move direction rnd1 rnd2 this))); split; split;
      try discriminate; try tauto.
    + intros [H | (H & _)]; discriminate.
    + intros (_ & H & _). discriminate.
Qed.

(** * The best score *)

Lemma updateDisplay_best (p : Page) (b : Z) :
  bestScore p = Some b ->
  engine (updateDisplay p) = engine p
  /\ exists b', bestScore (updateDisplay p) = Some b'
       /\ b <= b' /\ score (engine p) <= b'
       /\ (b' = b \/ b' = score (engine p)).
Proof.
  intros Hb. unfold updateDisplay. rewrite Hb.
  destruct (b <? score (engine p)) eqn:Hlt.
  - apply Z.ltb_lt in Hlt. split; [reflexivity|].
    exists (score (engine p)). simpl. repeat split; (lia || auto).
  - apply Z.ltb_ge in Hlt. split; [reflexivity|].
    exists b. repeat split; (lia || auto).
Qed.

Lemma updateDisplay_none (p : Page) : bestScore p = None -> updateDisplay p = p.
Proof. intros Hb. unfold updateDisplay. by rewrite Hb. Qed.

(** One call keeps the best score at or above the score. *)
Lemma page_act_best (a : page_action) (p : Page) (b : Z) :
  bestScore p = Some b -> score (engine p) <= b ->
  exists b', bestScore (page_act a p) = Some b'
    /\ b <= b' /\ score (engine (page_act a p)) <= b'.
Proof.
  intros Hb Hle. destruct a as [rnd1 rnd2 rnd3 rnd4 | direction rnd1 rnd2 |]; simpl.
  - unfold page_newGame.
    destruct (updateDisplay_best (MkPage (newGame rnd1 rnd2 rnd3 rnd4 (engine p)) (bestScore p)) b Hb)
      as (-> & b' & -> & H1 & H2 & _). by exists b'.
  - unfold page_move. destruct (didMove (move direction rnd1 rnd2 (engine p))) eqn:Hm.
    + destruct (updateDisplay_best
                  (MkPage (after (move direction rnd1 rnd2 (engine p))) (bestScore p)) b Hb)
        as (-> & b' & -> & H1 & H2 & _). by exists b'.
    + destruct (move_still direction rnd1 rnd2 (engine p) Hm) as [-> _].
      exists b. simpl. by repeat split; try lia.
  - unfold page_undo. destruct (previousState (engine p)) eqn:Hp.
    + destruct (updateDisplay_best (MkPage (undo (engine p)) (bestScore p)) b Hb)
        as (-> & b' & -> & H1 & H2 & _). by exists b'.
    + exists b. by repeat split; try lia.
Qed.

Lemma page_act_none (a : page_action) (p : Page) :
  bestScore p = None -> bestScore (page_act a p) = None.
Proof.
  intros Hb. destruct a as [rnd1 rnd2 rnd3 rnd4 | direction rnd1 rnd2 |]; simpl.
  - unfold page_newGame. by rewrite updateDisplay_none.
  - unfold page_move. destruct (didMove _); [by rewrite updateDisplay_none | exact Hb].
  - unfold page_undo. destruct (previousState (engine p)); [by rewrite updateDisplay_none | exact Hb].
Qed.


(** * What is stored and read back *)

(** The auto-save setting and the saved game come back as they were
    stored.  The string that [toggleAutoSave] stores is read by the
    constructor as the setting just chosen, and the setting is on when
    nothing is stored or anything but ['false'] is; toggling twice gives the
    object back; toggling on stores the current game at once, toggling off
    stores no game.  When [JSON.parse] gives back the object that
    [saveGame] serialised, [loadGame] installs exactly the saved grid and
    score, and the saved won flag, also when it is false. *)
Theorem stored_state_reads_back (this that : Game2048) (text : string)
    (rnd1 rnd2 rnd3 rnd4 : Q) :
  (forall w ws, snd (toggleAutoSave this) = w :: ws ->
     exists t, w = SetAutoSave t
       /\ read_autoSave (Some t) = autoSave (fst (toggleAutoSave this)))
  /\ autoSave (fst (toggleAutoSave this)) = negb (autoSave this)
  /\ fst (toggleAutoSave (fst (toggleAutoSave this))) = this
  /\ (autoSave this = false ->
      snd (toggleAutoSave this)
      = [SetAutoSave "true"; SetGameState (saved_state (fst (toggleAutoSave this)))])
  /\ (autoSave this = true -> snd (toggleAutoSave this) = [SetAutoSave "false"])
  /\ read_autoSave None = true
  /\ (forall t, t <> "false"%string -> read_autoSave (Some t) = true)
  /\ (autoSave this = true -> text <> ""%string ->
      loadGame (Item text (inl (saved_state that))) rnd1 rnd2 rnd3 rnd4 this
      = Installed (js_of_matrix (grid that)) (JSNumber (inject_Z (score that)))
                  (JSBool (hasWon that))).
Proof.
  repeat apply conj.
  - intros w ws Hw. simpl in Hw. inversion Hw; subst.
    eexists. split; [reflexivity|]. simpl. by destruct (autoSave this).
  - reflexivity.
  - destruct this as [g sc prev auto won]. simpl. by rewrite negb_involutive.
  - intros Hoff. unfold toggleAutoSave, saveGame. simpl. by rewrite Hoff.
  - intros Hon. unfold toggleAutoSave, saveGame. simpl. by rewrite Hon.
  - reflexivity.
  - intros t Ht. simpl. apply String.eqb_neq in Ht. by rewrite Ht.
  - intros Hon Htext. unfold loadGame. rewrite Hon. simpl.
    apply String.eqb_neq in Htext. rewrite Htext. simpl.
    by destruct (hasWon that).
Qed.

(** * Keys and swipes *)

Lemma Qlt_b_true (x y : Q) : Qlt_b x y = true <-> (x < y)%Q.
Proof.
  unfold Qlt_b. rewrite negb_true_iff. split.
  - intros H. apply Qnot_le_lt. intros Hle. apply Qle_bool_iff in Hle. congruence.
  - intros H. destruct (Qle_bool y x) eqn:Hle; [|reflexivity].
    apply Qle_bool_iff in Hle. exfalso. by apply (Qlt_not_le x y).
Qed.

Lemma Qlt_b_false (x y : Q) : Qlt_b x y = false <-> (y <= x)%Q.
Proof.
  unfold Qlt_b. rewrite negb_false_iff. apply Qle_bool_iff.
Qed.

(** The handlers call [move] with one of the four directions only.  A
    swipe gives a direction only when the touch started at coordinates
    other than 0 and the finger travelled more than 50 along the axis on
    which it travelled most (the vertical one when both are equal): to the
    left or up when the coordinate decreased, to the right or down when it
    increased.  A swipe of at most 50 along both axes gives none, and after
    a [touchend] a second one without a new [touchstart] gives none. *)
Theorem handlers_directions (start : option (Q * Q)) (endX endY endX' endY' : Q)
    (key : string) :
  (forall d, key_direction key = Some d \/ fst (touchend start endX endY) = Some d ->
     (d = "left" \/ d = "right" \/ d = "up" \/ d = "down")%string)
  /\ (forall startX startY, start = Some (startX, startY) ->
        (fst (touchend start endX endY) = Some "left"%string ->
           (50 < startX - endX)%Q /\ (Qabs (startY - endY) < Qabs (startX - endX))%Q)
        /\ (fst (touchend start endX endY) = Some "right"%string ->
           (startX - endX < -50)%Q /\ (Qabs (startY - endY) < Qabs (startX - endX))%Q)
        /\ (fst (touchend start endX endY) = Some "up"%string ->
           (50 < startY - endY)%Q /\ (Qabs (startX - endX) <= Qabs (startY - endY))%Q)
        /\ (fst (touchend start endX endY) = Some "down"%string ->
           (startY - endY < -50)%Q /\ (Qabs (startX - endX) <= Qabs (startY - endY))%Q)
        /\ ((Qabs (startX - endX) <= 50)%Q -> (Qabs (startY - endY) <= 50)%Q ->
            fst (touchend start endX endY) = None)
        /\ (startX == 0 \/ startY == 0 -> fst (touchend start endX endY) = None)%Q)
  /\ fst (touchend (snd (touchend start endX endY)) endX' endY') = None.
Proof.
  split; [|split].
  - intros d [Hkey | Hswipe].
    + unfold key_direction in Hkey.
      repeat match type of Hkey with (if ?c then _ else _) = _ => destruct c end;
        inversion Hkey; auto.
    + unfold touchend in Hswipe. destruct start as [[startX startY]|]; [|discriminate].
      repeat match type of Hswipe with context [if ?c then _ else _] => destruct c end;
        simpl in Hswipe; inversion Hswipe; auto.
  - intros startX startY ->. unfold touchend.
    destruct (Qeq_bool startX 0) eqn:Hx0.
    { simpl. repeat split; try discriminate. }
    destruct (Qeq_bool startY 0) eqn:Hy0.
    { simpl. repeat split; try discriminate. }
    cbn [orb fst].
    destruct (Qlt_b (Qabs (startY - endY)) (Qabs (startX - endX))) eqn:Hdom;
      [apply Qlt_b_true in Hdom | apply Qlt_b_false in Hdom].
    + destruct (Qlt_b 50 (startX - endX)) eqn:Hl;
        [apply Qlt_b_true in Hl | apply Qlt_b_false in Hl].
      { repeat split; try discriminate; try done.
        - intros Hsmall _. exfalso. apply Qabs_Qle_condition in Hsmall as [_ Hsmall].
          by apply (Qlt_not_le _ _ Hl).
        - intros [H|H]; apply Qeq_bool_iff in H; congruence. }
      destruct (Qlt_b (startX - endX) (-50)) eqn:Hr;
        [apply Qlt_b_true in Hr | apply Qlt_b_false in Hr].
      { repeat split; try discriminate; try done.
        - intros Hsmall _. exfalso. apply Qabs_Qle_condition in Hsmall as [Hsmall _].
          by apply (Qlt_not_le _ _ Hr).
        - intros [H|H]; apply Qeq_bool_iff in H; congruence. }
      repeat split; try discriminate; try done.
    + destruct (Qlt_b 50 (startY - endY)) eqn:Hu;
        [apply Qlt_b_true in Hu | apply Qlt_b_false in Hu].
      { repeat split; try discriminate; try done.
        - intros _ Hsmall. exfalso. apply Qabs_Qle_condition in Hsmall as [_ Hsmall].
          by apply (Qlt_not_le _ _ Hu).
        - intros [H|H]; apply Qeq_bool_iff in H; congruence. }
      destruct (Qlt_b (startY - endY) (-50)) eqn:Hd;
        [apply Qlt_b_true in Hd | apply Qlt_b_false in Hd].
      { repeat split; try discriminate; try done.
        - intros _ Hsmall. exfalso. apply Qabs_Qle_condition in Hsmall as [Hsmall _].
          by apply (Qlt_not_le _ _ Hd).
        - intros [H|H]; apply Qeq_bool_iff in H; congruence. }
      repeat split; try discriminate; try done.
  - unfold touchend at 2. destruct start as [[startX startY]|]; [|reflexivity].
    destruct (Qeq_bool startX 0 || Qeq_bool startY 0) eqn:Hz; [|reflexivity].
    cbn [snd]. unfold touchend. by rewrite Hz.
Qed.

(** * Counting the empty cells *)

Lemma length_compact_reverse (l : list Z) :
  length (compact (reverse l)) = length (compact l).
Proof.
  induction l as [|a l IH]; [reflexivity|].
  rewrite reverse_cons, compact_app, length_app, IH.
  unfold compact. simpl. destruct (a =? 0); simpl; lia.
Qed.

Lemma zeros4 (a b c d : Z) :
  (4 - length (compact [a; b; c; d]))%nat
  = ((if (a =? 0)%Z then 1 else 0) + (if (b =? 0)%Z then 1 else 0)
     + (if (c =? 0)%Z then 1 else 0) + (if (d =? 0)%Z then 1 else 0))%nat.
Proof.
  unfold compact. simpl.
  destruct (a =? 0), (b =? 0), (c =? 0), (d =? 0); reflexivity.
Qed.

Lemma length_if_cell (c : bool) (x : cell) :
  length (if c then [x] else []) = if c then 1%nat else 0%nat.
Proof. by destruct c. Qed.

Lemma emptyCells_by_rows (g : matrix) :
  shape_ok g ->
  length (emptyCells g)
  = sum_nat (map (fun k => 4 - length (compact (row_at g k)))%nat idx4).
Proof.
  intros Hg. destruct (shape_ok_inv g Hg)
    as (a0&a1&a2&a3&b0&b1&b2&b3&c0&c1&c2&c3&d0&d1&d2&d3&->).
  unfold idx4. cbn [seq map sum_nat foldr].
  change (row_at [[a0; a1; a2; a3]; [b0; b1; b2; b3]; [c0; c1; c2; c3]; [d0; d1; d2; d3]] 0)
    with [a0; a1; a2; a3].
  change (row_at [[a0; a1; a2; a3]; [b0; b1; b2; b3]; [c0; c1; c2; c3]; [d0; d1; d2; d3]] 1)
    with [b0; b1; b2; b3].
  change (row_at [[a0; a1; a2; a3]; [b0; b1; b2; b3]; [c0; c1; c2; c3]; [d0; d1; d2; d3]] 2)
    with [c0; c1; c2; c3].
  change (row_at [[a0; a1; a2; a3]; [b0; b1; b2; b3]; [c0; c1; c2; c3]; [d0; d1; d2; d3]] 3)
    with [d0; d1; d2; d3].
  rewrite !zeros4. unfold emptyCells, idx4. cbn [seq flat_map].
  unfold cell_at, row_at, at_. cbn [lookup list_lookup default].
  rewrite !length_app, !length_if_cell. simpl. lia.
Qed.

Lemma emptyCells_by_columns (g : matrix) :
  shape_ok g ->
  length (emptyCells g)
  = sum_nat (map (fun k => 4 - length (compact (column_at g k)))%nat idx4).
Proof.
  intros Hg. destruct (shape_ok_inv g Hg)
    as (a0&a1&a2&a3&b0&b1&b2&b3&c0&c1&c2&c3&d0&d1&d2&d3&->).
  unfold idx4. cbn [seq map sum_nat foldr]. unfold column_at.
  rewrite !zeros4. unfold emptyCells, idx4. cbn [seq flat_map].
  unfold cell_at, row_at, at_. cbn [lookup list_lookup default].
  rewrite !length_app, !length_if_cell. simpl. lia.
Qed.

Lemma length_flat_map_sum {A B : Type} (f : A -> list B) (l : list A) :
  length (flat_map f l) = sum_nat (map (fun x => length (f x)) l).
Proof. induction l as [|a l IH]; [reflexivity|]. simpl. by rewrite length_app, IH. Qed.

(** The reduction of a line of at most four cells frees one cell for each
    merge. *)
Lemma line_frees (l : list Z) :
  (length l <= 4)%nat ->
  (4 - length (compact (slideAndMergeLine l)))%nat
  = ((4 - length (compact l)) + length (merge_at 0 (compact l)))%nat.
Proof.
  intros Hl. rewrite compact_slide.
  pose proof (length_merge_once (compact l) 0). pose proof (length_compact l). lia.
Qed.

Lemma sum_nat_idx4 (f : nat -> nat) :
  sum_nat (map f idx4) = (f 0 + f 1 + f 2 + f 3)%nat.
Proof. unfold idx4. simpl. lia. Qed.

(** The number of merged cells a sweep reports is the number of merges of
    its lines. *)
Lemma sweep_merged_length (direction : string) (this : Game2048) :
  length (mergedCells (sweep_lines direction this))
  = sum_nat (map (fun line => length (merge_at 0 (compact line)))
                 (lines_toward direction (grid this))).
Proof.
  unfold sweep_lines, lines_toward.
  destruct (direction =? "left")%string.
  { rewrite (fold_merged left_body row_at left_body_frame (fun k p => Cell k p)
               left_body_merged) by apply NoDup_idx4.
    cbn [mergedCells app]. rewrite length_flat_map_sum, map_map.
    f_equal. apply map_ext. intros k. by rewrite length_map. }
  destruct (direction =? "right")%string.
  { rewrite (fold_merged right_body (fun g k => reverse (row_at g k)) right_body_frame
               (fun k p => Cell k (3 - p)) right_body_merged) by apply NoDup_idx4.
    cbn [mergedCells app]. rewrite length_flat_map_sum, map_map.
    f_equal. apply map_ext. intros k. by rewrite length_map. }
  destruct (direction =? "up")%string.
  { rewrite (fold_merged up_body column_at up_body_frame (fun k p => Cell p k)
               up_body_merged) by apply NoDup_idx4.
    cbn [mergedCells app]. rewrite length_flat_map_sum, map_map.
    f_equal. apply map_ext. intros k. by rewrite length_map. }
  destruct (direction =? "down")%string.
  { rewrite (fold_merged down_body (fun g k => reverse (column_at g k)) down_body_frame
               (fun k p => Cell (3 - p) k) down_body_merged) by apply NoDup_idx4.
    cbn [mergedCells app]. rewrite length_flat_map_sum, map_map.
    f_equal. apply map_ext. intros k. by rewrite length_map. }
  reflexivity.
Qed.

(** On a 4x4 grid the sweep of a move frees exactly one cell for each
    merged cell it reports. *)
Lemma sweep_frees_cells (direction : string) (this : Game2048) :
  shape_ok (grid this) ->
  length (emptyCells (newGrid (sweep_lines direction this)))
  = (length (emptyCells (grid this))
     + length (mergedCells (sweep_lines direction this)))%nat.
Proof.
  intros Hg. pose proof (sweep_shape_ok direction this Hg) as Hnew.
  rewrite sweep_merged_length.
  assert (Hrow : forall k, (k < 4)%nat -> (length (row_at (grid this) k) <= 4)%nat).
  { intros k Hk. by rewrite length_row_at_4. }
  destruct (direction =? "left")%string eqn:Hl.
  { apply String.eqb_eq in Hl as ->.
    change (lines_toward "left" (grid this)) with (map (fun i => row_at (grid this) i) idx4).
    rewrite map_map, !emptyCells_by_rows, !sum_nat_idx4 by done.
    rewrite !sweep_left_lands by (done || lia).
    rewrite !line_frees by (apply Hrow; lia). lia. }
  destruct (direction =? "right")%string eqn:Hr.
  { apply String.eqb_eq in Hr as ->.
    change (lines_toward "right" (grid this))
      with (map (fun i => reverse (row_at (grid this) i)) idx4).
    rewrite map_map, !emptyCells_by_rows, !sum_nat_idx4 by done.
    rewrite !sweep_right_lands by (done || lia).
    rewrite !line_frees by (rewrite length_reverse; apply Hrow; lia).
    rewrite !length_compact_reverse. lia. }
  destruct (direction =? "up")%string eqn:Hu.
  { apply String.eqb_eq in Hu as ->.
    change (lines_toward "up" (grid this)) with (map (fun j => column_at (grid this) j) idx4).
    rewrite map_map, !emptyCells_by_columns, !sum_nat_idx4 by done.
    rewrite !sweep_up_lands by (done || lia).
    rewrite !line_frees by (simpl; lia). lia. }
  destruct (direction =? "down")%string eqn:Hd.
  { apply String.eqb_eq in Hd as ->.
    change (lines_toward "down" (grid this))
      with (map (fun j => reverse (column_at (grid this) j)) idx4).
    rewrite map_map, !emptyCells_by_columns, !sum_nat_idx4 by done.
    rewrite <- !(length_compact_reverse (column_at (newGrid _) _)).
    rewrite !sweep_down_lands by (done || lia).
    rewrite !line_frees by (simpl; lia).
    rewrite !length_compact_reverse. lia. }
  unfold sweep_lines, lines_toward. rewrite Hl, Hr, Hu, Hd. simpl. lia.
Qed.

(** On a 4x4 grid a move takes one tile off the grid for each merged cell
    it reports and, when it changed the grid, puts one on: before the
    spawn the grid has one more empty cell per reported merge, and after a
    move that reports a change, for a draw of [Math.random()], the number
    of empty cells is the one before the move, plus the reported merges,
    minus one. *)
Theorem move_counts_cells (direction : string) (rnd1 rnd2 : Q) (this : Game2048) :
  shape_ok (grid this) -> unit_draw rnd1 ->
  length (emptyCells (newGrid (sweep_lines direction this)))
    = (length (emptyCells (grid this))
       + length (mergedPositions (move direction rnd1 rnd2 this)))%nat
  /\ (didMove (move direction rnd1 rnd2 this) = true ->
      S (length (emptyCells (grid (after (move direction rnd1 rnd2 this)))))
      = (length (emptyCells (grid this))
         + length (mergedPositions (move direction rnd1 rnd2 this)))%nat)
  /\ (didMove (move direction rnd1 rnd2 this) = false ->
      mergedPositions (move direction rnd1 rnd2 this) = []
      /\ emptyCells (grid (after (move direction rnd1 rnd2 this)))
         = emptyCells (grid this)).
Proof.
  intros Hg Hdraw. rewrite move_mergedPositions.
  pose proof (sweep_frees_cells direction this Hg) as Hfree.
  split; [exact Hfree|]. split.
  - intros Hm. rewrite <- Hfree.
    assert (Hgrid : grid (after (move direction rnd1 rnd2 this))
                    = grid (spawned direction rnd1 rnd2 this)).
    { destruct (move_cases direction rnd1 rnd2 this)
        as [(Hstill & _) | [(_ & _ & _ & -> & _) | (_ & _ & -> & _)]];
        [congruence | done | done]. }
    rewrite Hgrid. unfold spawned. rewrite move_didMove in Hm.
    apply addRandomTile_one_less; [by apply sweep_shape_ok | | exact Hdraw].
    cbn [grid]. intros Hnil. apply emptyCells_nil in Hnil.
    by apply Hnil, moved_has_empty.
  - intros Hm. destruct (move_still direction rnd1 rnd2 this Hm) as [-> _].
    rewrite move_didMove in Hm. split; [by apply sweep_still_merged | reflexivity].
Qed.

Lemma shape_ok_fresh : shape_ok (grid fresh_game).
Proof. split; [reflexivity|]. vm_compute. by repeat constructor. Defined.

Lemma move_counts_cells_witness :
  length (emptyCells (newGrid (sweep_lines "left" fresh_game)))
  = (length (emptyCells (grid fresh_game))
     + length (mergedPositions (move "left" 0 0 fresh_game)))%nat.
Proof.
  apply (proj1 (move_counts_cells "left" 0 0 fresh_game shape_ok_fresh unit_draw_0)).
Defined.

(** * Tiles are packed *)

(** The row that [slideAndMergeRow] returns is packed toward index 0: it
    is made of non-empty cells followed by empty cells only, so that no
    tile comes after an empty cell. *)
Theorem slideAndMergeRow_packed (line : list Z) (sc : Z) :
  (exists tiles n,
     slid_row (slideAndMergeRow line sc) = tiles ++ replicate n 0
     /\ Forall (fun v => v <> 0) tiles)
  /\ (forall p q v, (p <= q)%nat ->
        slid_row (slideAndMergeRow line sc) !! p = Some 0 ->
        slid_row (slideAndMergeRow line sc) !! q = Some v -> v = 0).
Proof.
  rewrite slideAndMergeRow_scan. cbn [slid_row]. unfold slideAndMergeLine, pad4.
  pose proof (merge_once_nonzero _ (compact_nonzero line)) as Hnz.
  set (tiles := merge_once (compact line)) in *.
  split; [by exists tiles, (4 - length tiles)%nat|].
  intros p q v Hpq Hp Hq.
  destruct (decide (p < length tiles)%nat) as [Hin|Hout].
  - rewrite lookup_app_l in Hp by exact Hin.
    exfalso. by apply (Forall_lookup_1 _ _ _ _ Hnz Hp).
  - rewrite lookup_app_r in Hq by lia.
    apply lookup_replicate in Hq as [-> _]. reflexivity.
Qed.

(** * The right branch and the mirror image *)

Lemma shape_ok_mirror (g : matrix) : shape_ok g -> shape_ok (mirror g).
Proof.
  intros [Hlen Hrows]. unfold mirror. split; [by rewrite length_map|].
  apply Forall_map. eapply Forall_impl; [exact Hrows|].
  intros r Hr. simpl. by rewrite length_reverse.
Qed.

Lemma row_at_mirror (g : matrix) (k : nat) :
  row_at (mirror g) k = reverse (row_at g k).
Proof.
  unfold row_at, mirror. rewrite list_lookup_fmap. by destruct (g !! k).
Qed.

Lemma grid_ext (g h : matrix) :
  shape_ok g -> shape_ok h ->
  (forall k, (k < 4)%nat -> row_at g k = row_at h k) -> g = h.
Proof.
  intros [Hg _] [Hh _] Hrows. apply list_eq. intros k.
  destruct (decide (k < 4)%nat) as [Hk|Hk].
  - specialize (Hrows k Hk). unfold row_at in Hrows.
    destruct (lookup_lt_is_Some_2 g k ltac:(lia)) as [r Hr].
    destruct (lookup_lt_is_Some_2 h k ltac:(lia)) as [r' Hr'].
    rewrite Hr, Hr' in *. simpl in Hrows. by rewrite Hrows.
  - by rewrite !lookup_ge_None_2 by lia.
Qed.

Lemma lines_right_mirror (g : matrix) :
  lines_toward "right" g = lines_toward "left" (mirror g).
Proof.
  change (map (fun i => reverse (row_at g i)) idx4
          = map (fun i => row_at (mirror g) i) idx4).
  apply map_ext. intros k. by rewrite row_at_mirror.
Qed.

(** On a 4x4 grid the right branch of [move] computes what the left
    branch computes on the mirror image of the grid, and leaves it there:
    the grid it stores is the one the left branch stores for the mirrored
    grid, not mirrored back, with the same moved flag and the same score;
    only the columns of the reported merged cells are mirrored. *)
Theorem right_is_left_on_mirror (this : Game2048) :
  shape_ok (grid this) ->
  let that := Game (mirror (grid this)) (score this) (previousState this)
                   (autoSave this) (hasWon this) in
  newGrid (sweep_lines "right" this) = newGrid (sweep_lines "left" that)
  /\ moved (sweep_lines "right" this) = moved (sweep_lines "left" that)
  /\ sweep_score (sweep_lines "right" this) = sweep_score (sweep_lines "left" that)
  /\ mergedCells (sweep_lines "right" this)
     = map (fun c => Cell (row c) (3 - col c)) (mergedCells (sweep_lines "left" that)).
Proof.
  intros Hg that.
  assert (Hthat : shape_ok (grid that)) by (by apply shape_ok_mirror).
  split; [|split; [|split]].
  - apply grid_ext; try (by apply sweep_shape_ok).
    intros k Hk. rewrite sweep_right_lands, sweep_left_lands by done.
    subst that. cbn [grid]. by rewrite row_at_mirror.
  - rewrite !sweep_moved_lines. subst that. cbn [grid]. by rewrite lines_right_mirror.
  - rewrite !sweep_score_gain. unfold move_gain. subst that. cbn [grid score].
    by rewrite lines_right_mirror.
  - unfold sweep_lines.
    change ("right" =? "left")%string with false.
    change ("right" =? "right")%string with true.
    change ("left" =? "left")%string with true. cbv iota.
    rewrite (fold_merged right_body (fun g k => reverse (row_at g k)) right_body_frame
               (fun k p => Cell k (3 - p)) right_body_merged) by apply NoDup_idx4.
    rewrite (fold_merged left_body row_at left_body_frame (fun k p => Cell k p)
               left_body_merged) by apply NoDup_idx4.
    cbn [mergedCells newGrid app]. subst that. cbn [grid].
    unfold idx4. cbn [seq flat_map]. rewrite !map_app, !app_nil_r, !map_map.
    by rewrite !row_at_mirror.
Qed.

Lemma right_is_left_on_mirror_witness :
  newGrid (sweep_lines "right" resting_game)
  = newGrid (sweep_lines "left"
               (Game (mirror (grid resting_game)) (score resting_game)
                     (previousState resting_game) (autoSave resting_game)
                     (hasWon resting_game))).
Proof. apply (right_is_left_on_mirror resting_game), shape_ok_top_row. Defined.

(** * Undoing a win *)

(** [undo] does not take the win back: after the move that schedules the
    win overlay the won flag stays set through an undo, although the
    restored grid shows no 2048 when the game had not been won before, and
    no move made from the restored state schedules the win overlay, not
    even the same winning move made again. *)
Theorem undo_keeps_the_win (direction direction' : string) (rnd1 rnd2 rnd1' rnd2' : Q)
    (this : Game2048) :
  shown (move direction rnd1 rnd2 this) = Some WinOverlay ->
  hasWon (undo (after (move direction rnd1 rnd2 this))) = true
  /\ grid (undo (after (move direction rnd1 rnd2 this))) = grid this
  /\ shown (move direction' rnd1' rnd2' (undo (after (move direction rnd1 rnd2 this))))
     <> Some WinOverlay
  /\ hasWon (after (move direction' rnd1' rnd2'
                      (undo (after (move direction rnd1 rnd2 this))))) = true.
Proof.
  intros Hshown. apply move_win_sets_flag in Hshown.
  assert (Hwon : hasWon (undo (after (move direction rnd1 rnd2 this))) = true)
    by (by rewrite undo_hasWon).
  split; [exact Hwon|]. split; [by rewrite undo_after_move|].
  destruct (move_keeps_won direction' rnd1' rnd2' _ Hwon) as [Hkeep Hnot].
  by split.
Qed.

Lemma undo_keeps_the_win_witness :
  shown (move "left" 0 0 winning_game) = Some WinOverlay
  /\ hasWon (undo (after (move "left" 0 0 winning_game))) = true.
Proof.
  split; [reflexivity|].
  apply (undo_keeps_the_win "left" "left" 0 0 0 0 winning_game). reflexivity.
Defined.

(** * The won flag across a reload *)

Lemma integers_of_js_numbers (r : list Z) :
  integers_of_js (map (fun v => JSNumber (inject_Z v)) r) = Some r.
Proof. induction r as [|v r IH]; [reflexivity|]. simpl. by rewrite IH. Qed.

Lemma matrix_of_js_matrix (g : matrix) : matrix_of_js (js_of_matrix g) = Some g.
Proof.
  unfold matrix_of_js, js_of_matrix.
  induction g as [|r g IH]; [reflexivity|].
  simpl. by rewrite integers_of_js_numbers, IH.
Qed.

(** Loading the object that [saveGame] serialised gives the saved grid,
    score and won flag back. *)
Lemma loaded_saved_state (this that : Game2048) (text : string) (rnd1 rnd2 rnd3 rnd4 : Q) :
  autoSave this = true -> text <> ""%string ->
  loaded_object this
    (loadGame (Item text (inl (saved_state that))) rnd1 rnd2 rnd3 rnd4 this)
  = Some (Game (grid that) (score that) (previousState this) (autoSave this) (hasWon that)).
Proof.
  intros Hon Htext.
  assert (Hload : loadGame (Item text (inl (saved_state that))) rnd1 rnd2 rnd3 rnd4 this
                  = Installed (js_of_matrix (grid that)) (JSNumber (inject_Z (score that)))
                              (JSBool (hasWon that))).
  { unfold loadGame. rewrite Hon. simpl.
    apply String.eqb_neq in Htext. rewrite Htext. simpl. by destruct (hasWon that). }
  rewrite Hload. unfold loaded_object. by rewrite matrix_of_js_matrix.
Qed.

(** C7, on the code.  [move] calls [saveGame] (line 153) before it sets
    [hasWon] (line 168): the move that schedules the win overlay sets the
    flag on the object, but the game it stores shows the 2048 with [hasWon]
    false.  The object that a reload makes of the stored game, by
    [loadGame] (line 40), has the 2048 on its grid and the flag not set,
    without any call of [newGame], and each move of it that changes the
    grid and keeps the 2048 schedules the win overlay again.  For the grid
    whose first row is [1024,1024,0,0]: the move to the left schedules the
    win overlay and stores the grid [2048,2,0,0] with [hasWon] false; the
    reloaded object has [hasWon] false; its move down schedules the win
    overlay a second time. *)
Theorem win_overlay_again_after_reload (this this0 : Game2048) (direction : string)
    (rnd1 rnd2 rnd3 rnd4 rnd5 rnd6 : Q) (text : string) :
  (autoSave this = true -> autoSave this0 = true -> text <> ""%string ->
   shown (move direction rnd1 rnd2 this) = Some WinOverlay ->
   hasWon (after (move direction rnd1 rnd2 this)) = true
   /\ move_writes direction rnd1 rnd2 this
      = [SetGameState (saved_state (spawned direction rnd1 rnd2 this))]
   /\ hasWon (spawned direction rnd1 rnd2 this) = false
   /\ exists reloaded,
        loaded_object this0
          (loadGame (Item text (inl (saved_state (spawned direction rnd1 rnd2 this))))
                    rnd3 rnd4 rnd5 rnd6 this0)
        = Some reloaded
        /\ grid reloaded = grid (after (move direction rnd1 rnd2 this))
        /\ score reloaded = score (after (move direction rnd1 rnd2 this))
        /\ checkWin reloaded = true
        /\ hasWon reloaded = false
        /\ forall direction' rnd1' rnd2',
             didMove (move direction' rnd1' rnd2' reloaded) = true ->
             checkWin (after (move direction' rnd1' rnd2' reloaded)) = true ->
             shown (move direction' rnd1' rnd2' reloaded) = Some WinOverlay)
  /\ (hasWon winning_game = false
      /\ shown (move "left" 0 0 winning_game) = Some WinOverlay
      /\ hasWon (after (move "left" 0 0 winning_game)) = true
      /\ move_writes "left" 0 0 winning_game = [SetGameState won_game_value]
      /\ loadGame (Item won_game_text (inl won_game_value)) 0 0 0 0
                  (constructed_fields (Some "true"%string))
         = Installed
             (js_of_matrix [[2048; 2; 0; 0]; [0; 0; 0; 0]; [0; 0; 0; 0]; [0; 0; 0; 0]])
             (JSNumber (inject_Z 2048)) (JSBool false)
      /\ loaded_object (constructed_fields (Some "true"%string))
           (loadGame (Item won_game_text (inl won_game_value)) 0 0 0 0
                     (constructed_fields (Some "true"%string)))
         = Some reloaded_game
      /\ checkWin reloaded_game = true
      /\ hasWon reloaded_game = false
      /\ shown (move "down" 0 0 reloaded_game) = Some WinOverlay).
Proof.
  split; [|by repeat split].
  intros Hon Hon0 Htext Hshown.
  pose proof (move_win_sets_flag direction rnd1 rnd2 this Hshown) as Hset.
  apply move_win_event in Hshown as (Hnot & Hmoved & Hwin).
  destruct (spawned_fields direction rnd1 rnd2 this) as (Hsc & _ & Hw & Hauto).
  assert (Hafter : grid (after (move direction rnd1 rnd2 this))
                   = grid (spawned direction rnd1 rnd2 this)
                   /\ score (after (move direction rnd1 rnd2 this))
                      = score (spawned direction rnd1 rnd2 this)).
  { destruct (move_cases direction rnd1 rnd2 this)
      as [(Hstill & _) | [(_ & _ & _ & -> & _) | (_ & _ & -> & _)]];
      [congruence | done | done]. }
  destruct Hafter as [Hgrid Hscore].
  split; [exact Hset|]. split; [|split; [congruence|]].
  - unfold move_writes, saveGame. rewrite move_didMove in Hmoved.
    by rewrite Hmoved, Hauto, Hon.
  - eexists. split; [by apply loaded_saved_state|].
    cbn [grid score hasWon]. split; [by rewrite Hgrid|]. split; [by rewrite Hscore|].
    split; [|split; [congruence|]].
    + rewrite <- Hwin. apply checkWin_grid. cbn [grid]. by rewrite Hgrid.
    + intros direction' rnd1' rnd2' Hm Hcw. apply move_win_event.
      split; [cbn [hasWon]; congruence|]. by split.
Qed.
